(** * The cleaning and analysis engine of [enhanced_html_pipeline.py]

    A shallow embedding of [EnhancedHTMLPipeline.clean_data] and
    [EnhancedHTMLPipeline.analyze_data], together with the pandas and numpy
    operations they call, and the properties of the cleaning policy.

    Modelling conventions.
    - A finite float or integer cell is an exact rational ([Q]); results of
      arithmetic are kept in lowest terms with [Qred].  The statistics are
      computed exactly.  The rounding of doubles ([Py.round_double]) is
      modelled where a text is produced from a ratio ([Py.format_pct1]),
      and in [Double], which writes the threshold test and the outlier
      capper with every operation rounded; the properties that depend on
      the exact value of a ratio or of a fence are stated where the two
      are proved to agree.
    - The frames hold finite numbers; the imputation of a column that holds
      infinities is modelled apart, in [Extended].
    - A missing cell (NaN / None) is [None].
    - A column carries its storage type by construction: numeric columns
      ([int64], [float64], and [float32] standing for the other numeric
      widths), boolean columns, and object columns holding Python values.
    - Column labels are strings of bytes.  [normalize_name] is the
      normalisation of a label of ASCII characters; [clean_data_with] takes
      the normalisation as a parameter, so that what is proved of it holds
      of the normalisation Python computes on labels of any script.
    - [df[col].fillna(v, inplace=True)] writes through to the frame, as it
      does in the pandas versions the program was written for. *)

From Stdlib Require Import List String Ascii Bool Arith ZArith QArith Qround.
From Stdlib Require Import Qpower Qabs Lia Lqa Permutation DecimalString.
Import ListNotations.

Local Close Scope Q_scope.
Local Open Scope string_scope.
Local Open Scope list_scope.
Local Open Scope nat_scope.

(** String concatenation, Python's [+] on [str]. *)
Infix "+++" := String.append (at level 60, right associativity).

(* ================================================================== *)
(** ** Python primitives *)

Module Py.

(** [str(n)] for a non-negative integer. *)
Definition str_nat (n : nat) : string :=
  NilEmpty.string_of_uint (Nat.to_uint n).

Definition str_Z (z : Z) : string :=
  match z with
  | Zneg p => "-" +++ str_nat (Pos.to_nat p)
  | _ => str_nat (Z.to_nat z)
  end.

(** [repr((r, c))], the rendering of a frame's [shape]. *)
Definition repr_shape (sh : nat * nat) : string :=
  "(" +++ str_nat (fst sh) +++ ", " +++ str_nat (snd sh) +++ ")".

(** Round-half-to-even of a rational, the rounding of [round] and of the
    float formatting codes. *)
Definition round_half_even (q : Q) : Z :=
  let f := Qfloor q in
  let r := (q - inject_Z f)%Q in
  match Qcompare r (1 # 2)%Q with
  | Lt => f
  | Gt => (f + 1)%Z
  | Eq => if Z.even f then f else (f + 1)%Z
  end.

(** [round(x, d)]. *)
Definition round_to (d : nat) (q : Q) : Q :=
  let p := inject_Z (10 ^ Z.of_nat d) in
  Qred (inject_Z (round_half_even (q * p)) / p)%Q.

(** [2.0 ** e] *)
Definition pow2 (e : Z) : Q := Qpower 2 e.

(** The double nearest to a rational, ties going to the even significand.
    The exponent is taken unbounded: no overflow, no subnormal numbers. *)
Definition round_double (q : Q) : Q :=
  if Qeq_bool q 0 then 0%Q
  else
    let a := Qabs q in
    let e0 := (Z.log2 (Z.abs (Qnum q)) - Z.log2 (Zpos (Qden q)) - 53)%Z in
    let e := if Qle_bool (pow2 53) (a / pow2 e0) then (e0 + 1)%Z else e0 in
    let m := round_half_even (a / pow2 e) in
    Qred ((if Qle_bool 0 q then 1 else -1) * inject_Z m * pow2 e)%Q.

(** [f"{x:.1%}"] for a non-negative ratio [x], which the program holds as
    the double nearest to it: the double [x * 100] is written with one
    decimal digit, rounded half to even on its exact value. *)
Definition format_pct1 (x : Q) : string :=
  let p := round_double (round_double x * 100)%Q in
  let tenths := round_half_even (p * 10)%Q in
  str_Z (tenths / 10)%Z +++ "." +++ str_Z (tenths mod 10)%Z +++ "%".

(** Characters. *)
Definition is_space (c : ascii) : bool :=
  let n := nat_of_ascii c in
  ((9 <=? n) && (n <=? 13)) || ((28 <=? n) && (n <=? 32)).

Definition is_upper (c : ascii) : bool :=
  let n := nat_of_ascii c in (65 <=? n) && (n <=? 90).

Definition is_lower (c : ascii) : bool :=
  let n := nat_of_ascii c in (97 <=? n) && (n <=? 122).

Definition is_digit (c : ascii) : bool :=
  let n := nat_of_ascii c in (48 <=? n) && (n <=? 57).

Definition lower_char (c : ascii) : ascii :=
  if is_upper c then ascii_of_nat (nat_of_ascii c + 32) else c.

Fixpoint lstrip (s : string) : string :=
  match s with
  | String c s' => if is_space c then lstrip s' else s
  | EmptyString => EmptyString
  end.

Fixpoint rstrip (s : string) : string :=
  match s with
  | String c s' =>
      match rstrip s' with
      | EmptyString => if is_space c then EmptyString else String c EmptyString
      | t => String c t
      end
  | EmptyString => EmptyString
  end.

(** [s.strip()] *)
Definition strip (s : string) : string := rstrip (lstrip s).

Fixpoint map_str (f : ascii -> ascii) (s : string) : string :=
  match s with
  | String c s' => String (f c) (map_str f s')
  | EmptyString => EmptyString
  end.

Fixpoint filter_str (p : ascii -> bool) (s : string) : string :=
  match s with
  | String c s' => if p c then String c (filter_str p s') else filter_str p s'
  | EmptyString => EmptyString
  end.

(** [s.lower()] *)
Definition lower (s : string) : string := map_str lower_char s.

(** [s.replace(a, b)] for single characters. *)
Definition replace (a b : ascii) (s : string) : string :=
  map_str (fun c => if Ascii.eqb c a then b else c) s.

(** The character class [[a-zA-Z0-9_]]. *)
Definition is_word (c : ascii) : bool :=
  is_lower c || is_upper c || is_digit c || Ascii.eqb c "_"%char.

(** [re.sub(r'[^a-zA-Z0-9_]', '', s)] *)
Definition re_sub_nonword (s : string) : string := filter_str is_word s.

End Py.

(* ================================================================== *)
(** ** Python values and their comparisons *)

Inductive pyobj : Type :=
| PStr (s : string)
| PNum (q : Q)
| PBool (b : bool).

(** The number a value compares as: [True == 1] and [False == 0]. *)
Definition num_key (v : pyobj) : option Q :=
  match v with
  | PStr _ => None
  | PNum q => Some q
  | PBool b => Some (if b then 1 else 0)%Q
  end.

(** Python's [==] on values. *)
Definition py_eqb (a b : pyobj) : bool :=
  match a, b with
  | PStr s, PStr t => String.eqb s t
  | PStr _, _ | _, PStr _ => false
  | _, _ =>
      match num_key a, num_key b with
      | Some x, Some y => Qeq_bool x y
      | _, _ => false
      end
  end.

(** Whether [a < b] is defined; text against a number raises [TypeError]. *)
Definition py_comparable (a b : pyobj) : bool :=
  match a, b with
  | PStr _, PStr _ => true
  | PStr _, _ | _, PStr _ => false
  | _, _ => true
  end.

(** Python's [<=] where it is defined, extended to a total preorder
    (numbers before text) elsewhere. *)
Definition py_leb (a b : pyobj) : bool :=
  match a, b with
  | PStr s, PStr t => String.leb s t
  | PStr _, _ => false
  | _, PStr _ => true
  | _, _ =>
      match num_key a, num_key b with
      | Some x, Some y => Qle_bool x y
      | _, _ => false
      end
  end.

Definition cell : Type := option pyobj.

Definition cell_eqb (a b : cell) : bool :=
  match a, b with
  | None, None => true
  | Some x, Some y => py_eqb x y
  | _, _ => false
  end.

Definition is_none {A : Type} (o : option A) : bool :=
  match o with None => true | Some _ => false end.

(* ================================================================== *)
(** ** List operations shared by the pandas model *)

Section ListOps.
Context {A : Type}.
Variables (eqb leb : A -> A -> bool).

Fixpoint insert_sorted (x : A) (l : list A) : list A :=
  match l with
  | [] => [x]
  | y :: l' => if leb x y then x :: l else y :: insert_sorted x l'
  end.

(** Ascending sort. *)
Fixpoint isort (l : list A) : list A :=
  match l with
  | [] => []
  | x :: l' => insert_sorted x (isort l')
  end.

(** Number of elements of [l] equal to [x]. *)
Definition count (x : A) (l : list A) : nat :=
  List.length (filter (eqb x) l).

(** Distinct elements in order of first appearance: an element is kept
    when no element met before it, collected in [seen], equals it. *)
Fixpoint nub_from (seen l : list A) : list A :=
  match l with
  | [] => []
  | x :: l' =>
      if existsb (eqb x) seen then nub_from (x :: seen) l'
      else x :: nub_from (x :: seen) l'
  end.

Definition nub (l : list A) : list A := nub_from [] l.

Definition max_count (l : list A) : nat :=
  fold_right (fun x m => Nat.max (count x l) m) 0 l.

(** The most frequent elements, in order of first appearance. *)
Definition modes_unsorted (l : list A) : list A :=
  filter (fun x => count x l =? max_count l) (nub l).

(** Every element is below all the elements after it. *)
Fixpoint ascending (l : list A) : Prop :=
  match l with
  | [] => True
  | x :: l' => (forall y, In y l' -> leb x y = true) /\ ascending l'
  end.

(** The largest count, in [l0], of an element of [l]. *)
Definition max_over (l0 l : list A) : nat :=
  fold_right (fun x m => Nat.max (count x l0) m) 0 l.

(** The least mode: a most frequent element below every most frequent
    element. *)
Definition least_mode (l : list A) (v : A) : Prop :=
  In v l /\ count v l = max_count l
  /\ forall w, In w l -> count w l = max_count l -> leb v w = true.
End ListOps.

(** The values present in a column, missing cells skipped. *)
Fixpoint present {A : Type} (l : list (option A)) : list A :=
  match l with
  | [] => []
  | Some x :: l' => x :: present l'
  | None :: l' => present l'
  end.

(** Boolean indexing: the elements of [l] whose mask bit is set. *)
Fixpoint mask_filter {A : Type} (m : list bool) (l : list A) : list A :=
  match m, l with
  | b :: m', x :: l' => if b then x :: mask_filter m' l' else mask_filter m' l'
  | _, _ => []
  end.

Fixpoint zip_cons {A : Type} (c : list A) (rs : list (list A)) : list (list A) :=
  match c, rs with
  | x :: c', r :: rs' => (x :: r) :: zip_cons c' rs'
  | _, _ => []
  end.

Definition Qlt_bool (x y : Q) : bool := negb (Qle_bool y x).

(* ================================================================== *)
(** ** pandas and numpy *)

Module Pd.

Inductive numkind : Type := int64 | float64 | float32.

Inductive dtype : Type :=
| DNum (k : numkind)
| DBool
| DObject.

Inductive Series : Type :=
| NumSeries (k : numkind) (xs : list (option Q))
| BoolSeries (xs : list bool)
| ObjSeries (xs : list cell).

Definition dtype_of (s : Series) : dtype :=
  match s with
  | NumSeries k _ => DNum k
  | BoolSeries _ => DBool
  | ObjSeries _ => DObject
  end.

(** [str(dtype)] *)
Definition dtype_name (d : dtype) : string :=
  match d with
  | DNum int64 => "int64"
  | DNum float64 => "float64"
  | DNum float32 => "float32"
  | DBool => "bool"
  | DObject => "object"
  end.

(** [dtype in ['int64', 'float64']] *)
Definition dtype_in_int64_float64 (d : dtype) : bool :=
  String.eqb (dtype_name d) "int64" || String.eqb (dtype_name d) "float64".

(** Membership in [np.number]. *)
Definition is_number (d : dtype) : bool :=
  match d with DNum _ => true | _ => false end.

(** Membership in ['object']. *)
Definition is_object (d : dtype) : bool :=
  match d with DObject => true | _ => false end.

(** The cells of a column as Python values. *)
Definition cells (s : Series) : list cell :=
  match s with
  | NumSeries _ xs => map (option_map PNum) xs
  | BoolSeries xs => map (fun b => Some (PBool b)) xs
  | ObjSeries xs => xs
  end.

Definition len_series (s : Series) : nat := List.length (cells s).

(** [s.isnull().sum()] *)
Definition null_count (s : Series) : nat :=
  List.length (filter is_none (cells s)).

(** [s[mask]] *)
Definition take (m : list bool) (s : Series) : Series :=
  match s with
  | NumSeries k xs => NumSeries k (mask_filter m xs)
  | BoolSeries xs => BoolSeries (mask_filter m xs)
  | ObjSeries xs => ObjSeries (mask_filter m xs)
  end.

(** *** Statistics *)

Definition sort_values (xs : list Q) : list Q := isort Qle_bool xs.

(** Median of the values present; [None] is NaN. *)
Definition median_of (xs : list Q) : option Q :=
  let s := sort_values xs in
  let n := List.length s in
  if n =? 0 then None
  else if Nat.odd n then Some (nth (n / 2) s 0%Q)
  else Some (Qred ((nth (n / 2 - 1) s 0 + nth (n / 2) s 0) / 2)%Q).

(** [s.median()] *)
Definition median (s : Series) : option Q :=
  match s with
  | NumSeries _ xs => median_of (present xs)
  | _ => None
  end.

(** The interpolated value at the rational rank [pos] of the sorted list. *)
Definition at_rank (s : list Q) (m : nat) (pos : Q) : Q :=
  let lo := Z.to_nat (Qfloor pos) in
  let hi := Nat.min (lo + 1) m in
  (nth lo s 0 + (nth hi s 0 - nth lo s 0) * (pos - inject_Z (Qfloor pos)))%Q.

(** Quantile by linear interpolation between the two closest ranks. *)
Definition quantile_of (q : Q) (xs : list Q) : option Q :=
  let s := sort_values xs in
  match List.length s with
  | 0 => None
  | S m =>
      let pos := (q * inject_Z (Z.of_nat m))%Q in
      let lo := Z.to_nat (Qfloor pos) in
      let hi := Nat.min (lo + 1) m in
      let g := (pos - inject_Z (Qfloor pos))%Q in
      let a := nth lo s 0%Q in
      let b := nth hi s 0%Q in
      Some (Qred (a + (b - a) * g)%Q)
  end.

(** [s.quantile(q)] *)
Definition quantile (q : Q) (s : Series) : option Q :=
  match s with
  | NumSeries _ xs => quantile_of q (present xs)
  | _ => None
  end.

(** Whether [np.sort] succeeds on the values: every pair is comparable. *)
Definition sortable (l : list pyobj) : bool :=
  forallb (fun a => forallb (py_comparable a) l) l.

(** [s.mode()]: the most frequent values present, sorted when they can be
    compared and left in order of first appearance otherwise. *)
Definition mode_of (l : list pyobj) : list pyobj :=
  let ms := modes_unsorted py_eqb l in
  if sortable ms then isort py_leb ms else ms.

Definition mode (s : Series) : list pyobj := mode_of (present (cells s)).

(** [s.nunique()] *)
Definition nunique (s : Series) : nat :=
  List.length (nub py_eqb (present (cells s))).

(** *** Filling and clipping *)

Definition fill {A : Type} (v : A) (xs : list (option A)) : list (option A) :=
  map (fun c => match c with None => Some v | Some _ => c end) xs.

(** [s.fillna(v)]; a NaN fill value leaves the column as it is, and a
    value that the storage type cannot hold turns the column into an object
    column. *)
Definition fillna (v : cell) (s : Series) : Series :=
  match v with
  | None => s
  | Some w =>
      match s with
      | NumSeries k xs =>
          match w with
          | PNum q => NumSeries k (fill q xs)
          | _ => if forallb (fun c => negb (is_none c)) xs then s
                 else ObjSeries (fill w (map (option_map PNum) xs))
          end
      | BoolSeries _ => s
      | ObjSeries xs => ObjSeries (fill w xs)
      end
  end.

(** Floats with NaN, and the arithmetic the program does on them. *)
Definition float : Type := option Q.

Definition fadd (a b : float) : float :=
  match a, b with Some x, Some y => Some (Qred (x + y)%Q) | _, _ => None end.

Definition fsub (a b : float) : float :=
  match a, b with Some x, Some y => Some (Qred (x - y)%Q) | _, _ => None end.

Definition fmul (a b : float) : float :=
  match a, b with Some x, Some y => Some (Qred (x * y)%Q) | _, _ => None end.

(** [a / b] on counts: [0 / 0] is NaN. *)
Definition true_divide (a b : nat) : float :=
  if b =? 0 then None
  else Some (Qred (inject_Z (Z.of_nat a) / inject_Z (Z.of_nat b))%Q).

(** [a > b]; false when either side is NaN. *)
Definition fgt (a b : float) : bool :=
  match a, b with Some x, Some y => Qlt_bool y x | _, _ => false end.

(** [x < lo] and [x > hi] for a cell value and a possibly NaN bound. *)
Definition below (lo : float) (x : Q) : bool := fgt lo (Some x).
Definition above (hi : float) (x : Q) : bool := fgt (Some x) hi.

Definition clip_value (lo hi : float) (x : Q) : Q :=
  if below lo x then match lo with Some l => l | None => x end
  else if above hi x then match hi with Some h => h | None => x end
  else x.

Definition is_integral (q : Q) : bool := (Qden (Qred q) =? 1)%positive.

(** Storage type after writing clipped values: an integer column that
    received a fractional bound becomes [float64]. *)
Definition retype (k : numkind) (ys : list (option Q)) : numkind :=
  match k with
  | int64 => if forallb is_integral (present ys) then int64 else float64
  | _ => k
  end.

(** [np.clip(s, lo, hi)] *)
Definition clip (lo hi : float) (s : Series) : Series :=
  match s with
  | NumSeries k xs =>
      let ys := map (option_map (clip_value lo hi)) xs in
      NumSeries (retype k ys) ys
  | _ => s
  end.

(** [((s < lo) | (s > hi)).sum()] *)
Definition count_outside (lo hi : float) (s : Series) : nat :=
  match s with
  | NumSeries _ xs =>
      List.length (filter (fun x => below lo x || above hi x) (present xs))
  | _ => 0
  end.

(** *** Frames *)

Record DataFrame : Type := mkDataFrame {
  nrows : nat;                         (* [len(df)] *)
  cols : list (string * Series)
}.

(** [df.columns] *)
Definition columns (df : DataFrame) : list string := map fst (cols df).

(** [df.shape] *)
Definition shape (df : DataFrame) : nat * nat :=
  (nrows df, List.length (cols df)).

(** Every column has one cell per row. *)
Definition wf (df : DataFrame) : Prop :=
  Forall (fun c => len_series (snd c) = nrows df) (cols df).

(** [df.columns = names] *)
Definition set_columns (names : list string) (df : DataFrame) : DataFrame :=
  mkDataFrame (nrows df) (combine names (map snd (cols df))).

(** What [df[label]] selects: nothing, one column, or a sub-frame when the
    label is carried by several columns. *)
Inductive selection : Type :=
| NoColumn
| Column (s : Series)
| Frame (ss : list Series).

Definition getitem (df : DataFrame) (label : string) : selection :=
  match filter (fun c => String.eqb (fst c) label) (cols df) with
  | [] => NoColumn
  | [c] => Column (snd c)
  | cs => Frame (map snd cs)
  end.

(** [df[label] = s] *)
Definition setitem (label : string) (s : Series) (df : DataFrame) : DataFrame :=
  if existsb (String.eqb label) (columns df)
  then mkDataFrame (nrows df)
         (map (fun c => if String.eqb (fst c) label then (label, s) else c)
              (cols df))
  else mkDataFrame (nrows df) (cols df ++ [(label, s)]).

(** [df.drop(columns=labels)] *)
Definition drop (labels : list string) (df : DataFrame) : DataFrame :=
  mkDataFrame (nrows df)
    (filter (fun c => negb (existsb (String.eqb (fst c)) labels)) (cols df)).

(** [df.select_dtypes(include=...).columns] *)
Definition select_dtypes (p : dtype -> bool) (df : DataFrame) : list string :=
  map fst (filter (fun c => p (dtype_of (snd c))) (cols df)).

(** The rows of a frame, each the list of its cells in column order. *)
Fixpoint rows_of (n : nat) (cs : list (list cell)) : list (list cell) :=
  match cs with
  | [] => repeat [] n
  | c :: cs' => zip_cons c (rows_of n cs')
  end.

Definition rows (df : DataFrame) : list (list cell) :=
  rows_of (nrows df) (map (fun c => cells (snd c)) (cols df)).

Fixpoint row_eqb (r1 r2 : list cell) : bool :=
  match r1, r2 with
  | [], [] => true
  | a :: r1', b :: r2' => cell_eqb a b && row_eqb r1' r2'
  | _, _ => false
  end.

(** [df.duplicated()]: a row is flagged when an earlier row equals it. *)
Fixpoint duplicated_from (seen rs : list (list cell)) : list bool :=
  match rs with
  | [] => []
  | r :: rs' => existsb (row_eqb r) seen :: duplicated_from (r :: seen) rs'
  end.

Definition duplicated (df : DataFrame) : list bool :=
  duplicated_from [] (rows df).

(** [df.empty] *)
Definition empty (df : DataFrame) : bool :=
  (nrows df =? 0) || (List.length (cols df) =? 0).

(** [df.drop_duplicates()]: an empty frame is returned as it is, otherwise
    the rows not flagged by [duplicated] are kept. *)
Definition drop_duplicates (df : DataFrame) : DataFrame :=
  if empty df then df
  else
    let keep := map negb (duplicated df) in
    mkDataFrame (List.length (filter (fun b => b) keep))
      (map (fun c => (fst c, take keep (snd c))) (cols df)).

(** [df.isnull().sum().sum()] *)
Definition total_missing (df : DataFrame) : nat :=
  fold_right (fun c acc => null_count (snd c) + acc) 0 (cols df).

End Pd.

(* ================================================================== *)
(** ** The pipeline object *)

Module Pipeline.
Import Pd.

Inductive exn : Type := ValueError | AttributeError | KeyError.

Inductive result (A : Type) : Type :=
| Ok (a : A)
| Raise (e : exn).
Arguments Ok {A} a.
Arguments Raise {A} e.

(** The attributes of an [EnhancedHTMLPipeline] that cleaning reads and
    writes. *)
Record State : Type := mkState {
  raw_data : DataFrame;
  cleaned_data : DataFrame;
  cleaning_log : list string
}.

(** A method body: it reads and updates the attributes, and may raise. *)
Definition M (A : Type) : Type := State -> result (A * State).

Definition ret {A : Type} (a : A) : M A := fun st => Ok (a, st).

Definition bind {A B : Type} (m : M A) (k : A -> M B) : M B :=
  fun st =>
    match m st with
    | Ok (a, st') => k a st'
    | Raise e => Raise e
    end.

Notation "x <- m ;; k" := (bind m (fun x => k))
  (at level 61, m at next level, right associativity).
Notation "m ;;; k" := (bind m (fun _ => k))
  (at level 61, right associativity).

Definition raise {A : Type} (e : exn) : M A := fun _ => Raise e.

Definition get_raw : M DataFrame := fun st => Ok (raw_data st, st).

Definition get_cleaned : M DataFrame := fun st => Ok (cleaned_data st, st).

Definition put_cleaned (df : DataFrame) : M unit :=
  fun st => Ok (tt, mkState (raw_data st) df (cleaning_log st)).

(** The bullet character followed by a space. *)
Definition bullet : string :=
  String (ascii_of_nat 226) (String (ascii_of_nat 128)
    (String (ascii_of_nat 162) " ")).

(** [log_action]: append the bulleted record to the log. *)
Definition log_action (action : string) : M unit :=
  fun st =>
    Ok (tt, mkState (raw_data st) (cleaned_data st)
              (cleaning_log st ++ [bullet +++ action])).

(** A [for] loop threading the local variable the body updates. *)
Fixpoint for_each {A B : Type} (l : list B) (body : A -> B -> M A) (acc : A)
  : M A :=
  match l with
  | [] => ret acc
  | x :: l' => acc' <- body acc x ;; for_each l' body acc'
  end.

(** [self.cleaned_data[col]] used as a column: a label carried by several
    columns selects a frame, whose truth value or [dtype] cannot be taken. *)
Definition series_at (e : exn) (df : DataFrame) (col : string) : M Series :=
  match getitem df col with
  | Column s => ret s
  | Frame _ => raise e
  | NoColumn => raise KeyError
  end.

Definition normalize_name (col : string) : string :=
  Py.re_sub_nonword
    (Py.replace "-" "_" (Py.replace " " "_" (Py.lower (Py.strip col)))).

Definition missing_threshold : float := Some (95 # 100)%Q.

(** [f"{x:.1%}"] *)
Definition format_pct (x : float) : string :=
  match x with
  | Some q => Py.format_pct1 q
  | None => "nan%"
  end.

(** Body of the loop of step 2: decide whether [col] is to be dropped. *)
Definition mark_sparse_column (cols_to_drop : list string) (col : string)
  : M (list string) :=
  df <- get_cleaned ;;
  s <- series_at ValueError df col ;;
  let missing_pct := true_divide (null_count s) (nrows df) in
  if fgt missing_pct missing_threshold then
    log_action ("Dropped column '" +++ col +++ "' ("
                +++ format_pct missing_pct +++ " missing)") ;;;
    ret (cols_to_drop ++ [col])
  else ret cols_to_drop.

(** Body of the loop of step 4: fill the missing cells of [col]. *)
Definition fill_missing_column (missing_filled : nat) (col : string) : M nat :=
  df <- get_cleaned ;;
  s <- series_at ValueError df col ;;
  let missing_count := null_count s in
  if 0 <? missing_count then
    (if dtype_in_int64_float64 (dtype_of s) then
       (* Fill numeric with median *)
       put_cleaned (setitem col (fillna (option_map PNum (median s)) s) df) ;;;
       log_action ("Filled " +++ Py.str_nat missing_count
                   +++ " missing values in '" +++ col +++ "' with median")
     else
       (* Fill categorical with mode or 'Unknown' *)
       let mode_val := mode s in
       let fill_val :=
         match mode_val with v :: _ => v | [] => PStr "Unknown" end in
       put_cleaned (setitem col (fillna (Some fill_val) s) df) ;;;
       log_action ("Filled " +++ Py.str_nat missing_count
                   +++ " missing values in '" +++ col
                   +++ "' with mode/Unknown")) ;;;
    ret (missing_filled + missing_count)
  else ret missing_filled.

(** Body of the loop of step 5: cap the outliers of the numeric [col]. *)
Definition cap_outliers_column (total_outliers : nat) (col : string) : M nat :=
  df <- get_cleaned ;;
  s <- series_at ValueError df col ;;
  let Q1 := quantile (1 # 4) s in
  let Q3 := quantile (3 # 4) s in
  let IQR := fsub Q3 Q1 in
  let lower_bound := fsub Q1 (fmul (Some (3 # 2)%Q) IQR) in
  let upper_bound := fadd Q3 (fmul (Some (3 # 2)%Q) IQR) in
  (* Cap outliers instead of removing *)
  let outliers := count_outside lower_bound upper_bound s in
  if 0 <? outliers then
    put_cleaned (setitem col (clip lower_bound upper_bound s) df) ;;;
    log_action ("Capped " +++ Py.str_nat outliers
                +++ " outliers in '" +++ col +++ "'") ;;;
    ret (total_outliers + outliers)
  else ret total_outliers.

(** [clean_data], for the normalisation [norm] of a label that step 1
    applies: [normalize_name] on ASCII labels. *)
Definition clean_data_with (norm : string -> string) : M unit :=
  raw <- get_raw ;;
  put_cleaned raw ;;;
  let original_shape := shape raw in
  (* 1. Standardize column names *)
  df <- get_cleaned ;;
  let old_cols := columns df in
  put_cleaned (set_columns (map norm (columns df)) df) ;;;
  log_action ("Standardized " +++ Py.str_nat (List.length old_cols)
              +++ " column names") ;;;
  (* 2. Handle missing values - only drop columns with >95% missing *)
  df <- get_cleaned ;;
  cols_to_drop <- for_each (columns df) mark_sparse_column [] ;;
  match cols_to_drop with
  | _ :: _ => df <- get_cleaned ;; put_cleaned (drop cols_to_drop df)
  | [] => log_action "No columns dropped (all below 95% missing threshold)"
  end ;;;
  (* 3. Remove duplicates *)
  df <- get_cleaned ;;
  let initial_rows := nrows df in
  put_cleaned (drop_duplicates df) ;;;
  df <- get_cleaned ;;
  let duplicates_removed := initial_rows - nrows df in
  (if 0 <? duplicates_removed
   then log_action ("Removed " +++ Py.str_nat duplicates_removed
                    +++ " duplicate rows")
   else log_action "No duplicate rows found") ;;;
  (* 4. Handle remaining missing values *)
  df <- get_cleaned ;;
  missing_filled <- for_each (columns df) fill_missing_column 0 ;;
  (if missing_filled =? 0 then log_action "No missing values to fill"
   else ret tt) ;;;
  (* 5. Handle outliers for numeric columns *)
  df <- get_cleaned ;;
  let numeric_cols := select_dtypes is_number df in
  total_outliers <- for_each numeric_cols cap_outliers_column 0 ;;
  (if total_outliers =? 0
   then log_action "No outliers detected in numeric columns"
   else ret tt) ;;;
  df <- get_cleaned ;;
  let final_shape := shape df in
  log_action ("Cleaning complete: " +++ Py.repr_shape original_shape
              +++ " -> " +++ Py.repr_shape final_shape).

Definition clean_data : M unit := clean_data_with normalize_name.

(** *** The analyzer *)

Record BasicInfo : Type := mkBasicInfo {
  info_rows : nat;
  info_columns : nat;
  info_numeric_columns : nat;
  info_categorical_columns : nat;
  info_total_missing : nat
}.

Record MissingEntry : Type := mkMissingEntry {
  missing_count : nat;
  missing_percentage : float
}.

(** The entry of a numeric column; the standard deviation, a square root,
    has no rational value and is left out of the record. *)
Record NumericEntry : Type := mkNumericEntry {
  num_mean : Q;
  num_median : Q;
  num_min : float;
  num_max : float;
  num_unique_count : nat;
  num_zeros : nat
}.

Record CategoricalEntry : Type := mkCategoricalEntry {
  cat_unique_count : nat;
  cat_top_values : list (pyobj * nat);
  cat_most_frequent : pyobj
}.

Record OutlierEntry : Type := mkOutlierEntry {
  outlier_count : nat;
  outlier_percentage : float
}.

(** A [dict] keyed by column label, in insertion order. *)
Definition dict (V : Type) : Type := list (string * V).

(** [d[k] = v] *)
Fixpoint dict_set {V : Type} (k : string) (v : V) (d : dict V) : dict V :=
  match d with
  | [] => [(k, v)]
  | (k', v') :: d' =>
      if String.eqb k' k then (k', v) :: d' else (k', v') :: dict_set k v d'
  end.

Definition keys {V : Type} (d : dict V) : list string := map fst d.

Record Analysis : Type := mkAnalysis {
  basic_info : BasicInfo;
  missing_data : dict MissingEntry;
  data_types : dict string;
  numeric_summary : dict NumericEntry;
  categorical_summary : dict CategoricalEntry;
  outlier_analysis : dict OutlierEntry
}.

Definition numbers (s : Series) : list Q :=
  match s with
  | NumSeries _ xs => present xs
  | _ => []
  end.

(** [s.mean()] *)
Definition mean (s : Series) : float :=
  match numbers s with
  | [] => None
  | xs => Some (Qred (fold_right Qplus 0%Q xs
                      / inject_Z (Z.of_nat (List.length xs)))%Q)
  end.

(** [s.min()] and [s.max()] *)
Definition series_min (s : Series) : float := hd_error (sort_values (numbers s)).
Definition series_max (s : Series) : float :=
  hd_error (rev (sort_values (numbers s))).

(** [round(x, d) if not pd.isna(x) else 0] *)
Definition round_or_zero (d : nat) (x : float) : Q :=
  match x with
  | Some q => Py.round_to d q
  | None => 0%Q
  end.

(** [s.value_counts()]: the distinct values present with their counts, most
    frequent first, ties in order of first appearance. *)
Definition value_counts (s : Series) : list (pyobj * nat) :=
  let vs := present (cells s) in
  isort (fun a b => snd b <=? snd a)
        (map (fun v => (v, count py_eqb v vs)) (nub py_eqb vs)).

Definition analyze_data (data : DataFrame) : M Analysis :=
  let numeric_cols := select_dtypes is_number data in
  let categorical_cols := select_dtypes is_object data in
  let info :=
    mkBasicInfo (nrows data) (List.length (columns data))
      (List.length numeric_cols) (List.length categorical_cols)
      (total_missing data) in
  (* Missing data analysis; a label carried by several columns makes the
     [dtype] access of the next loop raise, and nothing is returned. *)
  missing <-
    for_each (columns data)
      (fun d col =>
         s <- series_at AttributeError data col ;;
         let missing_count := null_count s in
         let missing_pct :=
           fmul (true_divide missing_count (nrows data)) (Some 100%Q) in
         ret (dict_set col (mkMissingEntry missing_count missing_pct) d))
      [] ;;
  (* Data types *)
  types <-
    for_each (columns data)
      (fun d col =>
         s <- series_at AttributeError data col ;;
         ret (dict_set col (dtype_name (dtype_of s)) d))
      [] ;;
  (* Numeric analysis *)
  numeric <-
    for_each numeric_cols
      (fun d col =>
         s <- series_at AttributeError data col ;;
         ret (dict_set col
                (mkNumericEntry
                   (round_or_zero 3 (mean s))
                   (round_or_zero 3 (median s))
                   (series_min s) (series_max s)
                   (nunique s)
                   (List.length (filter (Qeq_bool 0) (numbers s))))
                d))
      [] ;;
  (* Categorical analysis *)
  categorical <-
    for_each categorical_cols
      (fun d col =>
         s <- series_at AttributeError data col ;;
         let top_values := firstn 3 (value_counts s) in
         ret (dict_set col
                (mkCategoricalEntry
                   (nunique s)
                   top_values
                   (match mode s with v :: _ => v | [] => PStr "N/A" end))
                d))
      [] ;;
  (* Outlier analysis for numeric columns *)
  outlier <-
    for_each numeric_cols
      (fun d col =>
         s <- series_at AttributeError data col ;;
         let Q1 := quantile (1 # 4) s in
         let Q3 := quantile (3 # 4) s in
         let IQR := fsub Q3 Q1 in
         let lower_bound := fsub Q1 (fmul (Some (3 # 2)%Q) IQR) in
         let upper_bound := fadd Q3 (fmul (Some (3 # 2)%Q) IQR) in
         let outliers := count_outside lower_bound upper_bound s in
         ret (dict_set col
                (mkOutlierEntry outliers
                   (option_map (Py.round_to 2)
                      (fmul (true_divide outliers (nrows data))
                         (Some 100%Q))))
                d))
      [] ;;
  ret (mkAnalysis info missing types numeric categorical outlier).

(** A pipeline object right after [load_data] produced [df]: nothing is
    cleaned yet and the log is empty. *)
Definition loaded (df : DataFrame) : State :=
  mkState df (mkDataFrame 0 []) [].

End Pipeline.

(* ================================================================== *)
(** ** The stages of [clean_data] as functions on frames

    Each stage maps a frame to the next frame and to the records it logs.
    [clean_data_run] below shows that the method computes their
    composition. *)

Module Stages.
Import Pd Pipeline.

(** 1. Standardize column names. *)
Definition rename_columns (norm : string -> string) (df : DataFrame)
  : DataFrame :=
  set_columns (map norm (columns df)) df.

Definition normalize_columns (df : DataFrame) : DataFrame :=
  rename_columns normalize_name df.

Definition normalize_record (df : DataFrame) : string :=
  "Standardized " +++ Py.str_nat (List.length (columns df)) +++ " column names".

(** 2. Column drop pass. *)
Definition missing_pct (n : nat) (s : Series) : float :=
  true_divide (null_count s) n.

Definition sparse (n : nat) (c : string * Series) : bool :=
  fgt (missing_pct n (snd c)) missing_threshold.

Definition drop_record (n : nat) (c : string * Series) : string :=
  "Dropped column '" +++ fst c +++ "' ("
  +++ format_pct (missing_pct n (snd c)) +++ " missing)".

Definition no_drop_record : string :=
  "No columns dropped (all below 95% missing threshold)".

Definition drop_pass (df : DataFrame) : DataFrame * list string :=
  match filter (sparse (nrows df)) (cols df) with
  | [] => (df, [no_drop_record])
  | marked => (drop (map fst marked) df, map (drop_record (nrows df)) marked)
  end.

(** 3. Duplicate removal. *)
Definition duplicates_record (before after : nat) : string :=
  if 0 <? before - after
  then "Removed " +++ Py.str_nat (before - after) +++ " duplicate rows"
  else "No duplicate rows found".

Definition duplicates_pass (df : DataFrame) : DataFrame * list string :=
  let out := drop_duplicates df in
  (out, [duplicates_record (nrows df) (nrows out)]).

(** 4. Cell imputation pass. *)
Definition fill_value (s : Series) : cell :=
  if dtype_in_int64_float64 (dtype_of s)
  then option_map PNum (median s)
  else Some (match mode s with v :: _ => v | [] => PStr "Unknown" end).

Definition fill_column (s : Series) : Series :=
  if 0 <? null_count s then fillna (fill_value s) s else s.

Definition fill_records (c : string * Series) : list string :=
  if 0 <? null_count (snd c) then
    ["Filled " +++ Py.str_nat (null_count (snd c)) +++ " missing values in '"
     +++ fst c +++ "' with "
     +++ (if dtype_in_int64_float64 (dtype_of (snd c))
          then "median" else "mode/Unknown")]
  else [].

Definition no_fill_record : string := "No missing values to fill".

Definition fill_pass (df : DataFrame) : DataFrame * list string :=
  (mkDataFrame (nrows df)
     (map (fun c => (fst c, fill_column (snd c))) (cols df)),
   flat_map fill_records (cols df)
   ++ (if total_missing df =? 0 then [no_fill_record] else [])).

(** 5. Outlier capping. *)
Definition fences (s : Series) : float * float :=
  let Q1 := quantile (1 # 4) s in
  let Q3 := quantile (3 # 4) s in
  let IQR := fsub Q3 Q1 in
  (fsub Q1 (fmul (Some (3 # 2)%Q) IQR), fadd Q3 (fmul (Some (3 # 2)%Q) IQR)).

Definition outliers (s : Series) : nat :=
  count_outside (fst (fences s)) (snd (fences s)) s.

Definition cap_column_clip (s : Series) : Series :=
  clip (fst (fences s)) (snd (fences s)) s.

Definition cap_column (s : Series) : Series :=
  if is_number (dtype_of s) && (0 <? outliers s)
  then cap_column_clip s
  else s.

Definition cap_records (c : string * Series) : list string :=
  if is_number (dtype_of (snd c)) && (0 <? outliers (snd c))
  then ["Capped " +++ Py.str_nat (outliers (snd c)) +++ " outliers in '"
        +++ fst c +++ "'"]
  else [].

Definition no_outlier_record : string :=
  "No outliers detected in numeric columns".

Definition cap_pass (df : DataFrame) : DataFrame * list string :=
  (mkDataFrame (nrows df)
     (map (fun c => (fst c, cap_column (snd c))) (cols df)),
   match flat_map cap_records (cols df) with
   | [] => [no_outlier_record]
   | rs => rs
   end).

Definition complete_record (raw out : DataFrame) : string :=
  "Cleaning complete: " +++ Py.repr_shape (shape raw) +++ " -> "
  +++ Py.repr_shape (shape out).

(** The stages in the order [clean_data] runs them. *)
Definition pipeline_with (norm : string -> string) (raw : DataFrame)
  : DataFrame * list string :=
  let d1 := rename_columns norm raw in
  let '(d2, log2) := drop_pass d1 in
  let '(d3, log3) := duplicates_pass d2 in
  let '(d4, log4) := fill_pass d3 in
  let '(d5, log5) := cap_pass d4 in
  (d5, [normalize_record raw] ++ log2 ++ log3 ++ log4 ++ log5
       ++ [complete_record raw d5]).

Definition pipeline (raw : DataFrame) : DataFrame * list string :=
  pipeline_with normalize_name raw.

End Stages.

(* ================================================================== *)
(** ** The analysis summary as a function of the frame

    [analyze_data_run] below shows that [analyze_data] returns [summary]
    on a frame with pairwise distinct labels. *)

Module Report.
Import Pd Pipeline.

Definition missing_entry (n : nat) (s : Series) : MissingEntry :=
  mkMissingEntry (null_count s)
    (fmul (true_divide (null_count s) n) (Some 100%Q)).

Definition numeric_entry (s : Series) : NumericEntry :=
  mkNumericEntry
    (round_or_zero 3 (mean s))
    (round_or_zero 3 (median s))
    (series_min s) (series_max s)
    (nunique s)
    (List.length (filter (Qeq_bool 0) (numbers s))).

Definition categorical_entry (s : Series) : CategoricalEntry :=
  mkCategoricalEntry
    (nunique s)
    (firstn 3 (value_counts s))
    (match mode s with v :: _ => v | [] => PStr "N/A" end).

Definition outlier_entry (n : nat) (s : Series) : OutlierEntry :=
  mkOutlierEntry (Stages.outliers s)
    (option_map (Py.round_to 2)
       (fmul (true_divide (Stages.outliers s) n) (Some 100%Q))).

Definition entries {V : Type} (g : Series -> V) (l : list (string * Series))
  : dict V :=
  map (fun c => (fst c, g (snd c))) l.

Definition numeric_part (data : DataFrame) : list (string * Series) :=
  filter (fun c => is_number (dtype_of (snd c))) (cols data).

Definition categorical_part (data : DataFrame) : list (string * Series) :=
  filter (fun c => is_object (dtype_of (snd c))) (cols data).

Definition summary (data : DataFrame) : Analysis :=
  mkAnalysis
    (mkBasicInfo (nrows data) (List.length (columns data))
       (List.length (select_dtypes is_number data))
       (List.length (select_dtypes is_object data))
       (total_missing data))
    (entries (missing_entry (nrows data)) (cols data))
    (entries (fun s => dtype_name (dtype_of s)) (cols data))
    (entries numeric_entry (numeric_part data))
    (entries categorical_entry (categorical_part data))
    (entries (outlier_entry (nrows data)) (numeric_part data)).

End Report.

(** The stages in the order the specification lists them: the cell
    imputation pass right after the column drop pass, then the duplicate
    eliminator. *)
Definition pipeline_as_specified (raw : Pd.DataFrame)
  : Pd.DataFrame * list string :=
  let d1 := Stages.normalize_columns raw in
  let '(d2, log2) := Stages.drop_pass d1 in
  let '(d3, log3) := Stages.fill_pass d2 in
  let '(d4, log4) := Stages.duplicates_pass d3 in
  let '(d5, log5) := Stages.cap_pass d4 in
  (d5, [Stages.normalize_record raw] ++ log2 ++ log3 ++ log4 ++ log5
       ++ [Stages.complete_record raw d5]).

(* ================================================================== *)
(** ** Vocabulary of the properties *)

(** [Subseq l1 l2]: [l1] is [l2] with some elements left out, the order of
    the others kept. *)
Inductive Subseq {A : Type} : list A -> list A -> Prop :=
| Subseq_nil : Subseq [] []
| Subseq_skip (x : A) (l1 l2 : list A) : Subseq l1 l2 -> Subseq l1 (x :: l2)
| Subseq_keep (x : A) (l1 l2 : list A) :
    Subseq l1 l2 -> Subseq (x :: l1) (x :: l2).

(** No two rows are cell-wise equal. *)
Definition distinct_rows (rs : list (list cell)) : Prop :=
  ForallOrdPairs (fun r1 r2 => Pd.row_eqb r1 r2 = false) rs.

(** A column holds at least one value. *)
Definition has_value (s : Pd.Series) : Prop := present (Pd.cells s) <> [].



(** How capping at the fences [lower] and [upper] relates a cell to the
    cell it becomes. *)
Definition capped_cell (lower upper : Q) (x y : option Q) : Prop :=
  match x, y with
  | None, None => True
  | Some a, Some b =>
      ((a < lower)%Q -> b = lower)
      /\ ((upper < a)%Q -> b = upper)
      /\ ((lower <= a <= upper)%Q -> b = a)
  | _, _ => False
  end.




(** Whether every character of a string satisfies [p]. *)
Fixpoint all_chars (p : ascii -> bool) (s : string) : bool :=
  match s with
  | EmptyString => true
  | String c s' => p c && all_chars p s'
  end.

(** The characters of a normalised label. *)
Definition label_char (c : ascii) : bool :=
  Py.is_word c && negb (Py.is_upper c).

(** A label of ASCII characters: on such a label [Py.strip] and [Py.lower]
    are Python's [str.strip] and [str.lower], so that [normalize_name] is
    the normalisation of step 1. *)
Definition ascii_label (s : string) : bool :=
  all_chars (fun c => nat_of_ascii c <? 128) s.

(* ================================================================== *)
(** ** Sample frames and columns *)

Import Pd Pipeline Stages Report.

(** A frame with missing cells in a numeric and in a text column. *)
Definition c2_frame : DataFrame :=
  mkDataFrame 3
    [("a", NumSeries float64 [Some 1%Q; None; Some 4%Q]);
     ("b", ObjSeries [None; Some (PStr "x"); None])].



(** Two rows and no column, as the drop pass leaves [c6_raw]. *)
Definition c6_frame : DataFrame := mkDataFrame 2 [].

Definition c6_raw : DataFrame :=
  mkDataFrame 2 [("a", NumSeries float64 [None; None])].

(** Four rows, the third equal to the first. *)
Definition c6_dups : DataFrame :=
  mkDataFrame 4
    [("k", ObjSeries [Some (PStr "a"); Some (PStr "b"); Some (PStr "a"); None]);
     ("v", NumSeries int64 [Some 1%Q; Some 2%Q; Some 1%Q; Some 1%Q])].

(** Two rows that differ only by a missing cell. *)
Definition c1_frame : DataFrame :=
  mkDataFrame 2
    [("Key", ObjSeries [Some (PStr "a"); Some (PStr "a")]);
     ("Val", ObjSeries [None; Some (PStr "x")])].

(** A numeric and a boolean column. *)
Definition c7_frame : DataFrame :=
  mkDataFrame 2
    [("n", NumSeries int64 [Some 1%Q; Some 2%Q]);
     ("flag", BoolSeries [true; false])].

(** Two labels with the same normalised form. *)
Definition c9_frame : DataFrame :=
  mkDataFrame 2
    [("a b", NumSeries int64 [Some 1%Q; Some 2%Q]);
     ("a_b", NumSeries int64 [Some 3%Q; Some 4%Q])].

(** The frame without rows and columns. *)
Definition empty_frame : DataFrame := mkDataFrame 0 [].

(** One row, one column, its only cell missing. *)
Definition c9_single : DataFrame :=
  mkDataFrame 1 [("Only Column", ObjSeries [None])].



(** A [float32] column with median 3 and most frequent value 1. *)
Definition c3_column : Series :=
  NumSeries float32 [Some 1%Q; Some 1%Q; Some 5%Q; Some 9%Q; None].

(** Two values present twice each, the greater one met first, and the
    same cells in another order. *)
Definition c10_column : Series :=
  ObjSeries [Some (PStr "b"); Some (PStr "a"); Some (PStr "b");
             Some (PStr "a"); None].

Definition c10_reordered : Series :=
  ObjSeries [None; Some (PStr "a"); Some (PStr "a"); Some (PStr "b");
             Some (PStr "b")].

(** A text and a number present once each, and the same cells with the
    number first. *)
Definition c10_mixed : Series :=
  ObjSeries [Some (PStr "a"); Some (PNum 1%Q); None].

Definition c10_mixed_reordered : Series :=
  ObjSeries [Some (PNum 1%Q); Some (PStr "a"); None].

(** A column whose capped form has an outlier again, and the frames of
    the first and of the second run. *)
Definition c8_frame : DataFrame :=
  mkDataFrame 4
    [("id", NumSeries int64 [Some 1%Q; Some 2%Q; Some 3%Q; Some 4%Q]);
     ("x", NumSeries float64 [Some 0%Q; Some 100%Q; Some 100%Q; Some 100%Q])].

Definition c8_once : DataFrame :=
  mkDataFrame 4
    [("id", NumSeries int64 [Some 1%Q; Some 2%Q; Some 3%Q; Some 4%Q]);
     ("x", NumSeries float64
             [Some (75 # 2)%Q; Some 100%Q; Some 100%Q; Some 100%Q])].

Definition c8_twice : DataFrame :=
  mkDataFrame 4
    [("id", NumSeries int64 [Some 1%Q; Some 2%Q; Some 3%Q; Some 4%Q]);
     ("x", NumSeries float64
             [Some (975 # 16)%Q; Some 100%Q; Some 100%Q; Some 100%Q])].

(** The cleaned form of [c1_frame]. *)
Definition c8_filled : DataFrame :=
  mkDataFrame 2
    [("key", ObjSeries [Some (PStr "a"); Some (PStr "a")]);
     ("val", ObjSeries [Some (PStr "x"); Some (PStr "x")])].

(* ================================================================== *)
(** ** Further sample frames *)

(** Three rows, the second a copy of the first, with a missing number and
    un-normalised labels. *)
Definition x_raw : DataFrame :=
  mkDataFrame 3
    [("Name ", ObjSeries [Some (PStr "ann"); Some (PStr "ann"); Some (PStr "bob")]);
     ("Age-Years", NumSeries float64 [Some 30%Q; Some 30%Q; None]);
     ("Member", BoolSeries [true; true; false])].



(** Cells with equal first and third quartile and one value above. *)
Definition x_flat : list (option Q) :=
  [Some 5%Q; Some 5%Q; Some 5%Q; Some 5%Q; Some 9%Q; None].

(* ================================================================== *)
(** ** The figures of the dashboard

    [create_html_dashboard] analyses the raw and the cleaned frame and
    derives three changes from the two analyses before it renders them; the
    comparison table shows a change as an improvement when it is not
    negative. *)

Definition rows_change (raw_analysis cleaned_analysis : Analysis) : Z :=
  (Z.of_nat (info_rows (basic_info cleaned_analysis))
   - Z.of_nat (info_rows (basic_info raw_analysis)))%Z.

Definition cols_change (raw_analysis cleaned_analysis : Analysis) : Z :=
  (Z.of_nat (info_columns (basic_info cleaned_analysis))
   - Z.of_nat (info_columns (basic_info raw_analysis)))%Z.

Definition missing_improvement (raw_analysis cleaned_analysis : Analysis) : Z :=
  (Z.of_nat (info_total_missing (basic_info raw_analysis))
   - Z.of_nat (info_total_missing (basic_info cleaned_analysis)))%Z.

(** ['improvement' if change >= 0 else 'degradation'] *)
Definition change_class (change : Z) : string :=
  if (0 <=? change)%Z then "improvement" else "degradation".

Record Figures : Type := mkFigures {
  fig_raw_analysis : Analysis;
  fig_cleaned_analysis : Analysis;
  fig_rows_change : Z;
  fig_cols_change : Z;
  fig_missing_improvement : Z
}.

(** The computations of [create_html_dashboard], its rendering left out. *)
Definition dashboard_figures : M Figures :=
  raw <- get_raw ;;
  raw_analysis <- analyze_data raw ;;
  cleaned <- get_cleaned ;;
  cleaned_analysis <- analyze_data cleaned ;;
  ret (mkFigures raw_analysis cleaned_analysis
         (rows_change raw_analysis cleaned_analysis)
         (cols_change raw_analysis cleaned_analysis)
         (missing_improvement raw_analysis cleaned_analysis)).

(* ================================================================== *)
(** ** Loading and running

    Paths are POSIX paths, read as [pathlib] reads them.  Reading a file and
    testing that it exists are left to the environment: [read] gives the
    frame a reader returns, or [None] when the reader raises, and
    [exists_file] is [os.path.exists].  Rendering the dashboard from the
    figures and writing the files are left to the environment as well.
    [norm] is the normalisation of a label that cleaning applies,
    [normalize_name] on ASCII labels. *)

(** [s.split(sep)] for a separator of one character. *)
Fixpoint split_on (sep : ascii) (s : string) : list string :=
  match s with
  | EmptyString => [""]
  | String a s' =>
      if Ascii.eqb a sep then "" :: split_on sep s'
      else match split_on sep s' with
           | p :: ps => String a p :: ps
           | [] => [String a ""]
           end
  end.

(** The components of a path below its root: empty components and "."
    are left out. *)
Definition parts (path : string) : list string :=
  filter (fun p => negb (String.eqb p "") && negb (String.eqb p "."))
         (split_on "/" path).

(** [Path(path).name]: the last component, or the empty string. *)
Definition file_name (path : string) : string := last (parts path) "".

(** [s.rfind(c)], [None] standing for -1. *)
Fixpoint rfind (c : ascii) (s : string) : option nat :=
  match s with
  | EmptyString => None
  | String a s' =>
      match rfind c s' with
      | Some i => Some (S i)
      | None => if Ascii.eqb a c then Some 0 else None
      end
  end.

(** [Path(path).suffix] from the name of the file: from the last dot on,
    unless that dot is the first or the last character. *)
Definition suffix (name : string) : string :=
  match rfind "." name with
  | Some i =>
      if (0 <? i) && (i <? String.length name - 1)
      then substring i (String.length name - i) name
      else ""
  | None => ""
  end.

(** [Path(path).stem] from the name of the file. *)
Definition stem (name : string) : string :=
  match rfind "." name with
  | Some i =>
      if (0 <? i) && (i <? String.length name - 1)
      then substring 0 i name
      else name
  | None => name
  end.

(** The readers [load_data] chooses from; [read_csv_tab] is [read_csv] with
    a tab as separator. *)
Inductive reader : Type :=
| read_csv
| read_excel
| read_json
| read_parquet
| read_csv_tab.

(** The dispatch of [load_data] on the lower-cased suffix; [None] is the
    unsupported format. *)
Definition reader_for (file_ext : string) : option reader :=
  if String.eqb file_ext ".csv" then Some read_csv
  else if String.eqb file_ext ".xlsx" || String.eqb file_ext ".xls"
  then Some read_excel
  else if String.eqb file_ext ".json" then Some read_json
  else if String.eqb file_ext ".parquet" then Some read_parquet
  else if String.eqb file_ext ".tsv" then Some read_csv_tab
  else None.



Section Run.
Variable read : reader -> string -> option DataFrame.
Variable exists_file : string -> bool.
Variable norm : string -> string.

(** [load_data]: the frame to store in [raw_data] when it returns [True],
    [None] when it returns [False]; every exception is caught. *)
Definition load_data (path : string) : option DataFrame :=
  match reader_for (Py.lower (suffix (file_name path))) with
  | Some r => read r path
  | None => None
  end.


End Run.

(* ================================================================== *)
(** ** Columns that hold infinities

    The frames above hold finite numbers.  The readers also produce the two
    infinities in a [float64] column; this section models step 4 of
    [clean_data] on the cells of such a column. *)

Module Extended.

(** A double that is not NaN. *)
Inductive xnum : Type :=
| Fin (q : Q)
| PInf
| NInf.

Definition xle (a b : xnum) : bool :=
  match a, b with
  | NInf, _ => true
  | _, PInf => true
  | Fin x, Fin y => Qle_bool x y
  | _, _ => false
  end.

(** The mean of two doubles; [None] is NaN, which the sum of the two
    infinities is. *)
Definition mean2 (a b : xnum) : option xnum :=
  match a, b with
  | Fin x, Fin y => Some (Fin (Qred ((x + y) / 2)%Q))
  | PInf, NInf | NInf, PInf => None
  | PInf, _ | _, PInf => Some PInf
  | NInf, _ | _, NInf => Some NInf
  end.

(** [s.median()] on the values present. *)
Definition median_of (xs : list xnum) : option xnum :=
  let s := isort xle xs in
  let n := List.length s in
  if n =? 0 then None
  else if Nat.odd n then Some (nth (n / 2) s (Fin 0))
  else mean2 (nth (n / 2 - 1) s (Fin 0)) (nth (n / 2) s (Fin 0)).

(** Step 4 on a [float64] column with the cells [xs]: when a cell is
    missing, [s.fillna(s.median(), inplace=True)], which leaves the column
    as it is when the median is NaN. *)
Definition fill_float64 (xs : list (option xnum)) : list (option xnum) :=
  if 0 <? List.length (filter is_none xs)
  then match median_of (present xs) with
       | Some m => fill m xs
       | None => xs
       end
  else xs.

(** The cells of a column of finite numbers. *)
Definition embed (xs : list (option Q)) : list (option xnum) :=
  map (option_map Fin) xs.

End Extended.

(* ================================================================== *)
(** ** The threshold test and the outlier capper in doubles

    [true_divide], [quantile] and [fences] above compute on exact
    rationals.  This section writes the same lines of [clean_data] with
    every operation rounded to a double, as the program does them: the
    ratio of step 2 is the quotient of two counts, compared with the double
    that [0.95] denotes; [Series.quantile] goes through numpy's
    [percentile], whose linear method takes the rank [(n - 1) * q], its
    floor and its fractional part, and interpolates with [_lerp]. *)

Module Double.

(** [isnull().sum() / len(df)] *)
Definition true_divide (a b : nat) : float :=
  if b =? 0 then None
  else Some (Py.round_double
               (inject_Z (Z.of_nat a) / inject_Z (Z.of_nat b))%Q).

(** The double that [0.95] denotes. *)
Definition missing_threshold : float := Some (Py.round_double (95 # 100)).

Definition add (x y : Q) : Q := Py.round_double (x + y).
Definition sub (x y : Q) : Q := Py.round_double (x - y).
Definition mul (x y : Q) : Q := Py.round_double (x * y).

(** numpy's [_lerp(a, b, t)]: [a + (b - a) * t], and
    [b - (b - a) * (1 - t)] where [t >= 0.5]. *)
Definition lerp (a b t : Q) : Q :=
  let diff_b_a := sub b a in
  if Qle_bool (1 # 2) t then sub b (mul diff_b_a (sub 1 t))
  else add a (mul diff_b_a t).

(** [np.percentile(values, 100 * q)] with the linear method, on the values
    present. *)
Definition quantile_of (q : Q) (xs : list Q) : option Q :=
  let s := sort_values xs in
  match List.length s with
  | 0 => None
  | S m =>
      let virtual_index := mul (inject_Z (Z.of_nat m)) (Py.round_double q) in
      let previous := Z.to_nat (Qfloor virtual_index) in
      let next := Nat.min (previous + 1) m in
      let gamma := sub virtual_index (inject_Z (Qfloor virtual_index)) in
      Some (lerp (nth previous s 0%Q) (nth next s 0%Q) gamma)
  end.

(** [s.quantile(q)] *)
Definition quantile (q : Q) (s : Series) : option Q :=
  match s with
  | NumSeries _ xs => quantile_of q (present xs)
  | _ => None
  end.

Definition fadd (a b : float) : float :=
  match a, b with Some x, Some y => Some (add x y) | _, _ => None end.

Definition fsub (a b : float) : float :=
  match a, b with Some x, Some y => Some (sub x y) | _, _ => None end.

Definition fmul (a b : float) : float :=
  match a, b with Some x, Some y => Some (mul x y) | _, _ => None end.

(** [Q1 - 1.5 * IQR] and [Q3 + 1.5 * IQR] *)
Definition fences (s : Series) : float * float :=
  let Q1 := quantile (1 # 4) s in
  let Q3 := quantile (3 # 4) s in
  let IQR := fsub Q3 Q1 in
  (fsub Q1 (fmul (Some (3 # 2)%Q) IQR), fadd Q3 (fmul (Some (3 # 2)%Q) IQR)).

(** [((s < lower_bound) | (s > upper_bound)).sum()] *)
Definition outliers (s : Series) : nat :=
  count_outside (fst (fences s)) (snd (fences s)) s.

(** One turn of the loop of step 5. *)
Definition cap_column (s : Series) : Series :=
  if is_number (dtype_of s) && (0 <? outliers s)
  then clip (fst (fences s)) (snd (fences s)) s
  else s.

End Double.

(* ================================================================== *)
(** * Properties *)

(* ================================================================== *)
(** ** Selecting and assigning a column by label *)

Section Labels.
Variables (pre post : list (string * Series)) (c : string * Series).
Hypothesis unique : NoDup (map fst (pre ++ c :: post)).

Lemma label_not_in_pre : forall x, In x pre -> String.eqb (fst x) (fst c) = false.
Proof.
  intros x Hx. apply String.eqb_neq. intro E.
  rewrite map_app in unique. simpl in unique.
  apply NoDup_remove_2 in unique. apply unique.
  apply in_or_app. left. rewrite <- E. now apply in_map.
Qed.

Lemma label_not_in_post : forall x, In x post -> String.eqb (fst x) (fst c) = false.
Proof.
  intros x Hx. apply String.eqb_neq. intro E.
  rewrite map_app in unique. simpl in unique.
  apply NoDup_remove_2 in unique. apply unique.
  apply in_or_app. right. rewrite <- E. now apply in_map.
Qed.

Lemma filter_none (l : list (string * Series)) :
  (forall x, In x l -> String.eqb (fst x) (fst c) = false) ->
  filter (fun x => String.eqb (fst x) (fst c)) l = [].
Proof.
  induction l as [|x l IH]; intros H; simpl; [reflexivity|].
  rewrite (H x (or_introl eq_refl)). apply IH. intros y Hy. apply H. now right.
Qed.

Lemma getitem_unique (n : nat) :
  getitem (mkDataFrame n (pre ++ c :: post)) (fst c) = Column (snd c).
Proof.
  unfold getitem. simpl. rewrite filter_app. simpl.
  rewrite String.eqb_refl.
  rewrite (filter_none pre label_not_in_pre).
  rewrite (filter_none post label_not_in_post). reflexivity.
Qed.

Lemma map_other (l : list (string * Series)) (s : Series) :
  (forall x, In x l -> String.eqb (fst x) (fst c) = false) ->
  map (fun x => if String.eqb (fst x) (fst c) then (fst c, s) else x) l = l.
Proof.
  induction l as [|x l IH]; intros H; simpl; [reflexivity|].
  rewrite (H x (or_introl eq_refl)). f_equal. apply IH.
  intros y Hy. apply H. now right.
Qed.

Lemma setitem_unique (n : nat) (s : Series) :
  setitem (fst c) s (mkDataFrame n (pre ++ c :: post))
  = mkDataFrame n (pre ++ (fst c, s) :: post).
Proof.
  unfold setitem, columns. simpl.
  assert (E : existsb (String.eqb (fst c)) (map fst (pre ++ c :: post)) = true).
  { apply existsb_exists. exists (fst c). split.
    - apply in_map, in_or_app. right. now left.
    - apply String.eqb_refl. }
  rewrite E. f_equal. rewrite map_app. simpl. rewrite String.eqb_refl.
  rewrite (map_other pre s label_not_in_pre).
  rewrite (map_other post s label_not_in_post). reflexivity.
Qed.
End Labels.

(* ================================================================== *)
(** ** Loops over the columns of the frame being cleaned *)

Section ColumnLoop.
Context {A : Type}.
Variables (raw : DataFrame) (n : nat).
Variable body : A -> string -> M A.
Variable p : string * Series -> bool.
Variable upd : A -> string * Series -> A.
Variable f : Series -> Series.
Variable recs : string * Series -> list string.

Hypothesis body_ok : forall pre c post acc log,
  NoDup (map fst (pre ++ c :: post)) -> p c = true ->
  body acc (fst c) (mkState raw (mkDataFrame n (pre ++ c :: post)) log)
  = Ok (upd acc c,
        mkState raw (mkDataFrame n (pre ++ (fst c, f (snd c)) :: post))
          (log ++ map (String.append bullet) (recs c))).
Hypothesis f_skip : forall c, p c = false -> f (snd c) = snd c.

Lemma for_each_columns : forall l pre acc log,
  NoDup (map fst (pre ++ l)) ->
  for_each (map fst (filter p l)) body acc
    (mkState raw (mkDataFrame n (pre ++ l)) log)
  = Ok (fold_left upd (filter p l) acc,
        mkState raw
          (mkDataFrame n (pre ++ map (fun c => (fst c, f (snd c))) l))
          (log ++ map (String.append bullet) (flat_map recs (filter p l)))).
Proof.
  induction l as [|c l IH]; intros pre acc log ND.
  - simpl. unfold ret. now rewrite !app_nil_r.
  - simpl. destruct (p c) eqn:Hp.
    + simpl. unfold bind at 1. rewrite (body_ok pre c l acc log ND Hp).
      replace (pre ++ (fst c, f (snd c)) :: l)
        with ((pre ++ [(fst c, f (snd c))]) ++ l)
        by (now rewrite <- app_assoc).
      rewrite IH.
      * rewrite <- !app_assoc. simpl. now rewrite map_app, app_assoc.
      * rewrite <- app_assoc. simpl.
        rewrite map_app in *. simpl in *. exact ND.
    + replace (pre ++ c :: l) with ((pre ++ [c]) ++ l)
        by (now rewrite <- app_assoc).
      rewrite IH.
      * rewrite <- !app_assoc. simpl. rewrite (f_skip c Hp).
        now destruct c.
      * now rewrite <- app_assoc.
Qed.
End ColumnLoop.

(* ================================================================== *)
(** ** [clean_data] computes the composition of the stages *)

Lemma filter_all {A : Type} (l : list A) : filter (fun _ => true) l = l.
Proof. induction l; simpl; congruence. Qed.

Lemma mark_sparse_column_ok (raw : DataFrame) (n : nat) :
  forall pre c post acc log,
    NoDup (map fst (pre ++ c :: post)) -> true = true ->
    mark_sparse_column acc (fst c)
      (mkState raw (mkDataFrame n (pre ++ c :: post)) log)
    = Ok ((if sparse n c then acc ++ [fst c] else acc),
          mkState raw (mkDataFrame n (pre ++ (fst c, snd c) :: post))
            (log ++ map (String.append bullet)
                      (if sparse n c then [drop_record n c] else []))).
Proof.
  intros pre c post acc log ND _.
  unfold mark_sparse_column, bind, get_cleaned, series_at. simpl.
  rewrite (getitem_unique pre post c ND n). unfold ret.
  unfold sparse, missing_pct, drop_record, missing_pct.
  destruct c as [name s]. simpl.
  destruct (fgt (true_divide (null_count s) n) missing_threshold); simpl.
  - reflexivity.
  - now rewrite app_nil_r.
Qed.

Lemma fill_missing_column_ok (raw : DataFrame) (n : nat) :
  forall pre c post acc log,
    NoDup (map fst (pre ++ c :: post)) -> true = true ->
    fill_missing_column acc (fst c)
      (mkState raw (mkDataFrame n (pre ++ c :: post)) log)
    = Ok (acc + null_count (snd c),
          mkState raw (mkDataFrame n (pre ++ (fst c, fill_column (snd c)) :: post))
            (log ++ map (String.append bullet) (fill_records c))).
Proof.
  intros pre c post acc log ND _.
  unfold fill_missing_column, bind, get_cleaned, series_at. simpl.
  rewrite (getitem_unique pre post c ND n). unfold ret.
  unfold fill_column, fill_records, fill_value.
  destruct c as [name s]. simpl.
  destruct (null_count s) as [|k] eqn:Hk; simpl.
  - now rewrite app_nil_r, Nat.add_0_r.
  - destruct (dtype_in_int64_float64 (dtype_of s)); simpl;
      unfold put_cleaned, log_action; simpl;
      rewrite (setitem_unique pre post (name, s) ND n); reflexivity.
Qed.

Lemma cap_outliers_column_eq (acc : nat) (col : string) :
  cap_outliers_column acc col
  = bind get_cleaned (fun df =>
      bind (series_at ValueError df col) (fun s =>
        if 0 <? outliers s then
          bind (put_cleaned (setitem col (cap_column_clip s) df)) (fun _ =>
            bind (log_action ("Capped " +++ Py.str_nat (outliers s)
                              +++ " outliers in '" +++ col +++ "'"))
              (fun _ => ret (acc + outliers s)))
        else ret acc)).
Proof. reflexivity. Qed.

Lemma cap_outliers_column_ok (raw : DataFrame) (n : nat) :
  forall pre c post acc log,
    NoDup (map fst (pre ++ c :: post)) ->
    is_number (dtype_of (snd c)) = true ->
    cap_outliers_column acc (fst c)
      (mkState raw (mkDataFrame n (pre ++ c :: post)) log)
    = Ok (acc + outliers (snd c),
          mkState raw (mkDataFrame n (pre ++ (fst c, cap_column (snd c)) :: post))
            (log ++ map (String.append bullet) (cap_records c))).
Proof.
  intros pre c post acc log ND Hnum.
  rewrite cap_outliers_column_eq.
  unfold bind, get_cleaned, series_at. cbn [cleaned_data].
  rewrite (getitem_unique pre post c ND n). unfold ret.
  unfold cap_column, cap_records. rewrite Hnum. cbn [andb].
  destruct (0 <? outliers (snd c)) eqn:Hk.
  - unfold put_cleaned, log_action. cbn [cleaned_data raw_data cleaning_log].
    rewrite (setitem_unique pre post c ND n). reflexivity.
  - apply Nat.ltb_ge in Hk. replace (outliers (snd c)) with 0 by lia.
    cbn [map]. rewrite app_nil_r, Nat.add_0_r. now destruct c.
Qed.

Lemma same_columns (l : list (string * Series)) :
  map (fun c : string * Series => (fst c, snd c)) l = l.
Proof. induction l as [|[a b] l IH]; simpl; congruence. Qed.

Lemma fold_mark (n : nat) (l : list (string * Series)) : forall acc,
  fold_left (fun acc c => if sparse n c then acc ++ [fst c] else acc) l acc
  = acc ++ map fst (filter (sparse n) l).
Proof.
  induction l as [|c l IH]; intros acc; simpl.
  - now rewrite app_nil_r.
  - rewrite IH. destruct (sparse n c); simpl; [|reflexivity].
    now rewrite <- app_assoc.
Qed.

Lemma flat_map_mark (n : nat) (l : list (string * Series)) :
  flat_map (fun c => if sparse n c then [drop_record n c] else []) l
  = map (drop_record n) (filter (sparse n) l).
Proof.
  induction l as [|c l IH]; simpl; [reflexivity|].
  rewrite IH. now destruct (sparse n c).
Qed.

Lemma fold_null_count (l : list (string * Series)) : forall acc,
  fold_left (fun acc c => acc + null_count (snd c)) l acc
  = acc + fold_right (fun c a => null_count (snd c) + a) 0 l.
Proof.
  induction l as [|c l IH]; intros acc; simpl; [lia|]. rewrite IH. lia.
Qed.

Lemma fold_add_ge (g : string * Series -> nat) (l : list (string * Series)) :
  forall a, a <= fold_left (fun acc c => acc + g c) l a.
Proof.
  induction l as [|x l IH]; intros a; simpl; [lia|].
  specialize (IH (a + g x)). lia.
Qed.

Lemma fold_outliers (l : list (string * Series)) : forall acc,
  fold_left (fun acc c => acc + outliers (snd c)) l acc = 0 ->
  flat_map cap_records l = [].
Proof.
  induction l as [|c l IH]; intros acc H; simpl in *; [reflexivity|].
  pose proof (fold_add_ge (fun c => outliers (snd c)) l
                (acc + outliers (snd c))) as G.
  rewrite (IH _ H), app_nil_r. unfold cap_records.
  replace (outliers (snd c)) with 0 by lia. simpl. now rewrite andb_false_r.
Qed.

Lemma fold_outliers_pos (l : list (string * Series)) : forall acc,
  fold_left (fun acc c => acc + outliers (snd c))
    (filter (fun c => is_number (dtype_of (snd c))) l) acc <> 0 ->
  acc <> 0 \/ flat_map cap_records l <> [].
Proof.
  induction l as [|c l IH]; intros acc H; simpl in *; [now left|].
  unfold cap_records at 1.
  destruct (is_number (dtype_of (snd c))) eqn:Hn; simpl in *.
  - destruct (IH _ H) as [G|G].
    + destruct (outliers (snd c)) eqn:Ho; simpl.
      * left. lia.
      * right. discriminate.
    + destruct (0 <? outliers (snd c)); simpl; [right; discriminate|now right].
  - destruct (IH _ H); [now left|now right].
Qed.

Lemma cap_skip (c : string * Series) :
  is_number (dtype_of (snd c)) = false -> cap_column (snd c) = snd c.
Proof. intros H. unfold cap_column. now rewrite H. Qed.

Lemma flat_map_numeric (l : list (string * Series)) :
  flat_map cap_records (filter (fun c => is_number (dtype_of (snd c))) l)
  = flat_map cap_records l.
Proof.
  induction l as [|c l IH]; simpl; [reflexivity|].
  destruct (is_number (dtype_of (snd c))) eqn:Hn; simpl; rewrite IH.
  - reflexivity.
  - unfold cap_records. now rewrite Hn.
Qed.

Lemma columns_rename (norm : string -> string) (df : DataFrame) :
  columns (rename_columns norm df) = map norm (columns df).
Proof.
  unfold rename_columns, set_columns, columns. simpl.
  rewrite map_map. induction (cols df) as [|c l IH]; simpl; congruence.
Qed.

Lemma columns_normalize (df : DataFrame) :
  columns (normalize_columns df) = map normalize_name (columns df).
Proof. apply columns_rename. Qed.

Lemma drop_loop (raw df : DataFrame) (log : list string) :
  NoDup (columns df) ->
  for_each (columns df) mark_sparse_column [] (mkState raw df log)
  = Ok (map fst (filter (sparse (nrows df)) (cols df)),
        mkState raw df
          (log ++ map (String.append bullet)
                    (map (drop_record (nrows df))
                         (filter (sparse (nrows df)) (cols df))))).
Proof.
  intros ND. destruct df as [n l]. unfold columns in *. simpl in *.
  pose proof (for_each_columns raw n mark_sparse_column (fun _ => true)
                (fun acc c => if sparse n c then acc ++ [fst c] else acc)
                (fun s => s)
                (fun c => if sparse n c then [drop_record n c] else [])
                (mark_sparse_column_ok raw n) (fun c _ => eq_refl)
                l [] [] log ND) as E.
  rewrite filter_all in E. simpl in E. rewrite E. clear E.
  now rewrite same_columns, fold_mark, flat_map_mark.
Qed.

Lemma fill_loop (raw df : DataFrame) (log : list string) :
  NoDup (columns df) ->
  for_each (columns df) fill_missing_column 0 (mkState raw df log)
  = Ok (total_missing df,
        mkState raw
          (mkDataFrame (nrows df)
             (map (fun c => (fst c, fill_column (snd c))) (cols df)))
          (log ++ map (String.append bullet) (flat_map fill_records (cols df)))).
Proof.
  intros ND. destruct df as [n l]. unfold columns in *. simpl in *.
  pose proof (for_each_columns raw n fill_missing_column (fun _ => true)
                (fun acc c => acc + null_count (snd c))
                fill_column fill_records
                (fill_missing_column_ok raw n)
                (fun c (H : true = false) =>
                   False_ind _ (Bool.diff_true_false H))
                l [] 0 log ND) as E.
  rewrite filter_all in E. simpl in E. rewrite E. clear E.
  now rewrite fold_null_count.
Qed.

Lemma cap_loop (raw df : DataFrame) (log : list string) :
  NoDup (columns df) ->
  exists total,
    for_each (select_dtypes is_number df) cap_outliers_column 0
      (mkState raw df log)
    = Ok (total,
          mkState raw
            (mkDataFrame (nrows df)
               (map (fun c => (fst c, cap_column (snd c))) (cols df)))
            (log ++ map (String.append bullet) (flat_map cap_records (cols df))))
    /\ (total = 0 <-> flat_map cap_records (cols df) = []).
Proof.
  intros ND. destruct df as [n l]. unfold columns, select_dtypes in *.
  simpl in *.
  pose proof (for_each_columns raw n cap_outliers_column
                (fun c => is_number (dtype_of (snd c)))
                (fun acc c => acc + outliers (snd c))
                cap_column cap_records
                (cap_outliers_column_ok raw n) cap_skip
                l [] 0 log ND) as E.
  simpl in E. rewrite flat_map_numeric in E.
  eexists. split; [exact E|]. split.
  - intros H. apply fold_outliers in H. now rewrite flat_map_numeric in H.
  - intros H.
    destruct (Nat.eq_dec
                (fold_left (fun acc c => acc + outliers (snd c))
                   (filter (fun c => is_number (dtype_of (snd c))) l) 0) 0)
      as [Z|NZ]; [exact Z|].
    destruct (fold_outliers_pos l 0 NZ) as [G|G]; [now elim G|now elim G].
Qed.

Lemma columns_drop_pass (df : DataFrame) :
  NoDup (columns df) -> NoDup (columns (fst (drop_pass df))).
Proof.
  intros ND. unfold drop_pass.
  destruct (filter (sparse (nrows df)) (cols df)); [exact ND|].
  unfold drop, columns in *. simpl.
  set (keep := fun c : string * Series => _).
  clearbody keep. revert ND. induction (cols df) as [|c l0 IH]; simpl; intros ND.
  - constructor.
  - inversion ND as [|? ? Hn Hl]; subst. destruct (keep c); simpl.
    + constructor; [|now apply IH]. intro Hin. apply Hn.
      apply in_map_iff in Hin. destruct Hin as [x [Hx1 Hx2]].
      apply filter_In in Hx2. apply in_map_iff. exists x. tauto.
    + now apply IH.
Qed.

Lemma columns_drop_duplicates (df : DataFrame) :
  columns (drop_duplicates df) = columns df.
Proof.
  unfold drop_duplicates. destruct (empty df); [reflexivity|].
  unfold columns. simpl. rewrite map_map. reflexivity.
Qed.

Lemma columns_fill_pass (df : DataFrame) :
  columns (fst (fill_pass df)) = columns df.
Proof. unfold fill_pass, columns. simpl. now rewrite map_map. Qed.

Lemma columns_cap_pass (df : DataFrame) :
  columns (fst (cap_pass df)) = columns df.
Proof. unfold cap_pass, columns. simpl. now rewrite map_map. Qed.

Lemma map_bullet_app (l1 l2 : list string) :
  map (String.append bullet) (l1 ++ l2)
  = map (String.append bullet) l1 ++ map (String.append bullet) l2.
Proof. apply map_app. Qed.

Lemma bind_runs {A B : Type} (m : M A) (k : A -> M B) (st st1 : State)
  (a : A) (r : result (B * State)) :
  m st = Ok (a, st1) -> k a st1 = r -> bind m k st = r.
Proof. intros H1 H2. unfold bind. now rewrite H1. Qed.

Ltac fold_normalize :=
  repeat match goal with
         | |- context [rename_columns normalize_name ?x] =>
             change (rename_columns normalize_name x) with (normalize_columns x)
         end.

Ltac run_step :=
  eapply bind_runs; [reflexivity|];
  cbn [raw_data cleaned_data cleaning_log].

(** The run of [clean_data] on a loaded frame whose normalised labels are
    pairwise distinct, whatever the normalisation of a label: it ends
    normally, leaves the raw frame as it was, and the cleaned frame and the
    log are those of the stages. *)
Lemma clean_data_with_run (norm : string -> string) (raw : DataFrame) :
  NoDup (map norm (columns raw)) ->
  clean_data_with norm (loaded raw)
  = Ok (tt, mkState raw (fst (pipeline_with norm raw))
              (map (String.append bullet) (snd (pipeline_with norm raw)))).
Proof.
  intros ND. rewrite <- columns_rename in ND.
  pose proof (columns_drop_pass _ ND) as ND2.
  unfold clean_data_with, loaded. do 6 run_step.
  fold (rename_columns norm raw).
  eapply bind_runs; [apply (drop_loop raw _ _ ND)|].
  unfold pipeline_with.
  assert (Hdrop :
    (match map fst (filter (sparse (nrows (rename_columns norm raw)))
                      (cols (rename_columns norm raw))) with
     | [] => log_action no_drop_record
     | _ :: _ => bind get_cleaned (fun d =>
         put_cleaned
           (drop (map fst (filter (sparse (nrows (rename_columns norm raw)))
                             (cols (rename_columns norm raw)))) d))
     end)
      (mkState raw (rename_columns norm raw)
         (([] ++ [bullet +++ normalize_record raw])
          ++ map (String.append bullet)
               (map (drop_record (nrows (rename_columns norm raw)))
                  (filter (sparse (nrows (rename_columns norm raw)))
                     (cols (rename_columns norm raw))))))
    = Ok (tt, mkState raw (fst (drop_pass (rename_columns norm raw)))
                (map (String.append bullet)
                   ([normalize_record raw]
                    ++ snd (drop_pass (rename_columns norm raw)))))).
  { unfold drop_pass.
    destruct (filter (sparse (nrows (rename_columns norm raw)))
                (cols (rename_columns norm raw))) as [|m ms]; simpl.
    - reflexivity.
    - reflexivity. }
  eapply bind_runs; [exact Hdrop|]. clear Hdrop.
  destruct (drop_pass (rename_columns norm raw)) as [d2 log2].
  cbn [fst snd] in *.
  do 3 run_step.
  assert (Hdup : forall st,
    (if 0 <? nrows d2 - nrows (drop_duplicates d2)
     then log_action ("Removed "
                      +++ Py.str_nat (nrows d2 - nrows (drop_duplicates d2))
                      +++ " duplicate rows")
     else log_action "No duplicate rows found") st
    = log_action (duplicates_record (nrows d2) (nrows (drop_duplicates d2))) st).
  { intros st. unfold duplicates_record.
    now destruct (0 <? nrows d2 - nrows (drop_duplicates d2)). }
  eapply bind_runs; [rewrite Hdup; reflexivity|]. clear Hdup.
  cbn [raw_data cleaned_data cleaning_log].
  run_step.
  assert (ND3 : NoDup (columns (drop_duplicates d2)))
    by (now rewrite columns_drop_duplicates).
  eapply bind_runs; [apply (fill_loop raw _ _ ND3)|].
  unfold duplicates_pass.
  set (d3 := drop_duplicates d2) in *.
  assert (ND4 : NoDup (columns (fst (fill_pass d3))))
    by (now rewrite columns_fill_pass).
  eapply bind_runs with
    (st1 := mkState raw (fst (fill_pass d3))
              (map (String.append bullet)
                 ([normalize_record raw] ++ log2
                  ++ [duplicates_record (nrows d2) (nrows d3)]
                  ++ snd (fill_pass d3)))) (a := tt).
  { unfold fill_pass. cbn [fst snd].
    destruct (total_missing d3 =? 0); unfold log_action, ret;
      cbn [raw_data cleaned_data cleaning_log];
      rewrite ?map_app, <- ?app_assoc; cbn [map app];
      rewrite ?app_nil_r; reflexivity. }
  destruct (fill_pass d3) as [d4 log4]. cbn [fst snd] in *.
  run_step.
  destruct (cap_loop raw d4
              (map (String.append bullet)
                 ([normalize_record raw] ++ log2
                  ++ [duplicates_record (nrows d2) (nrows d3)] ++ log4)) ND4)
    as [total [Hloop Htotal]].
  eapply bind_runs; [exact Hloop|].
  eapply bind_runs with
    (st1 := mkState raw (fst (cap_pass d4))
              (map (String.append bullet)
                 ([normalize_record raw] ++ log2
                  ++ [duplicates_record (nrows d2) (nrows d3)] ++ log4
                  ++ snd (cap_pass d4)))) (a := tt).
  { unfold cap_pass. cbn [fst snd].
    destruct (total =? 0) eqn:Ht.
    - apply Nat.eqb_eq in Ht. apply Htotal in Ht. rewrite Ht.
      unfold log_action. cbn [raw_data cleaned_data cleaning_log].
      rewrite ?map_app, <- ?app_assoc. cbn [map app].
      rewrite ?app_nil_r. reflexivity.
    - apply Nat.eqb_neq in Ht.
      destruct (flat_map cap_records (cols d4)) as [|r rs] eqn:Hr.
      + elim Ht. now apply Htotal.
      + unfold ret. rewrite ?map_app, <- ?app_assoc. reflexivity. }
  destruct (cap_pass d4) as [d5 log5]. cbn [fst snd] in *.
  run_step. unfold log_action. cbn [raw_data cleaned_data cleaning_log].
  unfold complete_record.
  rewrite ?map_app, <- ?app_assoc. reflexivity.
Qed.

Lemma clean_data_run (raw : DataFrame) :
  NoDup (map normalize_name (columns raw)) ->
  clean_data (loaded raw)
  = Ok (tt, mkState raw (fst (pipeline raw))
              (map (String.append bullet) (snd (pipeline raw)))).
Proof. apply clean_data_with_run. Qed.

(* ================================================================== *)
(** ** Equality of values, cells and rows *)

Lemma Qeq_bool_sym (x y : Q) : Qeq_bool x y = Qeq_bool y x.
Proof.
  destruct (Qeq_bool x y) eqn:E; symmetry.
  - apply Qeq_bool_iff. symmetry. now apply Qeq_bool_iff.
  - destruct (Qeq_bool y x) eqn:E'; [|reflexivity].
    apply Qeq_bool_iff in E'. symmetry in E'. apply Qeq_bool_iff in E'.
    congruence.
Qed.

Lemma Qeq_bool_trans (x y z : Q) :
  Qeq_bool x y = true -> Qeq_bool y z = true -> Qeq_bool x z = true.
Proof.
  rewrite !Qeq_bool_iff. intros H1 H2. now rewrite H1.
Qed.

Lemma py_eqb_refl (a : pyobj) : py_eqb a a = true.
Proof.
  destruct a as [s|q|b]; simpl.
  - apply String.eqb_refl.
  - apply Qeq_bool_iff. reflexivity.
  - now destruct b.
Qed.

Lemma py_eqb_sym (a b : pyobj) : py_eqb a b = py_eqb b a.
Proof.
  destruct a as [s|q|x], b as [t|r|y]; simpl; try reflexivity.
  - apply String.eqb_sym.
  - apply Qeq_bool_sym.
  - apply Qeq_bool_sym.
  - apply Qeq_bool_sym.
  - apply Qeq_bool_sym.
Qed.

Lemma py_eqb_trans (a b c : pyobj) :
  py_eqb a b = true -> py_eqb b c = true -> py_eqb a c = true.
Proof.
  destruct a as [s|q|x], b as [t|r|y], c as [u|p|z]; simpl;
    try discriminate; try (apply Qeq_bool_trans).
  rewrite !String.eqb_eq. congruence.
Qed.

Lemma cell_eqb_refl (a : cell) : cell_eqb a a = true.
Proof. destruct a; simpl; [apply py_eqb_refl|reflexivity]. Qed.

Lemma cell_eqb_sym (a b : cell) : cell_eqb a b = cell_eqb b a.
Proof. destruct a, b; simpl; try reflexivity. apply py_eqb_sym. Qed.

Lemma cell_eqb_trans (a b c : cell) :
  cell_eqb a b = true -> cell_eqb b c = true -> cell_eqb a c = true.
Proof.
  destruct a, b, c; simpl; try discriminate; try reflexivity.
  apply py_eqb_trans.
Qed.

Lemma row_eqb_refl (r : list cell) : row_eqb r r = true.
Proof.
  induction r as [|a r IH]; simpl; [reflexivity|].
  now rewrite cell_eqb_refl, IH.
Qed.

Lemma row_eqb_sym (r1 : list cell) : forall r2, row_eqb r1 r2 = row_eqb r2 r1.
Proof.
  induction r1 as [|a r1 IH]; intros [|b r2]; simpl; try reflexivity.
  now rewrite cell_eqb_sym, IH.
Qed.

Lemma row_eqb_trans (r1 : list cell) : forall r2 r3,
  row_eqb r1 r2 = true -> row_eqb r2 r3 = true -> row_eqb r1 r3 = true.
Proof.
  induction r1 as [|a r1 IH]; intros [|b r2] [|c r3]; simpl;
    try discriminate; try reflexivity.
  rewrite !andb_true_iff. intros [H1 H2] [H3 H4]. split.
  - eapply cell_eqb_trans; eassumption.
  - eapply IH; eassumption.
Qed.

(** Equal rows agree on which cells are missing. *)
Lemma row_eqb_nth (r1 : list cell) : forall r2 j,
  row_eqb r1 r2 = true -> cell_eqb (nth j r1 None) (nth j r2 None) = true.
Proof.
  induction r1 as [|a r1 IH]; intros [|b r2] j; simpl; try discriminate.
  - now destruct j.
  - rewrite andb_true_iff. intros [H1 H2]. destruct j; [exact H1|].
    now apply IH.
Qed.

(* ================================================================== *)
(** ** Boolean indexing *)

Lemma mask_filter_map {A B : Type} (f : A -> B) (m : list bool) :
  forall l, mask_filter m (map f l) = map f (mask_filter m l).
Proof.
  induction m as [|b m IH]; intros [|x l]; simpl; try reflexivity.
  destruct b; simpl; now rewrite IH.
Qed.

Lemma mask_filter_length {A : Type} (m : list bool) : forall l : list A,
  List.length m = List.length l ->
  List.length (mask_filter m l) = List.length (filter (fun b => b) m).
Proof.
  induction m as [|b m IH]; intros [|x l] H; simpl in *; try reflexivity;
    try discriminate.
  destruct b; simpl; rewrite IH; auto.
Qed.

Lemma mask_filter_zip_cons {A : Type} (m : list bool) :
  forall (c : list A) rs,
    List.length c = List.length rs ->
    mask_filter m (zip_cons c rs) = zip_cons (mask_filter m c) (mask_filter m rs).
Proof.
  induction m as [|b m IH]; intros [|x c] [|r rs] H; simpl in *;
    try reflexivity; try discriminate.
  destruct b; simpl; rewrite IH; auto.
Qed.

Lemma mask_filter_repeat {A : Type} (x : A) (m : list bool) :
  mask_filter m (repeat x (List.length m))
  = repeat x (List.length (filter (fun b => b) m)).
Proof.
  induction m as [|b m IH]; simpl; [reflexivity|].
  destruct b; simpl; now rewrite IH.
Qed.

Lemma mask_filter_In {A : Type} (m : list bool) : forall (l : list A) x,
  In x (mask_filter m l) -> In x l.
Proof.
  induction m as [|b m IH]; intros [|y l] x; simpl; try tauto.
  destruct b; simpl; intros H.
  - destruct H; [now left|right; now apply IH].
  - right. now apply IH.
Qed.

Lemma cells_take (m : list bool) (s : Series) :
  cells (take m s) = mask_filter m (cells s).
Proof. destruct s; simpl; now rewrite ?mask_filter_map. Qed.

(* ================================================================== *)
(** ** Rows and columns *)

Lemma zip_cons_length {A : Type} (c : list A) : forall rs,
  List.length c = List.length rs ->
  List.length (zip_cons c rs) = List.length rs.
Proof.
  induction c as [|x c IH]; intros [|r rs] H; simpl in *; try reflexivity;
    try discriminate.
  rewrite IH; auto.
Qed.

Lemma rows_of_length (n : nat) (cs : list (list cell)) :
  Forall (fun c => List.length c = n) cs ->
  List.length (rows_of n cs) = n.
Proof.
  induction cs as [|c cs IH]; intros H; simpl.
  - apply repeat_length.
  - inversion H; subst. rewrite zip_cons_length; rewrite IH; auto.
Qed.

Lemma rows_of_mask (m : list bool) (cs : list (list cell)) :
  Forall (fun c => List.length c = List.length m) cs ->
  rows_of (List.length (filter (fun b => b) m)) (map (mask_filter m) cs)
  = mask_filter m (rows_of (List.length m) cs).
Proof.
  induction cs as [|c cs IH]; intros H; simpl.
  - now rewrite mask_filter_repeat.
  - inversion H as [|? ? Hc Hcs]; subst. rewrite IH by assumption.
    rewrite mask_filter_zip_cons; [reflexivity|].
    now rewrite rows_of_length.
Qed.

Lemma wf_cells (df : DataFrame) :
  wf df -> Forall (fun c => List.length c = nrows df)
             (map (fun c => cells (snd c)) (cols df)).
Proof.
  unfold wf, len_series. intros H. apply Forall_map.
  eapply Forall_impl; [|exact H]. auto.
Qed.

Lemma rows_length (df : DataFrame) : wf df -> List.length (rows df) = nrows df.
Proof. intros H. apply rows_of_length. now apply wf_cells. Qed.

(** A column is the projection of the rows on its position. *)
Lemma column_of_rows (n : nat) (cs : list (list cell)) :
  Forall (fun c => List.length c = n) cs ->
  forall j, j < List.length cs ->
    nth j cs [] = map (fun r => nth j r None) (rows_of n cs).
Proof.
  induction cs as [|c cs IH]; intros H j Hj; simpl in *; [lia|].
  inversion H as [|? ? Hc Hcs]; subst.
  pose proof (rows_of_length _ _ Hcs) as Hl.
  destruct j as [|j].
  - clear IH H Hj Hcs. revert Hl. generalize (rows_of (List.length c) cs).
    induction c as [|x c IHc]; intros [|r rs] Hl; simpl in *;
      try reflexivity; try discriminate.
    f_equal. apply IHc. lia.
  - rewrite (IH Hcs j) by lia. clear IH H Hj Hcs. revert Hl.
    generalize (rows_of (List.length c) cs).
    induction c as [|x c IHc]; intros [|r rs] Hl; simpl in *;
      try reflexivity; try discriminate.
    f_equal. apply IHc. lia.
Qed.

(* ================================================================== *)
(** ** First occurrences *)

Section Nub.
Context {A : Type}.
Variable eqb : A -> A -> bool.
Hypothesis eqb_refl : forall x, eqb x x = true.
Hypothesis eqb_sym : forall x y, eqb x y = eqb y x.
Hypothesis eqb_trans : forall x y z,
  eqb x y = true -> eqb y z = true -> eqb x z = true.

Lemma nub_from_subseq (l : list A) : forall seen, Subseq (nub_from eqb seen l) l.
Proof.
  induction l as [|x l IH]; intros seen; simpl; [constructor|].
  destruct (existsb (eqb x) seen); constructor; apply IH.
Qed.

Lemma nub_from_In (l : list A) : forall seen x,
  In x (nub_from eqb seen l) -> In x l.
Proof.
  induction l as [|y l IH]; intros seen x; simpl; [tauto|].
  destruct (existsb (eqb y) seen); simpl; intros H.
  - right. eapply IH; eassumption.
  - destruct H; [now left|right; eapply IH; eassumption].
Qed.

(** A kept element differs from everything met before it. *)
Lemma nub_from_fresh (l : list A) : forall seen x y,
  In x (nub_from eqb seen l) -> In y seen -> eqb x y = false.
Proof.
  induction l as [|z l IH]; intros seen x y; simpl; [tauto|].
  destruct (existsb (eqb z) seen) eqn:E; simpl; intros Hx Hy.
  - eapply IH; [eassumption|now right].
  - destruct Hx as [->|Hx].
    + destruct (eqb x y) eqn:Exy; [|reflexivity].
      assert (existsb (eqb x) seen = true)
        by (apply existsb_exists; eauto).
      congruence.
    + eapply IH; [eassumption|now right].
Qed.

Lemma nub_from_distinct (l : list A) : forall seen,
  ForallOrdPairs (fun a b => eqb a b = false) (nub_from eqb seen l).
Proof.
  induction l as [|x l IH]; intros seen; simpl; [constructor|].
  destruct (existsb (eqb x) seen); [apply IH|].
  constructor; [|apply IH].
  apply Forall_forall. intros y Hy. rewrite eqb_sym.
  eapply nub_from_fresh; [eassumption|now left].
Qed.

(** Every element has an equal one among those met before or kept. *)
Lemma nub_from_complete (l : list A) : forall seen kept,
  (forall y, In y seen -> exists z, In z kept /\ eqb y z = true) ->
  forall x, In x l ->
    exists z, In z (kept ++ nub_from eqb seen l) /\ eqb x z = true.
Proof.
  induction l as [|y l IH]; intros seen kept Hseen x Hx; simpl in *; [tauto|].
  destruct (existsb (eqb y) seen) eqn:E.
  - assert (Hseen' : forall w, In w (y :: seen) ->
              exists z, In z kept /\ eqb w z = true).
    { intros w [<-|Hw]; [|now apply Hseen].
      apply existsb_exists in E. destruct E as [v [Hv Ev]].
      destruct (Hseen v Hv) as [z [Hz Ez]]. exists z. split; [exact Hz|].
      eapply eqb_trans; eassumption. }
    destruct Hx as [<-|Hx].
    + destruct (Hseen' y (or_introl eq_refl)) as [z [Hz Ez]].
      exists z. split; [apply in_or_app; now left|exact Ez].
    + now apply (IH (y :: seen) kept Hseen').
  - assert (Hseen' : forall w, In w (y :: seen) ->
              exists z, In z (kept ++ [y]) /\ eqb w z = true).
    { intros w [<-|Hw].
      - exists y. split; [apply in_or_app; right; now left|apply eqb_refl].
      - destruct (Hseen w Hw) as [z [Hz Ez]]. exists z.
        split; [apply in_or_app; now left|exact Ez]. }
    destruct Hx as [<-|Hx].
    + exists y. split; [apply in_or_app; right; now left|apply eqb_refl].
    + destruct (IH (y :: seen) (kept ++ [y]) Hseen' x Hx) as [z [Hz Ez]].
      exists z. split; [|exact Ez]. now rewrite <- app_assoc in Hz.
Qed.

Lemma nub_complete (l : list A) (x : A) :
  In x l -> exists z, In z (nub eqb l) /\ eqb x z = true.
Proof.
  intros Hx.
  apply (nub_from_complete l [] [] (fun y (H : In y []) => False_ind _ H) x Hx).
Qed.
End Nub.

(* ================================================================== *)
(** ** Duplicate removal *)

Lemma duplicated_from_length (rs : list (list cell)) : forall seen,
  List.length (duplicated_from seen rs) = List.length rs.
Proof. induction rs as [|r rs IH]; intros seen; simpl; congruence. Qed.

Lemma keep_mask_nub (rs : list (list cell)) : forall seen,
  mask_filter (map negb (duplicated_from seen rs)) rs = nub_from row_eqb seen rs.
Proof.
  induction rs as [|r rs IH]; intros seen; simpl; [reflexivity|].
  destruct (existsb (row_eqb r) seen); simpl; now rewrite IH.
Qed.

(** The rows of the frame without duplicates are the first occurrences of
    the rows of the frame. *)
Lemma rows_drop_duplicates (df : DataFrame) :
  wf df -> empty df = false ->
  rows (drop_duplicates df) = nub row_eqb (rows df).
Proof.
  intros Hwf He. unfold drop_duplicates. rewrite He. unfold rows at 1.
  cbn [nrows cols]. rewrite map_map. cbn [snd].
  set (keep := map negb (duplicated df)).
  assert (Hlen : List.length keep = nrows df).
  { unfold keep, duplicated. rewrite length_map, duplicated_from_length.
    now apply rows_length. }
  replace (map (fun x => cells (take keep (snd x))) (cols df))
    with (map (mask_filter keep) (map (fun c => cells (snd c)) (cols df))).
  - rewrite rows_of_mask.
    + rewrite Hlen. fold (rows df). unfold keep, duplicated.
      apply keep_mask_nub.
    + rewrite Hlen. now apply wf_cells.
  - rewrite map_map. apply map_ext. intros c. now rewrite cells_take.
Qed.

Lemma wf_drop_duplicates (df : DataFrame) : wf df -> wf (drop_duplicates df).
Proof.
  intros Hwf. unfold drop_duplicates. destruct (empty df); [exact Hwf|].
  unfold wf in *. cbn [nrows cols]. apply Forall_map. cbn [snd].
  eapply Forall_impl; [|exact Hwf]. intros c Hc. unfold len_series in *.
  rewrite cells_take. apply mask_filter_length.
  unfold duplicated. rewrite length_map, duplicated_from_length, Hc.
  now apply rows_length.
Qed.

(** Removing duplicate rows leaves a value in every column that had one. *)
Lemma drop_duplicates_has_value (df : DataFrame) :
  wf df ->
  Forall (fun c => has_value (snd c)) (cols df) ->
  Forall (fun c => has_value (snd c)) (cols (drop_duplicates df)).
Proof.
  intros Hwf Hv. unfold drop_duplicates. destruct (empty df); [exact Hv|].
  cbn [cols]. apply Forall_map. cbn [snd].
  apply Forall_forall. intros c Hc.
  rewrite Forall_forall in Hv. specialize (Hv c Hc).
  unfold has_value in *. rewrite cells_take.
  destruct (In_nth _ _ c Hc) as [j [Hj Ej]].
  pose proof (column_of_rows (nrows df) _ (wf_cells df Hwf) j) as Hcol.
  rewrite length_map in Hcol. specialize (Hcol Hj).
  rewrite (nth_indep _ [] (cells (snd c))) in Hcol
    by (now rewrite length_map).
  rewrite (map_nth (fun c => cells (snd c))), Ej in Hcol.
  fold (rows df) in Hcol. rewrite Hcol in *.
  rewrite mask_filter_map. unfold duplicated. rewrite keep_mask_nub.
  (* a value in column [j] of some row *)
  assert (Hrow : exists r v, In r (rows df) /\ nth j r None = Some v).
  { clear -Hv. induction (rows df) as [|r rs IH]; simpl in *; [now elim Hv|].
    match type of Hv with
    | context [match ?t with _ => _ end] => destruct t as [v|] eqn:E
    end.
    - exists r, v. auto.
    - destruct (IH Hv) as [r' [v [H1 H2]]]. exists r', v. auto. }
  destruct Hrow as [r [v [Hr Ev]]].
  destruct (nub_complete row_eqb row_eqb_refl row_eqb_trans (rows df) r Hr)
    as [r0 [Hr0 Er0]].
  pose proof (row_eqb_nth r r0 j Er0) as Ecell. rewrite Ev in Ecell.
  destruct (nth j r0 None) as [v0|] eqn:E0; [|discriminate].
  fold (nub row_eqb (rows df)).
  clear -Hr0 E0. induction (nub row_eqb (rows df)) as [|x l IH]; simpl in *;
    [tauto|].
  destruct Hr0 as [->|H].
  - change (@nth cell j r0 None) with (@nth (option pyobj) j r0 None) in E0.
    rewrite E0. discriminate.
  - match goal with
    | |- context [match ?t with _ => _ end] => destruct t
    end; [discriminate|now apply IH].
Qed.

(* ================================================================== *)
(** ** Comparisons of rationals *)

Lemma Qlt_bool_iff (x y : Q) : Qlt_bool x y = true <-> (x < y)%Q.
Proof.
  unfold Qlt_bool. rewrite negb_true_iff. split; intros H.
  - apply Qnot_le_lt. intro L. apply Qle_bool_iff in L. congruence.
  - destruct (Qle_bool y x) eqn:E; [|reflexivity].
    apply Qle_bool_iff in E. apply Qle_not_lt in E. contradiction.
Qed.

Lemma Qlt_bool_false_iff (x y : Q) : Qlt_bool x y = false <-> (y <= x)%Q.
Proof.
  unfold Qlt_bool. rewrite negb_false_iff. apply Qle_bool_iff.
Qed.

Lemma ratio_of_counts (k n : nat) :
  n <> 0 ->
  (inject_Z (Z.of_nat k) / inject_Z (Z.of_nat n) == Z.of_nat k # Pos.of_nat n)%Q.
Proof.
  intros Hn. replace (Z.of_nat n) with (Z.pos (Pos.of_nat n)).
  - symmetry. apply Qmake_Qdiv.
  - destruct n; [contradiction|]. rewrite <- Pos.of_nat_succ.
    now rewrite Zpos_P_of_succ_nat, Nat2Z.inj_succ.
Qed.

(** The test of the drop pass on counts: more than 95 in 100 cells are
    missing, and there is at least one row. *)
Lemma ratio_gt_iff (k n : nat) :
  fgt (true_divide k n) missing_threshold = true <-> n <> 0 /\ 19 * n < 20 * k.
Proof.
  unfold true_divide, missing_threshold, fgt.
  destruct (n =? 0) eqn:En.
  - apply Nat.eqb_eq in En. split; [discriminate|]. intros [H _]. contradiction.
  - apply Nat.eqb_neq in En. rewrite Qlt_bool_iff, Qred_correct.
    rewrite (ratio_of_counts k n En). unfold Qlt. cbn [Qnum Qden].
    assert (Hp : Z.pos (Pos.of_nat n) = Z.of_nat n).
    { destruct n; [contradiction|]. rewrite <- Pos.of_nat_succ.
      now rewrite Zpos_P_of_succ_nat, Nat2Z.inj_succ. }
    rewrite Hp. split.
    + intros H. split; [exact En|]. lia.
    + intros [_ H]. lia.
Qed.

(* ================================================================== *)
(** ** Missing cells *)

Lemma present_map {A B : Type} (f : A -> B) (xs : list (option A)) :
  present (map (option_map f) xs) = map f (present xs).
Proof.
  induction xs as [|[x|] xs IH]; simpl; congruence.
Qed.

Lemma null_present_length {A : Type} (cs : list (option A)) :
  List.length (filter is_none cs) + List.length (present cs) = List.length cs.
Proof.
  induction cs as [|[x|] cs IH]; simpl; lia.
Qed.

Lemma null_count_zero (s : Series) :
  len_series s = 0 -> null_count s = 0.
Proof.
  unfold len_series, null_count. intros H.
  destruct (cells s); [reflexivity|discriminate].
Qed.

Lemma fill_no_missing {A : Type} (v : A) (xs : list (option A)) :
  filter is_none (fill v xs) = [].
Proof.
  unfold fill. induction xs as [|[x|] xs IH]; simpl; auto.
Qed.

Lemma fill_map {A B : Type} (f : A -> B) (v : A) (xs : list (option A)) :
  map (option_map f) (fill v xs) = fill (f v) (map (option_map f) xs).
Proof.
  unfold fill. rewrite !map_map. apply map_ext. now intros [x|].
Qed.

Lemma null_count_num (k : numkind) (xs : list (option Q)) :
  null_count (NumSeries k xs) = List.length (filter is_none xs).
Proof.
  unfold null_count. simpl.
  induction xs as [|[x|] xs IH]; simpl; congruence.
Qed.

Lemma null_count_bool (xs : list bool) : null_count (BoolSeries xs) = 0.
Proof. unfold null_count. simpl. induction xs; simpl; auto. Qed.

Lemma all_present_iff {A : Type} (xs : list (option A)) :
  forallb (fun c => negb (is_none c)) xs = true
  <-> List.length (filter is_none xs) = 0.
Proof.
  induction xs as [|[x|] xs IH]; simpl; [tauto|exact IH|].
  split; discriminate.
Qed.

(** Filling a column that has a missing cell with a value writes that value
    into every missing cell and leaves the other cells as they are. *)
Lemma fillna_cells (w : pyobj) (s : Series) :
  0 < null_count s -> cells (fillna (Some w) s) = fill w (cells s).
Proof.
  intros H. destruct s as [k xs|xs|xs]; simpl.
  - rewrite null_count_num in H. destruct w as [t|q|b]; simpl.
    + destruct (forallb (fun c => negb (is_none c)) xs) eqn:E; [|reflexivity].
      apply all_present_iff in E. lia.
    + apply fill_map.
    + destruct (forallb (fun c => negb (is_none c)) xs) eqn:E; [|reflexivity].
      apply all_present_iff in E. lia.
  - rewrite null_count_bool in H. lia.
  - reflexivity.
Qed.

Lemma insert_sorted_length {A : Type} (leb : A -> A -> bool) (x : A) (l : list A) :
  List.length (insert_sorted leb x l) = S (List.length l).
Proof.
  induction l as [|y l IH]; simpl; [reflexivity|].
  destruct (leb x y); simpl; congruence.
Qed.

Lemma isort_length {A : Type} (leb : A -> A -> bool) (l : list A) :
  List.length (isort leb l) = List.length l.
Proof.
  induction l as [|x l IH]; simpl; [reflexivity|].
  now rewrite insert_sorted_length, IH.
Qed.

Lemma median_of_defined (xs : list Q) :
  xs <> [] -> exists m, median_of xs = Some m.
Proof.
  intros H. unfold median_of, sort_values. rewrite isort_length.
  destruct xs as [|x xs]; [contradiction|]. simpl List.length.
  cbn [Nat.eqb]. destruct (Nat.odd (S (List.length xs))); eauto.
Qed.

Lemma dtype_in_numeric (s : Series) :
  dtype_in_int64_float64 (dtype_of s) = true ->
  exists k xs, s = NumSeries k xs /\ (k = int64 \/ k = float64).
Proof.
  destruct s as [[| |] xs|xs|xs]; simpl; try discriminate; intros _; eauto.
Qed.

Lemma has_value_num (k : numkind) (xs : list (option Q)) :
  has_value (NumSeries k xs) <-> present xs <> [].
Proof.
  unfold has_value. simpl. rewrite present_map.
  destruct (present xs); simpl; split; intros H; try discriminate;
    try (now elim H).
Qed.

(** The imputation of a column leaves no missing cell, provided a column
    filled with its median holds at least one value. *)
Lemma fill_column_complete (s : Series) :
  null_count s = 0 \/ has_value s -> null_count (fill_column s) = 0.
Proof.
  intros H. unfold fill_column.
  destruct (0 <? null_count s) eqn:E.
  - apply Nat.ltb_lt in E. destruct H as [H|H]; [lia|].
    unfold fill_value.
    destruct (dtype_in_int64_float64 (dtype_of s)) eqn:D.
    + destruct (dtype_in_numeric s D) as [k [xs [-> _]]].
      apply has_value_num in H.
      destruct (median_of_defined (present xs) H) as [m Hm].
      simpl. rewrite Hm. simpl. rewrite null_count_num.
      now rewrite fill_no_missing.
    + unfold null_count. rewrite fillna_cells by exact E.
      now rewrite fill_no_missing.
  - apply Nat.ltb_ge in E. lia.
Qed.

Lemma total_missing_zero (l : list (string * Series)) :
  Forall (fun c => null_count (snd c) = 0) l ->
  fold_right (fun c acc => null_count (snd c) + acc) 0 l = 0.
Proof.
  induction 1 as [|c l Hc Hl IH]; simpl; [reflexivity|]. lia.
Qed.

Lemma total_missing_zero_inv (l : list (string * Series)) :
  fold_right (fun c acc => null_count (snd c) + acc) 0 l = 0 ->
  Forall (fun c => null_count (snd c) = 0) l.
Proof.
  induction l as [|c l IH]; simpl; intros H; constructor; [lia|].
  apply IH. lia.
Qed.

Lemma fill_pass_complete (df : DataFrame) :
  Forall (fun c => null_count (snd c) = 0 \/ has_value (snd c)) (cols df) ->
  total_missing (fst (fill_pass df)) = 0.
Proof.
  intros H. unfold fill_pass, total_missing. cbn [fst cols].
  apply total_missing_zero. apply Forall_map. cbn [snd].
  eapply Forall_impl; [|exact H]. intros c. apply fill_column_complete.
Qed.

(* ================================================================== *)
(** ** The column drop pass *)

Lemma nrows_drop_pass (df : DataFrame) : nrows (fst (drop_pass df)) = nrows df.
Proof.
  unfold drop_pass. now destruct (filter (sparse (nrows df)) (cols df)).
Qed.

Lemma drop_pass_kept (df : DataFrame) (c : string * Series) :
  In c (cols (fst (drop_pass df))) ->
  In c (cols df) /\ sparse (nrows df) c = false.
Proof.
  unfold drop_pass.
  destruct (filter (sparse (nrows df)) (cols df)) as [|m ms] eqn:Hm.
  - cbn [fst]. intros Hc. split; [exact Hc|].
    destruct (sparse (nrows df) c) eqn:Hs; [|reflexivity].
    assert (In c (filter (sparse (nrows df)) (cols df)))
      by (apply filter_In; auto).
    rewrite Hm in H. contradiction.
  - cbn [fst drop cols]. rewrite <- Hm. intros Hc.
    apply filter_In in Hc. destruct Hc as [Hc Hk]. split; [exact Hc|].
    destruct (sparse (nrows df) c) eqn:Hs; [|reflexivity].
    apply negb_true_iff in Hk.
    assert (existsb (String.eqb (fst c))
              (map fst (filter (sparse (nrows df)) (cols df))) = true).
    { apply existsb_exists. exists (fst c). split; [|apply String.eqb_refl].
      apply in_map. apply filter_In. auto. }
    congruence.
Qed.

Lemma wf_drop_pass (df : DataFrame) : wf df -> wf (fst (drop_pass df)).
Proof.
  intros H. unfold wf in *. rewrite nrows_drop_pass.
  apply Forall_forall. intros c Hc. apply drop_pass_kept in Hc.
  rewrite Forall_forall in H. now apply H.
Qed.

(** A column that the drop pass keeps in a frame with rows holds a value. *)
Lemma kept_has_value (n : nat) (c : string * Series) :
  n <> 0 -> len_series (snd c) = n -> sparse n c = false -> has_value (snd c).
Proof.
  intros Hn Hlen Hs. unfold sparse, missing_pct in Hs.
  assert (Hk : ~ (19 * n < 20 * null_count (snd c))).
  { intros H. assert (fgt (true_divide (null_count (snd c)) n) missing_threshold = true)
      by (apply ratio_gt_iff; auto). congruence. }
  unfold has_value. unfold null_count, len_series in *.
  pose proof (null_present_length (cells (snd c))) as L.
  destruct (present (cells (snd c))); [|discriminate].
  exfalso. simpl in L. unfold cell in *. lia.
Qed.

(* ================================================================== *)
(** ** Missing-value resolver *)

Lemma null_length_map {A B : Type} (f : A -> B) (xs : list (option A)) :
  List.length (filter is_none (map (option_map f) xs))
  = List.length (filter is_none xs).
Proof. induction xs as [|[x|] xs IH]; simpl; congruence. Qed.

Lemma null_count_cap_column (s : Series) :
  null_count (cap_column s) = null_count s.
Proof.
  unfold cap_column, cap_column_clip.
  destruct (is_number (dtype_of s) && (0 <? outliers s)); [|reflexivity].
  destruct s as [k xs|xs|xs]; try reflexivity.
  unfold clip. rewrite !null_count_num. apply null_length_map.
Qed.

Lemma total_missing_cap_pass (df : DataFrame) :
  total_missing (fst (cap_pass df)) = total_missing df.
Proof.
  unfold cap_pass, total_missing. cbn [fst cols].
  induction (cols df) as [|c l IH]; simpl; [reflexivity|].
  now rewrite null_count_cap_column, IH.
Qed.

Lemma resolver_complete (df : DataFrame) :
  wf df ->
  Forall (fun c => null_count (snd c) = 0 \/ has_value (snd c))
    (cols (drop_duplicates (fst (drop_pass df))))
  /\ Forall (fun c => null_count (snd c) = 0 \/ has_value (snd c))
       (cols (fst (drop_pass df))).
Proof.
  intros Hwf. pose proof (wf_drop_pass df Hwf) as Hwf2.
  pose proof (nrows_drop_pass df) as Hn.
  destruct (Nat.eq_dec (nrows df) 0) as [Z|NZ].
  - assert (H0 : Forall (fun c => null_count (snd c) = 0 \/ has_value (snd c))
                   (cols (fst (drop_pass df)))).
    { eapply Forall_impl; [|exact Hwf2]. intros c Hc. left.
      apply null_count_zero. congruence. }
    split; [|exact H0].
    unfold drop_duplicates, empty. rewrite Hn, Z. exact H0.
  - assert (Hv : Forall (fun c => has_value (snd c)) (cols (fst (drop_pass df)))).
    { apply Forall_forall. intros c Hc.
      destruct (drop_pass_kept df c Hc) as [Hin Hs].
      unfold wf in Hwf. rewrite Forall_forall in Hwf.
      exact (kept_has_value (nrows df) c NZ (Hwf c Hin) Hs). }
    split.
    + eapply Forall_impl; [|apply (drop_duplicates_has_value _ Hwf2 Hv)].
      intros c Hc. now right.
    + eapply Forall_impl; [|exact Hv]. intros c Hc. now right.
Qed.

(** On the frames of finite numbers of this model, whose columns have one
    cell per row, no cell is missing once the column drop pass and the cell
    imputation pass have run, whether the imputation follows the drop pass
    directly or, as in [clean_data], after the duplicate rows were
    removed. *)
Lemma resolver_no_missing (df : DataFrame) :
  wf df ->
  total_missing (fst (fill_pass (fst (drop_pass df)))) = 0
  /\ total_missing
       (fst (fill_pass (fst (duplicates_pass (fst (drop_pass df)))))) = 0.
Proof.
  intros Hwf. destruct (resolver_complete df Hwf) as [H1 H2]. split.
  - now apply fill_pass_complete.
  - unfold duplicates_pass. cbn [fst]. now apply fill_pass_complete.
Qed.

(** On finite cells the imputation of [Extended] is the one of the
    pipeline. *)
Lemma insert_sorted_embed (x : Q) (l : list Q) :
  insert_sorted Extended.xle (Extended.Fin x) (map Extended.Fin l)
  = map Extended.Fin (insert_sorted Qle_bool x l).
Proof.
  induction l as [|y l IH]; [reflexivity|].
  cbn [map insert_sorted Extended.xle].
  destruct (Qle_bool x y); [reflexivity|].
  cbn [map]. now rewrite IH.
Qed.

Lemma isort_embed (l : list Q) :
  isort Extended.xle (map Extended.Fin l)
  = map Extended.Fin (isort Qle_bool l).
Proof.
  induction l as [|x l IH]; [reflexivity|].
  cbn [map isort]. now rewrite IH, insert_sorted_embed.
Qed.

Lemma median_of_embed (l : list Q) :
  Extended.median_of (map Extended.Fin l)
  = option_map Extended.Fin (median_of l).
Proof.
  unfold Extended.median_of, median_of, sort_values. rewrite isort_embed.
  rewrite length_map.
  destruct (List.length (isort Qle_bool l) =? 0); [reflexivity|].
  change (Extended.Fin 0) with (Extended.Fin 0%Q).
  rewrite !(map_nth Extended.Fin).
  destruct (Nat.odd (List.length (isort Qle_bool l))); reflexivity.
Qed.

Lemma present_embed (xs : list (option Q)) :
  present (Extended.embed xs) = map Extended.Fin (present xs).
Proof. apply present_map. Qed.

Lemma fill_float64_finite (xs : list (option Q)) :
  exists ys,
    fill_column (NumSeries float64 xs) = NumSeries float64 ys
    /\ Extended.fill_float64 (Extended.embed xs) = Extended.embed ys.
Proof.
  unfold fill_column, Extended.fill_float64.
  rewrite null_count_num.
  assert (N : List.length (filter is_none (Extended.embed xs))
              = List.length (filter is_none xs)).
  { unfold Extended.embed. induction xs as [|[x|] xs IH]; simpl; congruence. }
  rewrite N.
  destruct (0 <? List.length (filter is_none xs));
    [|exists xs; split; reflexivity].
  rewrite present_embed, median_of_embed.
  unfold fill_value. cbn [dtype_of dtype_in_int64_float64 dtype_name].
  change (String.eqb "float64" "int64" || String.eqb "float64" "float64")
    with true. cbn [median].
  destruct (median_of (present xs)) as [m|]; cbn [option_map fillna].
  - exists (fill m xs). split; [reflexivity|].
    unfold Extended.embed, fill. rewrite !map_map.
    apply map_ext. now intros [x|].
  - exists xs. split; reflexivity.
Qed.

(** C2 fails on a [float64] column that holds both infinities.  The median
    of the values present is NaN, filling with it changes nothing, and the
    missing cell of the column [inf, -inf, NaN] stays missing; with one cell
    in three missing the column is not dropped either. *)
Lemma C2_counterexample :
  Extended.median_of [Extended.PInf; Extended.NInf] = None
  /\ Extended.fill_float64
       [Some Extended.PInf; Some Extended.NInf; None]
     = [Some Extended.PInf; Some Extended.NInf; None]
  /\ List.length
       (filter is_none
          (Extended.fill_float64
             [Some Extended.PInf; Some Extended.NInf; None])) = 1
  /\ fgt (true_divide 1 3) missing_threshold = false.
Proof. repeat split. Qed.

(** On a frame of finite numbers, the frame [clean_data] leaves has no
    missing cell. *)
Lemma pipeline_no_missing (raw : DataFrame) :
  wf raw -> total_missing (fst (pipeline raw)) = 0.
Proof.
  intros Hwf.
  assert (Hwf1 : wf (normalize_columns raw)).
  { unfold wf, normalize_columns, rename_columns, set_columns in *. cbn [nrows cols].
    apply Forall_forall. intros [name s] Hc.
    rewrite Forall_forall in Hwf.
    apply in_combine_r in Hc. cbn [snd]. apply in_map_iff in Hc.
    destruct Hc as [x [<- Hx]]. now apply Hwf. }
  destruct (resolver_complete _ Hwf1) as [H _].
  apply fill_pass_complete in H.
  unfold pipeline, pipeline_with; fold_normalize.
  destruct (drop_pass (normalize_columns raw)) as [d2 log2].
  unfold duplicates_pass. cbn [fst] in H.
  destruct (fill_pass (drop_duplicates d2)) as [d4 log4].
  pose proof (total_missing_cap_pass d4) as E.
  destruct (cap_pass d4) as [d5 log5]. cbn [fst] in *. congruence.
Qed.

(* ================================================================== *)
(** ** Column drop pass *)

Lemma NoDup_map_inj {A B : Type} (f : A -> B) (l : list A) :
  NoDup (map f l) ->
  forall x y, In x l -> In y l -> f x = f y -> x = y.
Proof.
  induction l as [|a l IH]; simpl; intros ND x y Hx Hy E; [tauto|].
  inversion ND as [|? ? Hn Hl]; subst.
  destruct Hx as [->|Hx], Hy as [->|Hy]; auto.
  - elim Hn. rewrite E. now apply in_map.
  - elim Hn. rewrite <- E. now apply in_map.
Qed.



(** Rounding moves a number by at most one half. *)
Lemma round_half_even_close (q : Q) :
  (q - (1 # 2) <= inject_Z (Py.round_half_even q) <= q + (1 # 2))%Q.
Proof.
  unfold Py.round_half_even.
  pose proof (Qfloor_le q) as Hlo. pose proof (Qlt_floor q) as Hhi.
  rewrite inject_Z_plus in Hhi.
  destruct (Qcompare (q - inject_Z (Qfloor q)) (1 # 2)) eqn:E;
    [apply Qeq_alt in E; destruct (Z.even (Qfloor q))
    |apply Qlt_alt in E|apply Qgt_alt in E];
    rewrite ?inject_Z_plus; change (inject_Z 1) with 1%Q in *;
    revert Hlo Hhi E; generalize (inject_Z (Qfloor q));
    intros f Hlo Hhi E; lra.
Qed.







(* ================================================================== *)
(** ** Rounding to a double *)









(* ================================================================== *)
(** ** Duplicate eliminator *)

Lemma empty_rows (df : DataFrame) :
  wf df -> cols df <> [] -> empty df = true -> rows df = [].
Proof.
  intros Hwf Hc He. unfold empty in He. apply orb_true_iff in He.
  destruct He as [He|He].
  - apply Nat.eqb_eq in He. pose proof (rows_length df Hwf) as L.
    rewrite He in L. now destruct (rows df).
  - apply Nat.eqb_eq in He. destruct (cols df); [now elim Hc|discriminate].
Qed.

(** C6, as stated, fails on a frame without columns: it is returned as it
    is, and its two rows, which have no cell, are cell-wise identical.  Such
    a frame reaches the duplicate removal of [clean_data] when the drop pass
    removed every column. *)
Lemma C6_counterexample :
  wf c6_frame
  /\ rows (drop_duplicates c6_frame) = [[]; []]
  /\ ~ distinct_rows (rows (drop_duplicates c6_frame))
  /\ fst (drop_pass (normalize_columns c6_raw)) = c6_frame.
Proof.
  split; [constructor|]. split; [reflexivity|]. split; [|reflexivity].
  intros H. inversion H as [|r l Hr Hl]; subst.
  inversion Hr as [|? ? E ?]; subst. discriminate.
Qed.

(** C6, amended. The duplicate eliminator returns a frame without columns
    as it is.  On a frame with at least one column, the rows of the output
    are the first occurrences of the rows of the input: no two of them are
    cell-wise identical, they form a subsequence of the input rows, and
    every input row is identical to one of them. *)
Theorem C6_duplicate_eliminator (df : DataFrame) :
  wf df ->
  (cols df = [] -> drop_duplicates df = df)
  /\ (cols df <> [] ->
      rows (drop_duplicates df) = nub row_eqb (rows df)
      /\ distinct_rows (rows (drop_duplicates df))
      /\ Subseq (rows (drop_duplicates df)) (rows df)
      /\ (forall r, In r (rows df) ->
            exists r0, In r0 (rows (drop_duplicates df))
                       /\ row_eqb r r0 = true)
      /\ nrows (drop_duplicates df) = List.length (rows (drop_duplicates df))).
Proof.
  intros Hwf. split.
  - intros Hc. unfold drop_duplicates, empty. rewrite Hc. simpl.
    now rewrite orb_true_r.
  - intros Hc.
    assert (E : rows (drop_duplicates df) = nub row_eqb (rows df)).
    { destruct (empty df) eqn:He.
      - unfold drop_duplicates. rewrite He.
        now rewrite (empty_rows df Hwf Hc He).
      - now apply rows_drop_duplicates. }
    split; [exact E|]. rewrite E. split; [|split; [|split]].
    + apply (nub_from_distinct row_eqb row_eqb_sym).
    + apply nub_from_subseq.
    + intros r Hr. apply (nub_complete row_eqb row_eqb_refl row_eqb_trans _ _ Hr).
    + rewrite <- E. symmetry. apply rows_length. now apply wf_drop_duplicates.
Qed.

Lemma C6_witness :
  wf c6_dups
  /\ rows (drop_duplicates c6_dups)
     = [[Some (PStr "a"); Some (PNum 1)];
        [Some (PStr "b"); Some (PNum 2)];
        [None; Some (PNum 1)]].
Proof.
  assert (H : wf c6_dups) by (repeat constructor).
  split; [exact H|].
  destruct (C6_duplicate_eliminator c6_dups H) as [_ K].
  assert (N : cols c6_dups <> []) by discriminate.
  destruct (K N) as [E _]. rewrite E. reflexivity.
Defined.

(* ================================================================== *)
(** ** Order of the stages *)

(** C1, as stated, fails: [clean_data] removes duplicate rows before it
    fills missing cells.  On two rows that differ only by a missing cell the
    log has the duplicate record before the fill record and both rows
    survive, identical; in the order of the specification one row would be
    removed. *)
Lemma C1_counterexample :
  clean_data (loaded c1_frame)
  = Ok (tt,
        mkState c1_frame
          (mkDataFrame 2
             [("key", ObjSeries [Some (PStr "a"); Some (PStr "a")]);
              ("val", ObjSeries [Some (PStr "x"); Some (PStr "x")])])
          (map (String.append bullet)
             ["Standardized 2 column names";
              "No columns dropped (all below 95% missing threshold)";
              "No duplicate rows found";
              "Filled 1 missing values in 'val' with mode/Unknown";
              "No outliers detected in numeric columns";
              "Cleaning complete: (2, 2) -> (2, 2)"]))
  /\ pipeline_as_specified c1_frame
     = (mkDataFrame 1
          [("key", ObjSeries [Some (PStr "a")]);
           ("val", ObjSeries [Some (PStr "x")])],
        ["Standardized 2 column names";
         "No columns dropped (all below 95% missing threshold)";
         "Filled 1 missing values in 'val' with mode/Unknown";
         "Removed 1 duplicate rows";
         "No outliers detected in numeric columns";
         "Cleaning complete: (2, 2) -> (1, 2)"]).
Proof. split; vm_compute; reflexivity. Qed.

(** C1, amended. On a frame whose normalised labels are pairwise distinct,
    [clean_data] runs the column normalizer, the column drop pass, the
    duplicate eliminator, the cell imputation pass and the outlier capper in
    this order, each on the frame the previous one left, and the log holds
    their records in this order, closed by the shape record. *)
Theorem C1_stage_order (raw : DataFrame) :
  NoDup (map normalize_name (columns raw)) ->
  let d1 := normalize_columns raw in
  let d2 := fst (drop_pass d1) in
  let d3 := fst (duplicates_pass d2) in
  let d4 := fst (fill_pass d3) in
  let d5 := fst (cap_pass d4) in
  clean_data (loaded raw)
  = Ok (tt,
        mkState raw d5
          (map (String.append bullet)
             ([normalize_record raw]
              ++ snd (drop_pass d1)
              ++ snd (duplicates_pass d2)
              ++ snd (fill_pass d3)
              ++ snd (cap_pass d4)
              ++ [complete_record raw d5]))).
Proof.
  intros ND. cbv zeta. rewrite (clean_data_run raw ND). unfold pipeline, pipeline_with; fold_normalize.
  destruct (drop_pass (normalize_columns raw)) as [d2 log2]. cbn [fst snd].
  destruct (duplicates_pass d2) as [d3 log3]. cbn [fst snd].
  destruct (fill_pass d3) as [d4 log4]. cbn [fst snd].
  destruct (cap_pass d4) as [d5 log5]. reflexivity.
Qed.

Lemma C1_witness :
  NoDup (map normalize_name (columns c1_frame))
  /\ exists st, clean_data (loaded c1_frame) = Ok (tt, st).
Proof.
  assert (H : NoDup (map normalize_name (columns c1_frame))).
  { repeat constructor; simpl; intuition discriminate. }
  split; [exact H|]. eexists. exact (C1_stage_order c1_frame H).
Defined.

(* ================================================================== *)
(** ** [analyze_data] computes the summary *)

Lemma dict_set_fresh {V : Type} (k : string) (v : V) (d : dict V) :
  ~ In k (keys d) -> dict_set k v d = d ++ [(k, v)].
Proof.
  induction d as [|[k' v'] d IH]; simpl; intros H; [reflexivity|].
  destruct (String.eqb k' k) eqn:E.
  - apply String.eqb_eq in E. elim H. now left.
  - rewrite IH; [reflexivity|]. intro Hin. apply H. now right.
Qed.

Lemma getitem_In (df : DataFrame) (c : string * Series) :
  NoDup (columns df) -> In c (cols df) -> getitem df (fst c) = Column (snd c).
Proof.
  intros ND Hc. destruct df as [n l]. unfold columns in ND. simpl in *.
  destruct (in_split _ _ Hc) as [pre [post ->]].
  apply (getitem_unique pre post c ND n).
Qed.

Section DictLoop.
Context {V : Type}.
Variables (data : DataFrame) (g : Series -> V).
Hypothesis unique : NoDup (columns data).

Lemma dict_loop (l : list (string * Series)) : forall (d : dict V) st,
  (forall c, In c l -> In c (cols data)) ->
  NoDup (keys d ++ map fst l) ->
  for_each (map fst l)
    (fun d col =>
       bind (series_at AttributeError data col)
         (fun s => ret (dict_set col (g s) d)))
    d st
  = Ok (d ++ entries g l, st).
Proof.
  induction l as [|c l IH]; intros d st Hin ND; simpl.
  - unfold ret. now rewrite app_nil_r.
  - unfold bind at 1. unfold bind at 1. unfold series_at.
    rewrite (getitem_In data c unique (Hin c (or_introl eq_refl))).
    unfold ret at 1 2.
    rewrite dict_set_fresh.
    + rewrite IH.
      * now rewrite <- app_assoc.
      * intros x Hx. apply Hin. now right.
      * unfold keys in *. rewrite map_app. simpl.
        now rewrite <- app_assoc.
    + apply NoDup_remove_2 in ND. intro H. apply ND.
      apply in_or_app. now left.
Qed.
End DictLoop.

Lemma NoDup_filter_labels (p : string * Series -> bool) (l : list (string * Series)) :
  NoDup (map fst l) -> NoDup (map fst (filter p l)).
Proof.
  induction l as [|c l IH]; simpl; intros ND; [constructor|].
  inversion ND as [|? ? Hn Hl]; subst. destruct (p c); simpl.
  - constructor; [|now apply IH]. intro Hin. apply Hn.
    apply in_map_iff in Hin. destruct Hin as [x [Hx1 Hx2]].
    apply filter_In in Hx2. apply in_map_iff. exists x. tauto.
  - now apply IH.
Qed.

(** [analyze_data] on a frame with pairwise distinct labels ends normally,
    changes nothing, and returns [summary]. *)
Lemma analyze_data_run (data : DataFrame) (st : State) :
  NoDup (columns data) ->
  analyze_data data st = Ok (summary data, st).
Proof.
  intros ND. unfold analyze_data, summary, select_dtypes.
  fold (numeric_part data). fold (categorical_part data).
  assert (Hn : NoDup (map fst (numeric_part data)))
    by (apply NoDup_filter_labels; exact ND).
  assert (Hc : NoDup (map fst (categorical_part data)))
    by (apply NoDup_filter_labels; exact ND).
  assert (In_n : forall c, In c (numeric_part data) -> In c (cols data))
    by (intros c H; apply filter_In in H; tauto).
  assert (In_c : forall c, In c (categorical_part data) -> In c (cols data))
    by (intros c H; apply filter_In in H; tauto).
  eapply bind_runs.
  { apply (dict_loop data (missing_entry (nrows data)) ND (cols data) [] st);
      auto. }
  eapply bind_runs.
  { apply (dict_loop data (fun s => dtype_name (dtype_of s)) ND (cols data) [] st);
      auto. }
  eapply bind_runs.
  { apply (dict_loop data numeric_entry ND (numeric_part data) [] st); auto. }
  eapply bind_runs.
  { apply (dict_loop data categorical_entry ND (categorical_part data) [] st);
      auto. }
  eapply bind_runs.
  { apply (dict_loop data (outlier_entry (nrows data)) ND (numeric_part data) [] st);
      auto. }
  reflexivity.
Qed.

(* ================================================================== *)
(** ** Column kinds in the analysis *)

(** C7, as stated, fails on a boolean column: it is in neither summary and
    the two counts do not add up to the number of columns. *)
Lemma C7_counterexample :
  exists a,
    analyze_data c7_frame (loaded c7_frame) = Ok (a, loaded c7_frame)
    /\ data_types a = [("n", "int64"); ("flag", "bool")]
    /\ keys (numeric_summary a) = ["n"]
    /\ keys (categorical_summary a) = []
    /\ info_numeric_columns (basic_info a)
       + info_categorical_columns (basic_info a) = 1
    /\ info_columns (basic_info a) = 2.
Proof. eexists. vm_compute. repeat split; reflexivity. Qed.

Lemma keys_entries {V : Type} (g : Series -> V) (l : list (string * Series)) :
  keys (entries g l) = map fst l.
Proof. unfold keys, entries. rewrite map_map. reflexivity. Qed.

Lemma partition_length (l : list (string * Series)) :
  List.length (filter (fun c => is_number (dtype_of (snd c))) l)
  + List.length (filter (fun c => is_object (dtype_of (snd c))) l)
  + List.length
      (filter (fun c => negb (is_number (dtype_of (snd c)))
                        && negb (is_object (dtype_of (snd c)))) l)
  = List.length l.
Proof.
  induction l as [|c l IH]; simpl; [reflexivity|].
  destruct (dtype_of (snd c)); simpl; lia.
Qed.

(** C7, amended. On a frame with pairwise distinct labels the analyzer puts
    a column in [numeric_summary] exactly when its storage type is numeric
    and in [categorical_summary] exactly when it is an object column; no
    column is in both, a column of another storage type (boolean) is in
    neither, and the two counts of [basic_info] together with the number of
    such other columns give the number of columns. *)
Theorem C7_column_kinds (data : DataFrame) (st : State) :
  NoDup (columns data) ->
  analyze_data data st = Ok (summary data, st)
  /\ (forall c, In c (cols data) ->
        (In (fst c) (keys (numeric_summary (summary data)))
         <-> is_number (dtype_of (snd c)) = true)
        /\ (In (fst c) (keys (categorical_summary (summary data)))
            <-> is_object (dtype_of (snd c)) = true)
        /\ ~ (In (fst c) (keys (numeric_summary (summary data)))
              /\ In (fst c) (keys (categorical_summary (summary data)))))
  /\ info_numeric_columns (basic_info (summary data))
     + info_categorical_columns (basic_info (summary data))
     + List.length
         (filter (fun c => negb (is_number (dtype_of (snd c)))
                           && negb (is_object (dtype_of (snd c))))
            (cols data))
     = info_columns (basic_info (summary data)).
Proof.
  intros ND. split; [now apply analyze_data_run|]. split.
  - intros c Hc. unfold summary. cbn [numeric_summary categorical_summary].
    rewrite !keys_entries.
    assert (Hkey : forall p : string * Series -> bool,
              In (fst c) (map fst (filter p (cols data))) <-> p c = true).
    { intros p. split.
      - intros H. apply in_map_iff in H. destruct H as [c' [E H]].
        apply filter_In in H. destruct H as [H1 H2].
        replace c with c'; [exact H2|].
        apply (NoDup_map_inj fst (cols data) ND); auto.
      - intros H. apply in_map. apply filter_In. auto. }
    unfold numeric_part, categorical_part.
    split; [apply Hkey|]. split; [apply Hkey|].
    rewrite (Hkey (fun c => is_number (dtype_of (snd c)))).
    rewrite (Hkey (fun c => is_object (dtype_of (snd c)))).
    destruct (dtype_of (snd c)); simpl; intros [H1 H2]; discriminate.
  - unfold summary, select_dtypes, columns. cbn [basic_info info_numeric_columns
      info_categorical_columns info_columns].
    rewrite !length_map. apply partition_length.
Qed.

Lemma C7_witness :
  NoDup (columns c7_frame)
  /\ analyze_data c7_frame (loaded c7_frame)
     = Ok (summary c7_frame, loaded c7_frame).
Proof.
  assert (H : NoDup (columns c7_frame)).
  { repeat constructor; simpl; intuition discriminate. }
  split; [exact H|].
  exact (proj1 (C7_column_kinds c7_frame (loaded c7_frame) H)).
Defined.

(* ================================================================== *)
(** ** Completion without error *)

(** C9, as stated, fails on a frame two of whose labels normalise to the
    same identifier: the drop pass selects both columns at once and the test
    of the threshold raises. *)
Lemma C9_counterexample :
  wf c9_frame
  /\ NoDup (columns c9_frame)
  /\ map normalize_name (columns c9_frame) = ["a_b"; "a_b"]
  /\ clean_data (loaded c9_frame) = Raise ValueError.
Proof.
  split; [repeat constructor|]. split.
  - repeat constructor; simpl; intuition discriminate.
  - split; reflexivity.
Qed.

Lemma columns_pipeline_with (norm : string -> string) (raw : DataFrame) :
  columns (fst (pipeline_with norm raw))
  = columns (fst (drop_pass (rename_columns norm raw))).
Proof.
  unfold pipeline_with.
  destruct (drop_pass (rename_columns norm raw)) as [d2 log2].
  unfold duplicates_pass.
  pose proof (columns_fill_pass (drop_duplicates d2)) as E4.
  destruct (fill_pass (drop_duplicates d2)) as [d4 log4].
  pose proof (columns_cap_pass d4) as E5.
  destruct (cap_pass d4) as [d5 log5]. cbn [fst] in *.
  now rewrite E5, E4, columns_drop_duplicates.
Qed.

Lemma columns_pipeline (raw : DataFrame) :
  columns (fst (pipeline raw))
  = columns (fst (drop_pass (normalize_columns raw))).
Proof. apply columns_pipeline_with. Qed.

Lemma NoDup_columns_pipeline_with (norm : string -> string) (raw : DataFrame) :
  NoDup (map norm (columns raw)) ->
  NoDup (columns (fst (pipeline_with norm raw))).
Proof.
  intros ND. rewrite columns_pipeline_with. apply columns_drop_pass.
  now rewrite columns_rename.
Qed.

Lemma NoDup_columns_pipeline (raw : DataFrame) :
  NoDup (map normalize_name (columns raw)) ->
  NoDup (columns (fst (pipeline raw))).
Proof. apply NoDup_columns_pipeline_with. Qed.

(** C9, amended. Whatever the normalisation [norm] of a label that step 1
    applies (Python's on labels of any script, which [normalize_name]
    computes on ASCII labels): on every frame whose normalised labels are
    pairwise distinct (the frame without rows, without columns, with one row
    or one column included) cleaning ends normally, and so does the
    analysis of the raw frame and of the cleaned frame.  Cleaning the frame
    without rows and columns gives it back with the records of a run that
    changed nothing, and its analysis has all counts 0 and no entry. *)
Theorem C9_no_error (norm : string -> string) (raw : DataFrame) :
  NoDup (map norm (columns raw)) ->
  (exists st,
      clean_data_with norm (loaded raw) = Ok (tt, st)
      /\ raw_data st = raw
      /\ (forall st', analyze_data raw st' = Ok (summary raw, st'))
      /\ (forall st', analyze_data (cleaned_data st) st'
                      = Ok (summary (cleaned_data st), st')))
  /\ clean_data_with norm (loaded empty_frame)
     = Ok (tt,
           mkState empty_frame empty_frame
             (map (String.append bullet)
                ["Standardized 0 column names";
                 "No columns dropped (all below 95% missing threshold)";
                 "No duplicate rows found";
                 "No missing values to fill";
                 "No outliers detected in numeric columns";
                 "Cleaning complete: (0, 0) -> (0, 0)"]))
  /\ (forall st', analyze_data empty_frame st'
                  = Ok (mkAnalysis (mkBasicInfo 0 0 0 0 0) [] [] [] [] [], st')).
Proof.
  intros ND. split; [|split; [reflexivity|intros st'; reflexivity]].
  eexists. split; [apply (clean_data_with_run norm raw ND)|].
  cbn [raw_data cleaned_data]. split; [reflexivity|]. split.
  - intros st'. apply analyze_data_run. eapply NoDup_map_inv. exact ND.
  - intros st'. apply analyze_data_run. now apply NoDup_columns_pipeline_with.
Qed.

Lemma C9_witness :
  NoDup (map normalize_name (columns c9_single))
  /\ exists st, clean_data (loaded c9_single) = Ok (tt, st).
Proof.
  assert (H : NoDup (map normalize_name (columns c9_single))).
  { repeat constructor; simpl; intuition. }
  split; [exact H|].
  destruct (proj1 (C9_no_error normalize_name c9_single H)) as [st [E _]].
  exists st. exact E.
Defined.

(* ================================================================== *)
(** ** Sorting *)

Section Sorting.
Context {A : Type}.
Variables (leb : A -> A -> bool).
Hypothesis leb_total : forall x y, leb x y = true \/ leb y x = true.
Hypothesis leb_trans : forall x y z,
  leb x y = true -> leb y z = true -> leb x z = true.

Lemma insert_sorted_In (x : A) (l : list A) (y : A) :
  In y (insert_sorted leb x l) <-> y = x \/ In y l.
Proof.
  induction l as [|z l IH]; simpl.
  - intuition.
  - destruct (leb x z); simpl; [intuition|]. rewrite IH. intuition.
Qed.

Lemma insert_sorted_ascending (x : A) (l : list A) :
  ascending leb l -> ascending leb (insert_sorted leb x l).
Proof.
  induction l as [|z l IH]; simpl; intros H.
  - split; [intros y []|exact I].
  - destruct H as [Hz Hl]. destruct (leb x z) eqn:E; simpl.
    + split; [|split; assumption].
      intros y [<-|Hy]; [exact E|].
      eapply leb_trans; [exact E|now apply Hz].
    + split; [|now apply IH].
      intros y Hy. apply insert_sorted_In in Hy. destruct Hy as [->|Hy].
      * destruct (leb_total x z) as [H|H]; [congruence|exact H].
      * now apply Hz.
Qed.

Lemma isort_ascending (l : list A) : ascending leb (isort leb l).
Proof.
  induction l as [|x l IH]; simpl; [exact I|].
  now apply insert_sorted_ascending.
Qed.

Lemma isort_In (l : list A) (y : A) : In y (isort leb l) <-> In y l.
Proof.
  induction l as [|x l IH]; simpl; [reflexivity|].
  rewrite insert_sorted_In, IH. intuition.
Qed.

Lemma ascending_nth (d : A) (l : list A) : ascending leb l ->
  forall i j, i < j -> j < List.length l -> leb (nth i l d) (nth j l d) = true.
Proof.
  induction l as [|x l IH]; simpl; intros H i j Hij Hj; [lia|].
  destruct H as [Hx Hl]. destruct j as [|j]; [lia|].
  destruct i as [|i].
  - apply Hx. apply nth_In. lia.
  - apply IH; [exact Hl|lia|lia].
Qed.
End Sorting.

Lemma Qle_bool_total (x y : Q) : Qle_bool x y = true \/ Qle_bool y x = true.
Proof.
  rewrite !Qle_bool_iff. destruct (Qlt_le_dec x y) as [H|H]; [left|right]; lra.
Qed.

Lemma Qle_bool_trans (x y z : Q) :
  Qle_bool x y = true -> Qle_bool y z = true -> Qle_bool x z = true.
Proof. rewrite !Qle_bool_iff. intros. lra. Qed.

Lemma sort_values_nth (xs : list Q) (i j : nat) :
  i <= j -> j < List.length xs ->
  (nth i (sort_values xs) 0 <= nth j (sort_values xs) 0)%Q.
Proof.
  intros Hij Hj. destruct (Nat.eq_dec i j) as [->|N]; [lra|].
  apply Qle_bool_iff.
  apply (ascending_nth Qle_bool 0%Q (sort_values xs)).
  - apply isort_ascending; [exact Qle_bool_total|exact Qle_bool_trans].
  - lia.
  - unfold sort_values. now rewrite isort_length.
Qed.

(* ================================================================== *)
(** ** Quantiles *)

Lemma quantile_of_at_rank (q : Q) (xs : list Q) (m : nat) :
  List.length xs = S m ->
  exists v, quantile_of q xs = Some v
            /\ (v == at_rank (sort_values xs) m (q * inject_Z (Z.of_nat m)))%Q.
Proof.
  intros L. unfold quantile_of.
  assert (L' : List.length (sort_values xs) = S m)
    by (unfold sort_values; now rewrite isort_length).
  rewrite L'. eexists. split; [reflexivity|]. apply Qred_correct.
Qed.

Lemma floor_nat_bounds (pos : Q) (m : nat) :
  (0 <= pos)%Q -> (pos <= inject_Z (Z.of_nat m))%Q ->
  Z.to_nat (Qfloor pos) <= m
  /\ (inject_Z (Z.of_nat (Z.to_nat (Qfloor pos))) == inject_Z (Qfloor pos))%Q
  /\ (0 <= pos - inject_Z (Qfloor pos) < 1)%Q.
Proof.
  intros H0 Hm.
  assert (F0 : (0 <= Qfloor pos)%Z).
  { change 0%Z with (Qfloor 0). now apply Qfloor_resp_le. }
  assert (Fm : (Qfloor pos <= Z.of_nat m)%Z).
  { rewrite <- (Qfloor_Z (Z.of_nat m)). now apply Qfloor_resp_le. }
  split; [lia|]. split.
  - rewrite Z2Nat.id by exact F0. reflexivity.
  - pose proof (Qfloor_le pos). pose proof (Qlt_floor pos) as Hlt.
    rewrite inject_Z_plus in Hlt. change (inject_Z 1) with 1%Q in Hlt.
    split; lra.
Qed.

(** The interpolated value lies between the two ranks it is taken from. *)
Lemma at_rank_between (xs : list Q) (m : nat) (pos : Q) :
  List.length xs = S m ->
  (0 <= pos)%Q -> (pos <= inject_Z (Z.of_nat m))%Q ->
  let s := sort_values xs in
  let lo := Z.to_nat (Qfloor pos) in
  (nth lo s 0 <= at_rank s m pos <= nth (Nat.min (lo + 1) m) s 0)%Q.
Proof.
  intros L H0 Hm s lo.
  destruct (floor_nat_bounds pos m H0 Hm) as [Hlo [_ Hg]].
  fold lo in Hlo. unfold at_rank. fold lo.
  assert (Hab : (nth lo s 0 <= nth (Nat.min (lo + 1) m) s 0)%Q).
  { apply sort_values_nth; lia. }
  revert Hab Hg. generalize (nth lo s 0%Q) (nth (Nat.min (lo + 1) m) s 0%Q)
    (pos - inject_Z (Qfloor pos))%Q.
  intros a b g Hab Hg. split; nra.
Qed.

Lemma at_rank_monotone (xs : list Q) (m : nat) (p p' : Q) :
  List.length xs = S m ->
  (0 <= p)%Q -> (p <= p')%Q -> (p' <= inject_Z (Z.of_nat m))%Q ->
  (at_rank (sort_values xs) m p <= at_rank (sort_values xs) m p')%Q.
Proof.
  intros L H0 Hpp Hm.
  assert (H0' : (0 <= p')%Q) by lra.
  assert (Hm' : (p <= inject_Z (Z.of_nat m))%Q) by lra.
  pose proof (at_rank_between xs m p L H0 Hm') as B.
  pose proof (at_rank_between xs m p' L H0' Hm) as B'.
  cbv zeta in B, B'.
  destruct (floor_nat_bounds p m H0 Hm') as [Hlo [Elo Hg]].
  destruct (floor_nat_bounds p' m H0' Hm) as [Hlo' [Elo' Hg']].
  assert (Hfl : (Qfloor p <= Qfloor p')%Z) by (now apply Qfloor_resp_le).
  destruct (Z.eq_dec (Qfloor p) (Qfloor p')) as [E|N].
  - unfold at_rank. rewrite <- E.
    assert (Hab : (nth (Z.to_nat (Qfloor p)) (sort_values xs) 0
                   <= nth (Nat.min (Z.to_nat (Qfloor p) + 1) m)
                        (sort_values xs) 0)%Q).
    { apply sort_values_nth; lia. }
    rewrite <- E in Hg'. revert Hab Hg Hg'.
    generalize (nth (Z.to_nat (Qfloor p)) (sort_values xs) 0%Q)
      (nth (Nat.min (Z.to_nat (Qfloor p) + 1) m) (sort_values xs) 0%Q)
      (inject_Z (Qfloor p)).
    intros a b f Hab Hg Hg'. nra.
  - assert (Hmid : (nth (Nat.min (Z.to_nat (Qfloor p) + 1) m) (sort_values xs) 0
                    <= nth (Z.to_nat (Qfloor p')) (sort_values xs) 0)%Q).
    { apply sort_values_nth; [|lia].
      assert (Z.to_nat (Qfloor p) < Z.to_nat (Qfloor p')).
      { assert (0 <= Qfloor p)%Z.
        { change 0%Z with (Qfloor 0). now apply Qfloor_resp_le. }
        lia. }
      lia. }
    lra.
Qed.

(** The first quartile is at most the third. *)
Lemma quartiles_ordered (xs : list Q) (q1 q3 : Q) :
  quantile_of (1 # 4) xs = Some q1 ->
  quantile_of (3 # 4) xs = Some q3 ->
  (q1 <= q3)%Q.
Proof.
  intros H1 H3. destruct (List.length xs) as [|m] eqn:L.
  - unfold quantile_of, sort_values in H1. rewrite isort_length, L in H1.
    discriminate.
  - destruct (quantile_of_at_rank (1 # 4) xs m L) as [v1 [E1 V1]].
    destruct (quantile_of_at_rank (3 # 4) xs m L) as [v3 [E3 V3]].
    rewrite H1 in E1. rewrite H3 in E3.
    injection E1 as <-. injection E3 as <-. rewrite V1, V3.
    assert (Hm : (0 <= inject_Z (Z.of_nat m))%Q).
    { change 0%Q with (inject_Z 0). rewrite <- Zle_Qle. lia. }
    apply at_rank_monotone; [exact L| | |]; lra.
Qed.

(* ================================================================== *)
(** ** Outlier capper *)

Lemma clip_value_spec (lower upper x : Q) :
  (lower <= upper)%Q ->
  capped_cell lower upper (Some x)
    (Some (clip_value (Some lower) (Some upper) x))
  /\ (lower <= clip_value (Some lower) (Some upper) x <= upper)%Q.
Proof.
  intros Hlu. unfold clip_value, below, above, fgt, capped_cell.
  destruct (Qlt_bool x lower) eqn:E1.
  - apply Qlt_bool_iff in E1. split; [|lra].
    split; [reflexivity|]. split; intros; lra.
  - apply Qlt_bool_false_iff in E1.
    destruct (Qlt_bool upper x) eqn:E2.
    + apply Qlt_bool_iff in E2. split; [|lra].
      split; [intros; lra|]. split; [reflexivity|intros; lra].
    + apply Qlt_bool_false_iff in E2. split; [|lra].
      split; [intros; lra|]. split; [intros; lra|reflexivity].
Qed.

Lemma clip_cells_spec (lower upper : Q) (xs : list (option Q)) :
  (lower <= upper)%Q ->
  let ys := map (option_map (clip_value (Some lower) (Some upper))) xs in
  Forall2 (capped_cell lower upper) xs ys
  /\ Forall (fun y => (lower <= y <= upper)%Q) (present ys).
Proof.
  intros Hlu. cbv zeta.
  induction xs as [|[x|] xs [IH1 IH2]]; simpl.
  - split; constructor.
  - destruct (clip_value_spec lower upper x Hlu) as [H1 H2].
    split; constructor; assumption.
  - split; [constructor; [exact I|assumption]|assumption].
Qed.

Lemma clip_cells_inside (lo hi : float) (xs : list (option Q)) :
  List.length (filter (fun x => below lo x || above hi x) (present xs)) = 0 ->
  map (option_map (clip_value lo hi)) xs = xs.
Proof.
  induction xs as [|[x|] xs IH]; simpl; intros H.
  - reflexivity.
  - destruct (below lo x || above hi x) eqn:E; [discriminate|].
    apply orb_false_iff in E. destruct E as [E1 E2].
    rewrite (IH H). unfold clip_value. now rewrite E1, E2.
  - now rewrite IH.
Qed.

Lemma fences_defined (k : numkind) (xs : list (option Q)) (q1 q3 : Q) :
  quantile (1 # 4) (NumSeries k xs) = Some q1 ->
  quantile (3 # 4) (NumSeries k xs) = Some q3 ->
  exists lower upper,
    fences (NumSeries k xs) = (Some lower, Some upper)
    /\ (lower == q1 - (3 # 2) * (q3 - q1))%Q
    /\ (upper == q3 + (3 # 2) * (q3 - q1))%Q
    /\ (lower <= upper)%Q.
Proof.
  intros H1 H3. unfold fences. rewrite H1, H3. simpl fsub. simpl fadd.
  eexists. eexists. split; [reflexivity|].
  pose proof (quartiles_ordered (present xs) q1 q3 H1 H3) as Hq.
  assert (E1 : (Qred (q1 - Qred ((3 # 2) * Qred (q3 - q1)))
                == q1 - (3 # 2) * (q3 - q1))%Q)
    by (now rewrite !Qred_correct).
  assert (E3 : (Qred (q3 + Qred ((3 # 2) * Qred (q3 - q1)))
                == q3 + (3 # 2) * (q3 - q1))%Q)
    by (now rewrite !Qred_correct).
  split; [exact E1|]. split; [exact E3|]. rewrite E1, E3. lra.
Qed.







(* ================================================================== *)
(** ** Doubles that are rounded to themselves *)















(* ================================================================== *)
(** ** The order of Python values *)

Lemma string_leb_refl (s : string) : String.leb s s = true.
Proof.
  destruct (String.leb_total s s); assumption.
Qed.

Lemma ascii_compare_lt_trans (x y z : ascii) :
  Ascii.compare x y = Lt -> Ascii.compare y z = Lt -> Ascii.compare x z = Lt.
Proof.
  unfold Ascii.compare. rewrite !N.compare_lt_iff. apply N.lt_trans.
Qed.

Lemma string_leb_trans (s : string) : forall t u,
  String.leb s t = true -> String.leb t u = true -> String.leb s u = true.
Proof.
  unfold String.leb.
  induction s as [|x s IH]; intros [|y t] [|z u]; simpl; try congruence;
    try reflexivity.
  destruct (Ascii.compare x y) eqn:Exy; try discriminate.
  - apply Ascii.compare_eq_iff in Exy. subst y.
    destruct (Ascii.compare x z) eqn:Exz; try congruence.
    apply IH.
  - destruct (Ascii.compare y z) eqn:Eyz; try discriminate.
    + apply Ascii.compare_eq_iff in Eyz. subst z. now rewrite Exy.
    + now rewrite (ascii_compare_lt_trans x y z Exy Eyz).
Qed.

Lemma py_leb_total (a b : pyobj) : py_leb a b = true \/ py_leb b a = true.
Proof.
  destruct a as [s|q|x], b as [t|r|y]; simpl; auto;
    try apply String.leb_total; apply Qle_bool_total.
Qed.

Lemma py_leb_trans (a b c : pyobj) :
  py_leb a b = true -> py_leb b c = true -> py_leb a c = true.
Proof.
  destruct a as [s|q|x], b as [t|r|y], c as [u|p|z]; simpl;
    try discriminate; try reflexivity;
    try apply string_leb_trans; apply Qle_bool_trans.
Qed.

Lemma py_eqb_leb (a b : pyobj) : py_eqb a b = true -> py_leb a b = true.
Proof.
  destruct a as [s|q|x], b as [t|r|y]; simpl; try discriminate;
    try (rewrite Qeq_bool_iff, Qle_bool_iff; intros H; rewrite H; lra).
  rewrite String.eqb_eq. intros ->. apply string_leb_refl.
Qed.

Lemma py_leb_antisym (a b : pyobj) :
  py_leb a b = true -> py_leb b a = true -> py_eqb a b = true.
Proof.
  destruct a as [s|q|x], b as [t|r|y]; simpl; try discriminate;
    try (rewrite Qeq_bool_iff, !Qle_bool_iff; intros; lra).
  intros H1 H2. apply String.eqb_eq. now apply String.leb_antisym.
Qed.

Lemma py_eqb_str (s : string) (v : pyobj) :
  py_eqb (PStr s) v = true -> v = PStr s.
Proof.
  destruct v; simpl; try discriminate. rewrite String.eqb_eq. congruence.
Qed.

Lemma py_comparable_eqb (a a' b b' : pyobj) :
  py_eqb a a' = true -> py_eqb b b' = true ->
  py_comparable a b = py_comparable a' b'.
Proof.
  destruct a, a', b, b'; simpl; try discriminate; reflexivity.
Qed.

(* ================================================================== *)
(** ** Most frequent values *)

Section Modes.
Context {A : Type}.
Variables (eqb leb : A -> A -> bool).
Hypothesis eqb_refl : forall x, eqb x x = true.
Hypothesis eqb_sym : forall x y, eqb x y = eqb y x.
Hypothesis eqb_trans : forall x y z,
  eqb x y = true -> eqb y z = true -> eqb x z = true.

Lemma count_eqb (x y : A) (l : list A) :
  eqb x y = true -> count eqb x l = count eqb y l.
Proof.
  intros E. unfold count. f_equal. apply filter_ext. intros z.
  destruct (eqb x z) eqn:Exz, (eqb y z) eqn:Eyz; try reflexivity.
  - rewrite eqb_sym in E. rewrite (eqb_trans y x z E Exz) in Eyz. discriminate.
  - rewrite (eqb_trans x y z E Eyz) in Exz. discriminate.
Qed.

Lemma count_perm (x : A) (l l' : list A) :
  Permutation l l' -> count eqb x l = count eqb x l'.
Proof.
  intros P. unfold count. induction P; simpl.
  - reflexivity.
  - destruct (eqb x x0); simpl; congruence.
  - destruct (eqb x y), (eqb x x0); reflexivity.
  - congruence.
Qed.

Lemma max_over_ge (l0 l : list A) (x : A) :
  In x l -> count eqb x l0 <= max_over eqb l0 l.
Proof.
  induction l as [|y l IH]; simpl; intros H; [tauto|].
  destruct H as [->|H]; [lia|]. specialize (IH H). lia.
Qed.

Lemma max_over_attained (l0 l : list A) :
  l <> [] -> exists x, In x l /\ count eqb x l0 = max_over eqb l0 l.
Proof.
  induction l as [|y l IH]; intros H; [now elim H|]. simpl.
  destruct l as [|z l].
  - exists y. split; [now left|]. simpl. lia.
  - destruct IH as [x [Hx Ex]]; [discriminate|].
    destruct (Nat.le_gt_cases (max_over eqb l0 (z :: l)) (count eqb y l0)).
    + exists y. split; [now left|]. lia.
    + exists x. split; [now right|]. lia.
Qed.

Lemma max_over_perm (l0 l0' l l' : list A) :
  Permutation l0 l0' -> Permutation l l' ->
  max_over eqb l0 l = max_over eqb l0' l'.
Proof.
  intros P0 P. induction P; simpl.
  - reflexivity.
  - rewrite IHP. now rewrite (count_perm x l0 l0' P0).
  - rewrite (count_perm x l0 l0' P0), (count_perm y l0 l0' P0).
    assert (E : max_over eqb l0 l = max_over eqb l0' l).
    { clear -P0. induction l as [|z l IH]; simpl; [reflexivity|].
      now rewrite IH, (count_perm z l0 l0' P0). }
    rewrite E. lia.
  - rewrite IHP1. rewrite <- IHP2.
    clear -P0. induction l' as [|z l IH]; simpl; [reflexivity|].
    now rewrite IH, (count_perm z l0 l0' P0).
Qed.

Lemma max_count_perm (l l' : list A) :
  Permutation l l' -> max_count eqb l = max_count eqb l'.
Proof. intros P. apply (max_over_perm l l' l l' P P). Qed.

(** What the modes are: the first occurrences whose count is largest. *)
Lemma modes_unsorted_In (l : list A) (x : A) :
  In x (modes_unsorted eqb l) ->
  In x l /\ count eqb x l = max_count eqb l.
Proof.
  unfold modes_unsorted. intros H. apply filter_In in H.
  destruct H as [H1 H2]. split.
  - eapply nub_from_In; eassumption.
  - now apply Nat.eqb_eq.
Qed.

Lemma modes_unsorted_complete (l : list A) (x : A) :
  In x l -> count eqb x l = max_count eqb l ->
  exists z, In z (modes_unsorted eqb l) /\ eqb x z = true.
Proof.
  intros Hx Hc.
  destruct (nub_complete eqb eqb_refl eqb_trans l x Hx) as [z [Hz Ez]].
  exists z. split; [|exact Ez]. unfold modes_unsorted.
  apply filter_In. split; [exact Hz|]. apply Nat.eqb_eq.
  now rewrite <- (count_eqb x z l Ez).
Qed.

Lemma modes_unsorted_nonempty (l : list A) :
  l <> [] -> modes_unsorted eqb l <> [].
Proof.
  intros H. destruct (max_over_attained l l H) as [x [Hx Ex]].
  destruct (modes_unsorted_complete l x Hx Ex) as [z [Hz _]].
  intro E. rewrite E in Hz. contradiction.
Qed.

Hypothesis leb_total : forall x y, leb x y = true \/ leb y x = true.
Hypothesis leb_trans : forall x y z,
  leb x y = true -> leb y z = true -> leb x z = true.
Hypothesis eqb_leb : forall x y, eqb x y = true -> leb x y = true.
Hypothesis leb_antisym : forall x y,
  leb x y = true -> leb y x = true -> eqb x y = true.

(** The head of the sorted list is a least element. *)
Lemma isort_head (l : list A) :
  l <> [] ->
  exists v, hd_error (isort leb l) = Some v
            /\ In v l /\ forall w, In w l -> leb v w = true.
Proof.
  intros H.
  pose proof (isort_ascending leb leb_total leb_trans l) as Asc.
  pose proof (isort_In leb l) as HIn.
  destruct (isort leb l) as [|v s] eqn:E.
  - destruct l as [|x l]; [now elim H|].
    specialize (HIn x). simpl in HIn. tauto.
  - exists v. split; [reflexivity|]. split.
    + apply HIn. now left.
    + intros w Hw. apply HIn in Hw. destruct Hw as [<-|Hw].
      * destruct (leb_total v v); assumption.
      * simpl in Asc. now apply Asc.
Qed.

Lemma sorted_modes_head (l : list A) :
  l <> [] ->
  exists v, hd_error (isort leb (modes_unsorted eqb l)) = Some v
            /\ least_mode eqb leb l v.
Proof.
  intros H.
  destruct (isort_head (modes_unsorted eqb l) (modes_unsorted_nonempty l H))
    as [v [E [Hv Hmin]]].
  exists v. split; [exact E|].
  destruct (modes_unsorted_In l v Hv) as [H1 H2].
  split; [exact H1|]. split; [exact H2|].
  intros w Hw Hc.
  destruct (modes_unsorted_complete l w Hw Hc) as [z [Hz Ez]].
  apply leb_trans with z; [now apply Hmin|].
  apply eqb_leb. now rewrite eqb_sym.
Qed.

(** The least mode does not depend on the order of the elements. *)
Lemma least_mode_perm (l l' : list A) (v v' : A) :
  Permutation l l' -> least_mode eqb leb l v -> least_mode eqb leb l' v' ->
  eqb v v' = true.
Proof.
  intros P [H1 [H2 H3]] [H1' [H2' H3']].
  apply leb_antisym.
  - apply H3.
    + eapply Permutation_in; [apply Permutation_sym; exact P|exact H1'].
    + now rewrite (count_perm v' l l' P), (max_count_perm l l' P).
  - apply H3'.
    + eapply Permutation_in; [exact P|exact H1].
    + now rewrite <- (count_perm v l l' P), <- (max_count_perm l l' P).
Qed.
End Modes.

(* ================================================================== *)
(** ** Cell imputation *)

Lemma present_perm {A : Type} (l l' : list (option A)) :
  Permutation l l' -> Permutation (present l) (present l').
Proof.
  induction 1 as [|[x|] l l' P IH|[x|] [y|] l|l l' l'' P1 IH1 P2 IH2]; simpl;
    try (constructor; assumption); try apply Permutation_refl.
  - assumption.
  - eapply Permutation_trans; eassumption.
Qed.

Lemma sortable_spec (l : list pyobj) :
  sortable l = true <->
  forall a b, In a l -> In b l -> py_comparable a b = true.
Proof.
  unfold sortable. rewrite forallb_forall. split.
  - intros H a b Ha Hb. specialize (H a Ha). rewrite forallb_forall in H.
    now apply H.
  - intros H a Ha. apply forallb_forall. intros b Hb. now apply H.
Qed.

Lemma sortable_modes_perm (l l' : list pyobj) :
  Permutation l l' ->
  sortable (modes_unsorted py_eqb l) = true ->
  sortable (modes_unsorted py_eqb l') = true.
Proof.
  intros P H. rewrite sortable_spec in *. intros a' b' Ha Hb.
  assert (R : forall x', In x' (modes_unsorted py_eqb l') ->
            exists x, In x (modes_unsorted py_eqb l) /\ py_eqb x x' = true).
  { intros x' Hx. apply modes_unsorted_In in Hx. destruct Hx as [H1 H2].
    destruct (modes_unsorted_complete py_eqb py_eqb_refl py_eqb_sym
                py_eqb_trans l x') as [x [Hx Ex]].
    - eapply Permutation_in; [apply Permutation_sym; exact P|exact H1].
    - now rewrite (count_perm py_eqb x' l l' P),
        (max_count_perm py_eqb l l' P).
    - exists x. split; [exact Hx|]. now rewrite py_eqb_sym. }
  destruct (R a' Ha) as [a [Ha1 Ea]]. destruct (R b' Hb) as [b [Hb1 Eb]].
  rewrite <- (py_comparable_eqb a a' b b' Ea Eb). now apply H.
Qed.

(** The head of the modes of a list with a value, when they can be sorted,
    is the least mode. *)
Lemma mode_of_head (l : list pyobj) :
  l <> [] -> sortable (modes_unsorted py_eqb l) = true ->
  exists v rest, mode_of l = v :: rest /\ least_mode py_eqb py_leb l v.
Proof.
  intros Hl Hs. unfold mode_of. rewrite Hs.
  destruct (sorted_modes_head py_eqb py_leb py_eqb_refl py_eqb_sym py_eqb_trans
              py_leb_total py_leb_trans py_eqb_leb l Hl) as [v [E L]].
  destruct (isort py_leb (modes_unsorted py_eqb l)) as [|v0 rest];
    [discriminate|].
  injection E as ->. eauto.
Qed.

(** Whatever the order of the modes, the first of them is a most frequent
    value of the list. *)
Lemma mode_of_most_frequent (l : list pyobj) (v : pyobj) (rest : list pyobj) :
  mode_of l = v :: rest ->
  In v l /\ count py_eqb v l = max_count py_eqb l
  /\ forall w, In w l -> count py_eqb w l <= count py_eqb v l.
Proof.
  intros E.
  assert (Hv : In v (modes_unsorted py_eqb l)).
  { unfold mode_of in E.
    destruct (sortable (modes_unsorted py_eqb l)).
    - apply (isort_In py_leb). rewrite E. now left.
    - rewrite E. now left. }
  apply modes_unsorted_In in Hv. destruct Hv as [H1 H2].
  split; [exact H1|]. split; [exact H2|].
  intros w Hw. rewrite H2.
  change (max_count py_eqb l) with (max_over py_eqb l l).
  now apply (max_over_ge py_eqb py_leb).
Qed.

Lemma mode_of_empty (l : list pyobj) : l = [] -> mode_of l = [].
Proof. intros ->. reflexivity. Qed.

Lemma mode_of_nonempty (l : list pyobj) : l <> [] -> mode_of l <> [].
Proof.
  intros H. unfold mode_of.
  pose proof (modes_unsorted_nonempty py_eqb py_eqb_refl py_eqb_sym
                py_eqb_trans l H) as N.
  destruct (sortable (modes_unsorted py_eqb l)); [|exact N].
  intro E. apply N.
  destruct (modes_unsorted py_eqb l) as [|x ms]; [reflexivity|].
  assert (In x (isort py_leb (x :: ms)))
    by (apply (isort_In py_leb); now left).
  rewrite E in H0. contradiction.
Qed.

(** C3, as stated, fails on a numeric column whose storage type is neither
    [int64] nor [float64]: its missing cell is filled with the most frequent
    value, 1, and not with the median, 3. *)
Lemma C3_counterexample :
  is_number (dtype_of c3_column) = true
  /\ null_count c3_column = 1
  /\ median c3_column = Some 3%Q
  /\ fill_column c3_column
     = NumSeries float32 [Some 1%Q; Some 1%Q; Some 5%Q; Some 9%Q; Some 1%Q].
Proof. repeat split; vm_compute; reflexivity. Qed.

(** What the cell imputation pass does: a column with a missing cell is
    filled as follows.  When its storage type is [int64] or [float64] and
    it holds a value, every missing cell receives the median of the values
    present.  When its storage type is any other one, other numeric widths
    included, every missing cell receives a most frequent value present, or
    the text "Unknown" when no value is present.  The other cells are
    left as they are. *)
Theorem C3_cell_imputation (s : Series) :
  0 < null_count s ->
  (dtype_in_int64_float64 (dtype_of s) = true -> has_value s ->
     exists k xs m,
       s = NumSeries k xs /\ (k = int64 \/ k = float64)
       /\ median_of (present xs) = Some m
       /\ fill_column s = NumSeries k (fill m xs))
  /\ (dtype_in_int64_float64 (dtype_of s) = false -> has_value s ->
      exists v,
        cells (fill_column s) = fill v (cells s)
        /\ In v (present (cells s))
        /\ count py_eqb v (present (cells s))
           = max_count py_eqb (present (cells s))
        /\ forall w, In w (present (cells s)) ->
             count py_eqb w (present (cells s))
             <= count py_eqb v (present (cells s)))
  /\ (dtype_in_int64_float64 (dtype_of s) = false -> ~ has_value s ->
      cells (fill_column s) = fill (PStr "Unknown") (cells s)).
Proof.
  intros Hn.
  assert (E : fill_column s = fillna (fill_value s) s).
  { unfold fill_column. apply Nat.ltb_lt in Hn. now rewrite Hn. }
  split; [|split].
  - intros D Hv. destruct (dtype_in_numeric s D) as [k [xs [-> Hk]]].
    apply has_value_num in Hv.
    destruct (median_of_defined (present xs) Hv) as [m Hm].
    exists k, xs, m. split; [reflexivity|]. split; [exact Hk|].
    split; [exact Hm|]. rewrite E. unfold fill_value. rewrite D.
    simpl. rewrite Hm. reflexivity.
  - intros D Hv. rewrite E. unfold fill_value. rewrite D. unfold mode.
    destruct (mode_of (present (cells s))) as [|v rest] eqn:M.
    + elim (mode_of_nonempty _ Hv M).
    + exists v. split; [now apply fillna_cells|].
      exact (mode_of_most_frequent _ v rest M).
  - intros D Hv. rewrite E. unfold fill_value. rewrite D. unfold mode.
    unfold has_value in Hv.
    destruct (present (cells s)) as [|x l] eqn:P; [|elim Hv; discriminate].
    rewrite mode_of_empty by reflexivity. now apply fillna_cells.
Qed.

Lemma C3_witness :
  0 < null_count c3_column
  /\ exists v, cells (fill_column c3_column) = fill v (cells c3_column).
Proof.
  assert (H : 0 < null_count c3_column) by (vm_compute; lia).
  split; [exact H|].
  destruct (C3_cell_imputation c3_column H) as [_ [K _]].
  destruct K as [v [Hv _]]; [reflexivity|discriminate|].
  exists v. exact Hv.
Defined.

(* ================================================================== *)
(** ** Ties between most frequent values *)

(** C10, as stated, fails when a text and a number tie for most frequent:
    the modes cannot be sorted and are left in order of first appearance,
    so the fill value is the tied value met first and changes with the order
    of the rows. *)
Lemma C10_counterexample :
  Permutation (cells c10_mixed) (cells c10_mixed_reordered)
  /\ dtype_in_int64_float64 (dtype_of c10_mixed) = false
  /\ dtype_in_int64_float64 (dtype_of c10_mixed_reordered) = false
  /\ mode c10_mixed = [PStr "a"; PNum 1]
  /\ mode c10_mixed_reordered = [PNum 1; PStr "a"]
  /\ fill_column c10_mixed
     = ObjSeries [Some (PStr "a"); Some (PNum 1); Some (PStr "a")]
  /\ fill_column c10_mixed_reordered
     = ObjSeries [Some (PNum 1); Some (PStr "a"); Some (PNum 1)].
Proof.
  split; [|repeat split; reflexivity].
  simpl. apply perm_swap.
Qed.

(** C10, amended. When the missing cells of a column that is not filled
    with its median are filled: if the most frequent values present can be
    compared with each other, the fill value is the least of them, a most
    frequent value below every most frequent value, and the same column
    with its rows in any other order receives an equal fill value (the same
    text, for text); if they cannot be compared, the fill value is the most
    frequent value met first.  With "b" met before "a" and both present
    twice, the fill value is "a". *)
Theorem C10_mode_tie_break (s s' : Series) :
  dtype_in_int64_float64 (dtype_of s) = false ->
  dtype_in_int64_float64 (dtype_of s') = false ->
  has_value s ->
  Permutation (cells s) (cells s') ->
  (sortable (modes_unsorted py_eqb (present (cells s))) = true ->
   exists v v',
      fill_value s = Some v /\ fill_value s' = Some v'
      /\ least_mode py_eqb py_leb (present (cells s)) v
      /\ py_eqb v v' = true
      /\ (forall t, v = PStr t -> v' = v))
  /\ (sortable (modes_unsorted py_eqb (present (cells s))) = false ->
      fill_value s = hd_error (modes_unsorted py_eqb (present (cells s))))
  /\ fill_column c10_column
     = ObjSeries [Some (PStr "b"); Some (PStr "a"); Some (PStr "b");
                  Some (PStr "a"); Some (PStr "a")].
Proof.
  intros D D' Hv P. split; [|split; [|reflexivity]].
  - intros Hs.
    pose proof (present_perm _ _ P) as PP.
    assert (Hv' : present (cells s') <> []).
    { intro E. rewrite E in PP. apply Permutation_sym in PP.
      apply Permutation_nil in PP. contradiction. }
    pose proof (sortable_modes_perm _ _ PP Hs) as Hs'.
    destruct (mode_of_head _ Hv Hs) as [v [rest [M L]]].
    destruct (mode_of_head _ Hv' Hs') as [v' [rest' [M' L']]].
    exists v, v'. unfold fill_value, mode. rewrite D, D', M, M'.
    split; [reflexivity|]. split; [reflexivity|]. split; [exact L|].
    assert (Ev : py_eqb v v' = true).
    { exact (least_mode_perm py_eqb py_leb py_leb_antisym _ _ v v' PP L L'). }
    split; [exact Ev|]. intros t ->. now apply py_eqb_str.
  - intros Hs. unfold fill_value, mode, mode_of. rewrite D, Hs.
    pose proof (modes_unsorted_nonempty py_eqb py_eqb_refl py_eqb_sym
                  py_eqb_trans _ Hv) as N.
    destruct (modes_unsorted py_eqb (present (cells s))) as [|v ms];
      [now elim N|reflexivity].
Qed.

Lemma C10_witness :
  fill_value c10_column = Some (PStr "a")
  /\ exists v', fill_value c10_reordered = Some v'
                /\ py_eqb (PStr "a") v' = true.
Proof.
  split; [reflexivity|].
  assert (P : Permutation (cells c10_column) (cells c10_reordered)).
  { simpl.
    apply Permutation_sym.
    apply (Permutation_trans
             (l' := [Some (PStr "a"); Some (PStr "a"); Some (PStr "b");
                     Some (PStr "b"); None])).
    - apply (Permutation_cons_append
               [Some (PStr "a"); Some (PStr "a"); Some (PStr "b");
                Some (PStr "b")] None).
    - apply (Permutation_trans
               (l' := [Some (PStr "b"); Some (PStr "a"); Some (PStr "a");
                       Some (PStr "b"); None])).
      + apply Permutation_sym.
        apply (Permutation_middle [Some (PStr "a"); Some (PStr "a")]
                 [Some (PStr "b"); None] (Some (PStr "b"))).
      + apply perm_skip. apply perm_skip. apply perm_swap. }
  destruct (proj1 (C10_mode_tie_break c10_column c10_reordered
                     eq_refl eq_refl
                     ltac:(discriminate) P) eq_refl)
    as [v [v' [E [E' [_ [Ev _]]]]]].
  exists v'. split; [exact E'|].
  assert (v = PStr "a") by (vm_compute in E; congruence).
  now subst v.
Defined.

(* ================================================================== *)
(** ** Normalised labels *)

Lemma lowered_not_upper (c : ascii) :
  Py.is_upper
    ((fun c => if Ascii.eqb c "-" then "_"%char else c)
       ((fun c => if Ascii.eqb c " " then "_"%char else c) (Py.lower_char c)))
  = false.
Proof. destruct c as [[] [] [] [] [] [] [] []]; reflexivity. Qed.

Lemma label_char_facts (c : ascii) :
  label_char c = true ->
  Py.is_space c = false /\ Py.lower_char c = c
  /\ Ascii.eqb c " " = false /\ Ascii.eqb c "-" = false
  /\ Py.is_word c = true.
Proof.
  destruct c as [[] [] [] [] [] [] [] []]; vm_compute; intros H;
    try discriminate; repeat split; reflexivity.
Qed.

Lemma all_chars_filter (p q : ascii -> bool) (s : string) :
  all_chars q s = true -> all_chars (fun c => p c && q c) (Py.filter_str p s) = true.
Proof.
  induction s as [|c s IH]; simpl; intros H; [reflexivity|].
  apply andb_true_iff in H. destruct H as [H1 H2].
  destruct (p c) eqn:E; simpl; [|now apply IH].
  now rewrite E, H1, IH.
Qed.

Lemma all_chars_map (f : ascii -> ascii) (q : ascii -> bool) (s : string) :
  (forall c, q (f c) = true) -> all_chars q (Py.map_str f s) = true.
Proof.
  intros H. induction s as [|c s IH]; simpl; [reflexivity|].
  now rewrite H, IH.
Qed.

Lemma map_str_map_str (f g : ascii -> ascii) (s : string) :
  Py.map_str f (Py.map_str g s) = Py.map_str (fun c => f (g c)) s.
Proof. induction s as [|c s IH]; simpl; congruence. Qed.

Lemma normalize_name_chars (s : string) :
  all_chars label_char (normalize_name s) = true.
Proof.
  unfold normalize_name, Py.re_sub_nonword, Py.replace, Py.lower, label_char.
  rewrite !map_str_map_str. apply all_chars_filter.
  apply all_chars_map. intros c. now rewrite lowered_not_upper.
Qed.

Lemma map_str_id (f : ascii -> ascii) (p : ascii -> bool) (s : string) :
  (forall c, p c = true -> f c = c) -> all_chars p s = true ->
  Py.map_str f s = s.
Proof.
  intros H. induction s as [|c s IH]; simpl; intros A; [reflexivity|].
  apply andb_true_iff in A. destruct A as [A1 A2].
  now rewrite (H c A1), (IH A2).
Qed.

Lemma filter_str_id (q p : ascii -> bool) (s : string) :
  (forall c, p c = true -> q c = true) -> all_chars p s = true ->
  Py.filter_str q s = s.
Proof.
  intros H. induction s as [|c s IH]; simpl; intros A; [reflexivity|].
  apply andb_true_iff in A. destruct A as [A1 A2].
  now rewrite (H c A1), (IH A2).
Qed.

Lemma strip_id (s : string) :
  all_chars label_char s = true -> Py.strip s = s.
Proof.
  intros A. unfold Py.strip.
  assert (L : Py.lstrip s = s).
  { destruct s as [|c s]; [reflexivity|]. simpl in *.
    apply andb_true_iff in A. destruct A as [A1 _].
    destruct (label_char_facts c A1) as [E _]. now rewrite E. }
  rewrite L. clear L. induction s as [|c s IH]; simpl in *; [reflexivity|].
  apply andb_true_iff in A. destruct A as [A1 A2].
  rewrite (IH A2). destruct (label_char_facts c A1) as [E _].
  destruct s; [now rewrite E|reflexivity].
Qed.

(** Normalising a normalised label gives it back. *)
Lemma normalize_name_idempotent (s : string) :
  normalize_name (normalize_name s) = normalize_name s.
Proof.
  pose proof (normalize_name_chars s) as A.
  revert A. generalize (normalize_name s). intros t A.
  unfold normalize_name. rewrite (strip_id t A).
  unfold Py.lower. rewrite (map_str_id Py.lower_char label_char t); [|
    intros c Hc; now destruct (label_char_facts c Hc) as [_ [E _]] | exact A].
  unfold Py.replace.
  rewrite (map_str_id _ label_char t); [|
    intros c Hc; destruct (label_char_facts c Hc) as [_ [_ [E _]]];
    now rewrite E | exact A].
  rewrite (map_str_id _ label_char t); [|
    intros c Hc; destruct (label_char_facts c Hc) as [_ [_ [_ [E _]]]];
    now rewrite E | exact A].
  unfold Py.re_sub_nonword.
  apply (filter_str_id Py.is_word label_char t); [|exact A].
  intros c Hc. now destruct (label_char_facts c Hc) as [_ [_ [_ [_ E]]]].
Qed.

Lemma combine_fst_snd {A B : Type} (l : list (A * B)) :
  combine (map fst l) (map snd l) = l.
Proof. induction l as [|[a b] l IH]; simpl; congruence. Qed.

Lemma columns_drop_pass_incl (df : DataFrame) (name : string) :
  In name (columns (fst (drop_pass df))) -> In name (columns df).
Proof.
  unfold columns. intros H. apply in_map_iff in H.
  destruct H as [c [<- Hc]]. apply drop_pass_kept in Hc.
  apply in_map. tauto.
Qed.

(** The labels of the cleaned frame are normalised, so that normalising
    them again changes nothing. *)
Lemma pipeline_normalized (raw : DataFrame) :
  normalize_columns (fst (pipeline raw)) = fst (pipeline raw).
Proof.
  assert (H : forall name, In name (columns (fst (pipeline raw))) ->
                normalize_name name = name).
  { intros name Hn. rewrite columns_pipeline in Hn.
    apply columns_drop_pass_incl in Hn. rewrite columns_normalize in Hn.
    apply in_map_iff in Hn. destruct Hn as [r [<- _]].
    apply normalize_name_idempotent. }
  destruct (fst (pipeline raw)) as [n l]. unfold normalize_columns, rename_columns, set_columns,
    columns in *. cbn [nrows cols] in *. f_equal.
  rewrite (map_ext_in _ (fun x => x) _ H), map_id.
  apply combine_fst_snd.
Qed.

(* ================================================================== *)
(** ** A second run of the pipeline *)

Lemma not_sparse_without_missing (n : nat) (c : string * Series) :
  null_count (snd c) = 0 -> sparse n c = false.
Proof.
  intros H. destruct (sparse n c) eqn:E; [|reflexivity].
  unfold sparse, missing_pct in E. apply ratio_gt_iff in E. lia.
Qed.

Lemma drop_pass_without_missing (df : DataFrame) :
  total_missing df = 0 -> drop_pass df = (df, [no_drop_record]).
Proof.
  intros H. apply total_missing_zero_inv in H. unfold drop_pass.
  replace (filter (sparse (nrows df)) (cols df)) with (@nil (string * Series));
    [reflexivity|].
  symmetry. induction H as [|c l Hc Hl IH]; simpl; [reflexivity|].
  now rewrite (not_sparse_without_missing _ c Hc).
Qed.

Lemma null_count_take (m : list bool) (s : Series) :
  null_count s = 0 -> null_count (take m s) = 0.
Proof.
  unfold null_count. rewrite cells_take. intros H.
  destruct (filter is_none (mask_filter m (cells s))) as [|x l] eqn:E;
    [reflexivity|].
  assert (Hx : In x (filter is_none (mask_filter m (cells s))))
    by (rewrite E; now left).
  apply filter_In in Hx. destruct Hx as [Hx1 Hx2].
  apply mask_filter_In in Hx1.
  assert (In x (filter is_none (cells s))) by (apply filter_In; auto).
  destruct (filter is_none (cells s)); [contradiction|discriminate].
Qed.

Lemma drop_duplicates_without_missing (df : DataFrame) :
  total_missing df = 0 -> total_missing (drop_duplicates df) = 0.
Proof.
  intros H. unfold drop_duplicates. destruct (empty df); [exact H|].
  apply total_missing_zero_inv in H. apply total_missing_zero.
  cbn [cols]. apply Forall_map. cbn [snd].
  eapply Forall_impl; [|exact H]. intros c. apply null_count_take.
Qed.

Lemma fill_pass_without_missing (df : DataFrame) :
  total_missing df = 0 -> fill_pass df = (df, [no_fill_record]).
Proof.
  intros H. unfold fill_pass. rewrite H. cbn [Nat.eqb].
  apply total_missing_zero_inv in H.
  assert (E1 : map (fun c => (fst c, fill_column (snd c))) (cols df) = cols df).
  { induction H as [|c l Hc Hl IH]; simpl; [reflexivity|].
    rewrite IH. unfold fill_column. rewrite Hc. now destruct c. }
  assert (E2 : flat_map fill_records (cols df) = []).
  { clear E1. induction H as [|c l Hc Hl IH]; simpl; [reflexivity|].
    rewrite IH. unfold fill_records. rewrite Hc. reflexivity. }
  rewrite E1, E2. now destruct df.
Qed.

(** C8, as stated, fails.  Capping moves the quartiles, so a second run can
    cap again: the column [0, 100, 100, 100] is capped to 37.5 by the first
    run and to 60.9375 by the second.  And rows that became identical by
    imputation in the first run are removed as duplicates by the second. *)
Lemma C8_counterexample :
  fst (pipeline c8_frame) = c8_once
  /\ pipeline c8_once
     = (c8_twice,
        ["Standardized 2 column names";
         "No columns dropped (all below 95% missing threshold)";
         "No duplicate rows found";
         "No missing values to fill";
         "Capped 1 outliers in 'x'";
         "Cleaning complete: (4, 2) -> (4, 2)"])
  /\ clean_data (loaded c8_once)
     = Ok (tt, mkState c8_once c8_twice
                 (map (String.append bullet) (snd (pipeline c8_once))))
  /\ fst (pipeline c1_frame) = c8_filled
  /\ snd (pipeline c8_filled)
     = ["Standardized 2 column names";
        "No columns dropped (all below 95% missing threshold)";
        "Removed 1 duplicate rows";
        "No missing values to fill";
        "No outliers detected in numeric columns";
        "Cleaning complete: (2, 2) -> (1, 2)"].
Proof. repeat split; vm_compute; reflexivity. Qed.

(** C8, amended. On a frame whose normalised labels are pairwise distinct
    and whose cleaned frame has no missing cell left, a second run of
    [clean_data] on the cleaned frame of the first run ends normally,
    renames no column, drops no column and fills no cell: its log is the
    record of the normalizer, the record that no column was dropped, the
    record of the duplicate eliminator, the record that no missing value was
    to fill, the records of the outlier capper and the shape record. *)
Theorem C8_second_run (raw : DataFrame) :
  NoDup (map normalize_name (columns raw)) ->
  total_missing (fst (pipeline raw)) = 0 ->
  let out := fst (pipeline raw) in
  let deduped := drop_duplicates out in
  clean_data (loaded out)
  = Ok (tt,
        mkState out (fst (cap_pass deduped))
          (map (String.append bullet)
             ([normalize_record out; no_drop_record;
               duplicates_record (nrows out) (nrows deduped);
               no_fill_record]
              ++ snd (cap_pass deduped)
              ++ [complete_record out (fst (cap_pass deduped))])))
  /\ normalize_columns out = out
  /\ drop_pass out = (out, [no_drop_record])
  /\ fill_pass deduped = (deduped, [no_fill_record]).
Proof.
  intros ND M. cbv zeta.
  pose proof (pipeline_normalized raw) as N.
  pose proof (NoDup_columns_pipeline raw ND) as ND'.
  set (out := fst (pipeline raw)) in *.
  pose proof (drop_pass_without_missing out M) as D.
  pose proof (fill_pass_without_missing _ (drop_duplicates_without_missing out M))
    as F.
  split; [|split; [exact N|split; [exact D|exact F]]].
  assert (ND2 : NoDup (map normalize_name (columns out))).
  { rewrite <- columns_normalize, N. exact ND'. }
  rewrite (clean_data_run out ND2). unfold pipeline, pipeline_with; fold_normalize.
  rewrite N, D. unfold duplicates_pass. rewrite F.
  destruct (cap_pass (drop_duplicates out)) as [d5 log5]. reflexivity.
Qed.

Lemma C8_witness :
  NoDup (map normalize_name (columns c8_frame))
  /\ total_missing (fst (pipeline c8_frame)) = 0
  /\ drop_pass (fst (pipeline c8_frame))
     = (fst (pipeline c8_frame), [no_drop_record]).
Proof.
  assert (H1 : NoDup (map normalize_name (columns c8_frame))).
  { repeat constructor; simpl; intuition discriminate. }
  assert (H2 : total_missing (fst (pipeline c8_frame)) = 0) by reflexivity.
  split; [exact H1|]. split; [exact H2|].
  exact (proj1 (proj2 (proj2 (C8_second_run c8_frame H1 H2)))).
Defined.

(* ================================================================== *)
(** * Further properties of the code *)

(* ================================================================== *)
(** ** The column normalizer *)

Lemma label_char_classes (c : ascii) :
  label_char c = Py.is_lower c || Py.is_digit c || Ascii.eqb c "_"%char.
Proof. destruct c as [[] [] [] [] [] [] [] []]; reflexivity. Qed.

Lemma all_chars_ext (p q : ascii -> bool) (s : string) :
  (forall c, p c = q c) -> all_chars p s = all_chars q s.
Proof.
  intros H. induction s as [|c s IH]; simpl; [reflexivity|].
  now rewrite H, IH.
Qed.

Lemma length_map_str (f : ascii -> ascii) (s : string) :
  String.length (Py.map_str f s) = String.length s.
Proof. induction s as [|c s IH]; simpl; congruence. Qed.

Lemma length_filter_str (p : ascii -> bool) (s : string) :
  String.length (Py.filter_str p s) <= String.length s.
Proof.
  induction s as [|c s IH]; simpl; [lia|]. destruct (p c); simpl; lia.
Qed.

Lemma length_lstrip (s : string) :
  String.length (Py.lstrip s) <= String.length s.
Proof.
  induction s as [|c s IH]; simpl; [lia|].
  destruct (Py.is_space c); simpl; lia.
Qed.

Lemma length_rstrip (s : string) :
  String.length (Py.rstrip s) <= String.length s.
Proof.
  induction s as [|c s IH]; simpl; [lia|].
  destruct (Py.rstrip s) as [|d t]; [destruct (Py.is_space c)|]; simpl in *; lia.
Qed.

(** X1. The normalised form of a label of ASCII characters consists of
    lower-case letters, digits and underscores only, is never longer than
    the label, and is its own normalised form. *)
Theorem normalize_name_canonical (col : string) :
  ascii_label col = true ->
  all_chars (fun c => Py.is_lower c || Py.is_digit c || Ascii.eqb c "_"%char)
    (normalize_name col) = true
  /\ String.length (normalize_name col) <= String.length col
  /\ normalize_name (normalize_name col) = normalize_name col.
Proof.
  intros _.
  split; [|split].
  - rewrite <- (all_chars_ext label_char _ _ label_char_classes).
    apply normalize_name_chars.
  - unfold normalize_name, Py.re_sub_nonword, Py.replace, Py.lower, Py.strip.
    eapply Nat.le_trans; [apply length_filter_str|].
    rewrite !length_map_str.
    eapply Nat.le_trans; [apply length_rstrip|apply length_lstrip].
  - apply normalize_name_idempotent.
Qed.

Lemma normalize_name_canonical_witness :
  ascii_label " Age-Years (2024) " = true
  /\ normalize_name " Age-Years (2024) " = "age_years_2024"
  /\ normalize_name (normalize_name " Age-Years (2024) ")
     = normalize_name " Age-Years (2024) ".
Proof.
  assert (H : ascii_label " Age-Years (2024) " = true) by reflexivity.
  split; [exact H|]. split; [reflexivity|].
  exact (proj2 (proj2 (normalize_name_canonical " Age-Years (2024) " H))).
Defined.

(* ================================================================== *)
(** ** Labels carried by several columns *)

Lemma label_count (l : list (string * Series)) (x : string) :
  List.length (filter (fun c => String.eqb (fst c) x) l)
  = count_occ string_dec (map fst l) x.
Proof.
  induction l as [|c l IH]; simpl; [reflexivity|].
  destruct (string_dec (fst c) x) as [E|N].
  - rewrite E, String.eqb_refl. simpl. now rewrite IH.
  - apply String.eqb_neq in N. now rewrite N.
Qed.

(** A frame in which every label selects one column has pairwise distinct
    labels. *)
Lemma all_columns_unique (df : DataFrame) :
  (forall x, In x (columns df) -> exists s, getitem df x = Column s) ->
  NoDup (columns df).
Proof.
  intros H. apply (NoDup_count_occ' string_dec). intros x Hx.
  destruct (H x Hx) as [s Hs]. unfold columns. rewrite <- label_count.
  unfold getitem in Hs.
  destruct (filter (fun c => String.eqb (fst c) x) (cols df)) as [|c [|c' l]];
    try discriminate. reflexivity.
Qed.

Lemma getitem_present (df : DataFrame) (x : string) :
  In x (columns df) -> getitem df x <> NoColumn.
Proof.
  intros Hx. unfold columns in Hx. apply in_map_iff in Hx.
  destruct Hx as [c [E Hc]]. unfold getitem.
  assert (Hin : In c (filter (fun c => String.eqb (fst c) x) (cols df))).
  { apply filter_In. split; [exact Hc|]. now apply String.eqb_eq. }
  destruct (filter (fun c => String.eqb (fst c) x) (cols df)) as [|c1 [|c2 l]];
    [contradiction|discriminate|discriminate].
Qed.

Section RaisingLoop.
Context {A : Type}.
Variables (e : exn) (df : DataFrame) (body : A -> string -> M A).
Variable inv : State -> Prop.
Hypothesis body_frame : forall acc x st ss,
  inv st -> getitem df x = Frame ss -> body acc x st = Raise e.
Hypothesis body_column : forall acc x st s,
  inv st -> getitem df x = Column s ->
  exists acc' st', body acc x st = Ok (acc', st') /\ inv st'.

(** A loop over labels of the frame raises as soon as it meets a label
    that selects several columns. *)
Lemma for_each_raises (l : list string) : forall acc st,
  inv st ->
  (forall x, In x l -> In x (columns df)) ->
  for_each l body acc st = Raise e
  \/ (forall x, In x l -> exists s, getitem df x = Column s).
Proof.
  induction l as [|x l IH]; intros acc st Hst Hin; simpl.
  - right. intros x [].
  - destruct (getitem df x) as [|s|ss] eqn:G.
    + elim (getitem_present df x (Hin x (or_introl eq_refl)) G).
    + destruct (body_column acc x st s Hst G) as [acc' [st' [E Hst']]].
      unfold bind. rewrite E.
      destruct (IH acc' st' Hst' (fun y Hy => Hin y (or_intror Hy))) as [R|C].
      * now left.
      * right. intros y [<-|Hy]; [eauto|now apply C].
    + left. unfold bind. now rewrite (body_frame acc x st ss Hst G).
Qed.
End RaisingLoop.

Lemma bind_raise {A B : Type} (m : M A) (k : A -> M B) (st : State) (e : exn) :
  m st = Raise e -> bind m k st = Raise e.
Proof. intros H. unfold bind. now rewrite H. Qed.

Lemma mark_sparse_column_frame (df : DataFrame) (acc : list string)
  (x : string) (st : State) (ss : list Series) :
  cleaned_data st = df -> getitem df x = Frame ss ->
  mark_sparse_column acc x st = Raise ValueError.
Proof.
  intros E G. unfold mark_sparse_column, bind, get_cleaned, series_at.
  now rewrite E, G.
Qed.

Lemma mark_sparse_column_column (df : DataFrame) (acc : list string)
  (x : string) (st : State) (s : Series) :
  cleaned_data st = df -> getitem df x = Column s ->
  exists acc' st', mark_sparse_column acc x st = Ok (acc', st')
                   /\ cleaned_data st' = df.
Proof.
  intros E G. unfold mark_sparse_column, bind, get_cleaned, series_at.
  rewrite E, G. unfold ret.
  destruct (fgt (true_divide (null_count s) (nrows df)) missing_threshold);
    unfold log_action; eexists; eexists; split; try reflexivity; exact E.
Qed.

Lemma clean_data_with_collision (norm : string -> string) (raw : DataFrame) :
  ~ NoDup (map norm (columns raw)) ->
  clean_data_with norm (loaded raw) = Raise ValueError.
Proof.
  intros N. rewrite <- columns_rename in N.
  unfold clean_data_with, loaded. do 6 run_step.
  fold (rename_columns norm raw).
  destruct (for_each_raises ValueError (rename_columns norm raw)
              mark_sparse_column
              (fun st => cleaned_data st = rename_columns norm raw)
              (mark_sparse_column_frame (rename_columns norm raw))
              (mark_sparse_column_column (rename_columns norm raw))
              (columns (rename_columns norm raw)) []
              (mkState raw (rename_columns norm raw)
                 ([] ++ [bullet +++ normalize_record raw]))
              eq_refl (fun x H => H)) as [E|C].
  - apply bind_raise. exact E.
  - elim N. now apply all_columns_unique.
Qed.

(** X3. Whatever the normalisation [norm] of a label that step 1 applies
    (Python's on labels of any script, which [normalize_name] computes on
    ASCII labels), [clean_data] ends normally exactly when the normalised
    labels of the raw frame are pairwise distinct; when two of them coincide
    it raises [ValueError]. *)
Theorem clean_data_raises_iff (norm : string -> string) (raw : DataFrame) :
  (NoDup (map norm (columns raw)) <->
   exists st, clean_data_with norm (loaded raw) = Ok (tt, st))
  /\ (~ NoDup (map norm (columns raw)) <->
      clean_data_with norm (loaded raw) = Raise ValueError).
Proof.
  split; split.
  - intros ND. eexists. apply (clean_data_with_run norm raw ND).
  - intros [st E].
    destruct (ListDec.NoDup_dec string_dec (map norm (columns raw)))
      as [ND|ND]; [exact ND|].
    rewrite (clean_data_with_collision norm raw ND) in E. discriminate.
  - apply clean_data_with_collision.
  - intros E ND. rewrite (clean_data_with_run norm raw ND) in E. discriminate.
Qed.

(** X14. [analyze_data] returns the summary exactly when the labels of the
    frame are pairwise distinct, leaving the pipeline object as it is; a
    label carried by several columns makes it raise [AttributeError]. *)
Theorem analyze_data_raises_iff (data : DataFrame) (st : State) :
  (NoDup (columns data) <-> analyze_data data st = Ok (summary data, st))
  /\ (~ NoDup (columns data) <-> analyze_data data st = Raise AttributeError).
Proof.
  assert (R : ~ NoDup (columns data) ->
              analyze_data data st = Raise AttributeError).
  { intros ND. unfold analyze_data.
    destruct (for_each_raises AttributeError data
                (fun d col =>
                   bind (series_at AttributeError data col)
                     (fun s => ret (dict_set col (missing_entry (nrows data) s) d)))
                (fun _ => True)) with (l := columns data) (acc := @nil (string * MissingEntry)) (st := st)
      as [E|C].
    - intros acc x st0 ss _ G. unfold bind, series_at. now rewrite G.
    - intros acc x st0 s _ G. unfold bind, series_at. rewrite G.
      unfold ret. eauto.
    - exact I.
    - auto.
    - apply bind_raise. exact E.
    - elim ND. now apply all_columns_unique. }
  split; split.
  - intros ND. now apply analyze_data_run.
  - intros E.
    destruct (ListDec.NoDup_dec string_dec (columns data)) as [ND|ND];
      [exact ND|].
    rewrite (R ND) in E. discriminate.
  - exact R.
  - intros E ND. rewrite (analyze_data_run data st ND) in E. discriminate.
Qed.

(* ================================================================== *)
(** ** [clean_data] on an object that already holds results *)

Lemma clean_data_run_from (st : State) :
  NoDup (map normalize_name (columns (raw_data st))) ->
  clean_data st
  = Ok (tt, mkState (raw_data st) (fst (pipeline (raw_data st)))
              (cleaning_log st
               ++ map (String.append bullet) (snd (pipeline (raw_data st))))).
Proof.
  destruct st as [raw old log0]. cbn [raw_data cleaning_log].
  intros ND. rewrite <- columns_normalize in ND.
  pose proof (columns_drop_pass _ ND) as ND2.
  unfold clean_data, clean_data_with. do 6 run_step.
  change (set_columns (map normalize_name (columns raw)) raw)
    with (normalize_columns raw).
  eapply bind_runs; [apply (drop_loop raw _ _ ND)|].
  unfold pipeline, pipeline_with; fold_normalize.
  assert (Hdrop :
    (match map fst (filter (sparse (nrows (normalize_columns raw)))
                      (cols (normalize_columns raw))) with
     | [] => log_action no_drop_record
     | _ :: _ => bind get_cleaned (fun d =>
         put_cleaned
           (drop (map fst (filter (sparse (nrows (normalize_columns raw)))
                             (cols (normalize_columns raw)))) d))
     end)
      (mkState raw (normalize_columns raw)
         ((log0 ++ [bullet +++ normalize_record raw])
          ++ map (String.append bullet)
               (map (drop_record (nrows (normalize_columns raw)))
                  (filter (sparse (nrows (normalize_columns raw)))
                     (cols (normalize_columns raw))))))
    = Ok (tt, mkState raw (fst (drop_pass (normalize_columns raw)))
                (log0 ++ map (String.append bullet)
                   ([normalize_record raw]
                    ++ snd (drop_pass (normalize_columns raw)))))).
  { unfold drop_pass.
    destruct (filter (sparse (nrows (normalize_columns raw)))
                (cols (normalize_columns raw))) as [|m ms];
      cbn [map fst snd app]; unfold log_action, bind, get_cleaned, put_cleaned;
      cbn [raw_data cleaned_data cleaning_log map app];
      rewrite <- ?app_assoc; reflexivity. }
  eapply bind_runs; [exact Hdrop|]. clear Hdrop.
  destruct (drop_pass (normalize_columns raw)) as [d2 log2].
  cbn [fst snd] in *.
  do 3 run_step.
  assert (Hdup : forall st,
    (if 0 <? nrows d2 - nrows (drop_duplicates d2)
     then log_action ("Removed "
                      +++ Py.str_nat (nrows d2 - nrows (drop_duplicates d2))
                      +++ " duplicate rows")
     else log_action "No duplicate rows found") st
    = log_action (duplicates_record (nrows d2) (nrows (drop_duplicates d2))) st).
  { intros st. unfold duplicates_record.
    now destruct (0 <? nrows d2 - nrows (drop_duplicates d2)). }
  eapply bind_runs; [rewrite Hdup; reflexivity|]. clear Hdup.
  cbn [raw_data cleaned_data cleaning_log].
  run_step.
  assert (ND3 : NoDup (columns (drop_duplicates d2)))
    by (now rewrite columns_drop_duplicates).
  eapply bind_runs; [apply (fill_loop raw _ _ ND3)|].
  unfold duplicates_pass.
  set (d3 := drop_duplicates d2) in *.
  assert (ND4 : NoDup (columns (fst (fill_pass d3))))
    by (now rewrite columns_fill_pass).
  eapply bind_runs with
    (st1 := mkState raw (fst (fill_pass d3))
              (log0 ++ map (String.append bullet)
                 ([normalize_record raw] ++ log2
                  ++ [duplicates_record (nrows d2) (nrows d3)]
                  ++ snd (fill_pass d3)))) (a := tt).
  { unfold fill_pass. cbn [fst snd].
    destruct (total_missing d3 =? 0); unfold log_action, ret;
      cbn [raw_data cleaned_data cleaning_log];
      rewrite ?map_app, <- ?app_assoc; cbn [map app];
      rewrite ?app_nil_r; reflexivity. }
  destruct (fill_pass d3) as [d4 log4]. cbn [fst snd] in *.
  run_step.
  destruct (cap_loop raw d4
              (log0 ++ map (String.append bullet)
                 ([normalize_record raw] ++ log2
                  ++ [duplicates_record (nrows d2) (nrows d3)] ++ log4)) ND4)
    as [total [Hloop Htotal]].
  eapply bind_runs; [exact Hloop|].
  eapply bind_runs with
    (st1 := mkState raw (fst (cap_pass d4))
              (log0 ++ map (String.append bullet)
                 ([normalize_record raw] ++ log2
                  ++ [duplicates_record (nrows d2) (nrows d3)] ++ log4
                  ++ snd (cap_pass d4)))) (a := tt).
  { unfold cap_pass. cbn [fst snd].
    destruct (total =? 0) eqn:Ht.
    - apply Nat.eqb_eq in Ht. apply Htotal in Ht. rewrite Ht.
      unfold log_action. cbn [raw_data cleaned_data cleaning_log].
      rewrite ?map_app, <- ?app_assoc. cbn [map app].
      rewrite ?app_nil_r. reflexivity.
    - apply Nat.eqb_neq in Ht.
      destruct (flat_map cap_records (cols d4)) as [|r rs] eqn:Hr.
      + elim Ht. now apply Htotal.
      + unfold ret. rewrite ?map_app, <- ?app_assoc. reflexivity. }
  destruct (cap_pass d4) as [d5 log5]. cbn [fst snd] in *.
  run_step. unfold log_action. cbn [raw_data cleaned_data cleaning_log].
  unfold complete_record.
  rewrite ?map_app, <- ?app_assoc. reflexivity.
Qed.

(** X4. Whatever the object holds, [clean_data] starts again from the raw
    frame: it leaves [raw_data] as it is, replaces [cleaned_data] by the
    result of the stages on the raw frame, and appends its records after the
    records already in the log.  Called twice in a row it therefore gives
    the same cleaned frame and logs the same records a second time. *)
Theorem clean_data_appends (st : State) :
  NoDup (map normalize_name (columns (raw_data st))) ->
  exists st1,
    clean_data st = Ok (tt, st1)
    /\ raw_data st1 = raw_data st
    /\ cleaned_data st1 = fst (pipeline (raw_data st))
    /\ cleaning_log st1
       = cleaning_log st
         ++ map (String.append bullet) (snd (pipeline (raw_data st)))
    /\ clean_data st1
       = Ok (tt, mkState (raw_data st) (cleaned_data st1)
                   (cleaning_log st1
                    ++ map (String.append bullet) (snd (pipeline (raw_data st))))).
Proof.
  intros ND. eexists. split; [apply (clean_data_run_from st ND)|].
  cbn [raw_data cleaned_data cleaning_log].
  split; [reflexivity|]. split; [reflexivity|]. split; [reflexivity|].
  apply (clean_data_run_from
           (mkState (raw_data st) (fst (pipeline (raw_data st)))
              (cleaning_log st
               ++ map (String.append bullet) (snd (pipeline (raw_data st)))))).
  exact ND.
Qed.

Lemma clean_data_appends_witness :
  NoDup (map normalize_name (columns x_raw))
  /\ exists st1,
       clean_data (mkState x_raw (mkDataFrame 0 []) ["earlier"]) = Ok (tt, st1)
       /\ raw_data st1 = x_raw
       /\ hd_error (cleaning_log st1) = Some "earlier".
Proof.
  assert (H : NoDup (map normalize_name (columns x_raw))).
  { repeat constructor; simpl; intuition discriminate. }
  split; [exact H|].
  destruct (clean_data_appends (mkState x_raw (mkDataFrame 0 []) ["earlier"]) H)
    as [st1 [E [R [_ [L _]]]]].
  exists st1. split; [exact E|]. split; [exact R|].
  rewrite L. reflexivity.
Defined.

(* ================================================================== *)
(** ** What the stages keep *)

Lemma Subseq_refl {A : Type} (l : list A) : Subseq l l.
Proof. induction l; constructor; assumption. Qed.

Lemma Subseq_filter {A : Type} (p : A -> bool) (l : list A) :
  Subseq (filter p l) l.
Proof.
  induction l as [|x l IH]; simpl; [constructor|].
  destruct (p x); constructor; assumption.
Qed.

Lemma Subseq_map {A B : Type} (f : A -> B) (l1 l2 : list A) :
  Subseq l1 l2 -> Subseq (map f l1) (map f l2).
Proof. induction 1; simpl; constructor; assumption. Qed.

Lemma Subseq_length {A : Type} (l1 l2 : list A) :
  Subseq l1 l2 -> List.length l1 <= List.length l2.
Proof. induction 1; simpl; lia. Qed.

Lemma cols_drop_pass_subseq (df : DataFrame) :
  Subseq (cols (fst (drop_pass df))) (cols df).
Proof.
  unfold drop_pass.
  destruct (filter (sparse (nrows df)) (cols df)); cbn [fst drop cols].
  - apply Subseq_refl.
  - apply Subseq_filter.
Qed.

Lemma wf_rename_columns (norm : string -> string) (df : DataFrame) :
  wf df -> wf (rename_columns norm df).
Proof.
  unfold wf, rename_columns, set_columns. cbn [nrows cols]. intros H.
  apply Forall_forall. intros [name s] Hc. rewrite Forall_forall in H.
  apply in_combine_r in Hc. cbn [snd]. apply in_map_iff in Hc.
  destruct Hc as [x [<- Hx]]. now apply H.
Qed.

Lemma wf_normalize_columns (df : DataFrame) : wf df -> wf (normalize_columns df).
Proof. apply wf_rename_columns. Qed.

Lemma fill_length {A : Type} (v : A) (xs : list (option A)) :
  List.length (fill v xs) = List.length xs.
Proof. unfold fill. apply length_map. Qed.

Lemma len_series_fillna (v : cell) (s : Series) :
  len_series (fillna v s) = len_series s.
Proof.
  unfold len_series. destruct v as [w|]; [|reflexivity].
  destruct s as [k xs|xs|xs]; simpl.
  - destruct w; simpl;
      try (destruct (forallb (fun c => negb (is_none c)) xs); simpl);
      unfold fill; now rewrite ?length_map.
  - reflexivity.
  - apply fill_length.
Qed.

Lemma len_series_fill_column (s : Series) :
  len_series (fill_column s) = len_series s.
Proof.
  unfold fill_column. destruct (0 <? null_count s); [|reflexivity].
  apply len_series_fillna.
Qed.

Lemma len_series_cap_column (s : Series) :
  len_series (cap_column s) = len_series s.
Proof.
  unfold cap_column, cap_column_clip.
  destruct (is_number (dtype_of s) && (0 <? outliers s)); [|reflexivity].
  destruct s as [k xs|xs|xs]; try reflexivity.
  unfold len_series. simpl. now rewrite !length_map.
Qed.

Lemma wf_fill_pass (df : DataFrame) : wf df -> wf (fst (fill_pass df)).
Proof.
  unfold wf, fill_pass. cbn [fst nrows cols]. intros H.
  apply Forall_map. cbn [snd]. eapply Forall_impl; [|exact H].
  intros c Hc. now rewrite len_series_fill_column.
Qed.

Lemma wf_cap_pass (df : DataFrame) : wf df -> wf (fst (cap_pass df)).
Proof.
  unfold wf, cap_pass. cbn [fst nrows cols]. intros H.
  apply Forall_map. cbn [snd]. eapply Forall_impl; [|exact H].
  intros c Hc. now rewrite len_series_cap_column.
Qed.

Lemma filter_length_le {A : Type} (p : A -> bool) (l : list A) :
  List.length (filter p l) <= List.length l.
Proof. induction l as [|x l IH]; simpl; [lia|]. destruct (p x); simpl; lia. Qed.

Lemma nrows_drop_duplicates (df : DataFrame) :
  wf df -> nrows (drop_duplicates df) <= nrows df.
Proof.
  intros H. unfold drop_duplicates. destruct (empty df); [lia|].
  cbn [nrows]. eapply Nat.le_trans; [apply filter_length_le|].
  unfold duplicated. rewrite length_map, duplicated_from_length.
  now rewrite rows_length.
Qed.

(** X5. Cleaning never adds anything: on a raw frame whose columns have one
    cell per row the cleaned frame again has one cell per row in every
    column, has at most as many rows, and its labels are normalised labels
    of the raw frame in their order, some possibly left out. *)
Theorem pipeline_shape (raw : DataFrame) :
  wf raw ->
  wf (fst (pipeline raw))
  /\ nrows (fst (pipeline raw)) <= nrows raw
  /\ Subseq (columns (fst (pipeline raw))) (map normalize_name (columns raw))
  /\ List.length (cols (fst (pipeline raw))) <= List.length (cols raw).
Proof.
  intros Hwf.
  pose proof (wf_normalize_columns raw Hwf) as W1.
  pose proof (wf_drop_pass _ W1) as W2.
  pose proof (nrows_drop_pass (normalize_columns raw)) as N2.
  pose proof (columns_pipeline raw) as C.
  assert (S : Subseq (columns (fst (pipeline raw)))
                (map normalize_name (columns raw))).
  { rewrite C, <- columns_normalize. unfold columns.
    apply Subseq_map, cols_drop_pass_subseq. }
  split; [|split; [|split; [exact S|]]].
  - unfold pipeline, pipeline_with; fold_normalize.
    destruct (drop_pass (normalize_columns raw)) as [d2 log2].
    cbn [fst] in *. unfold duplicates_pass.
    pose proof (wf_fill_pass _ (wf_drop_duplicates d2 W2)) as W4.
    destruct (fill_pass (drop_duplicates d2)) as [d4 log4]. cbn [fst] in *.
    pose proof (wf_cap_pass d4 W4) as W5.
    now destruct (cap_pass d4) as [d5 log5].
  - unfold pipeline, pipeline_with; fold_normalize.
    destruct (drop_pass (normalize_columns raw)) as [d2 log2].
    cbn [fst] in *. unfold duplicates_pass.
    pose proof (nrows_drop_duplicates d2 W2) as N3.
    assert (N4 : nrows (fst (fill_pass (drop_duplicates d2)))
                 = nrows (drop_duplicates d2)) by reflexivity.
    destruct (fill_pass (drop_duplicates d2)) as [d4 log4]. cbn [fst] in *.
    assert (N5 : nrows (fst (cap_pass d4)) = nrows d4) by reflexivity.
    destruct (cap_pass d4) as [d5 log5]. cbn [fst] in *.
    assert (nrows (normalize_columns raw) = nrows raw) by reflexivity. lia.
  - apply Subseq_length in S. unfold columns in S.
    now rewrite !length_map in S.
Qed.

Lemma pipeline_shape_witness :
  wf x_raw /\ nrows (fst (pipeline x_raw)) <= nrows x_raw.
Proof.
  assert (H : wf x_raw) by (repeat constructor).
  split; [exact H|]. exact (proj1 (proj2 (pipeline_shape x_raw H))).
Defined.

(** X6. A second column drop pass drops nothing: every column the first
    pass kept is at or below the threshold, whatever the labels. *)
Theorem drop_pass_idempotent (df : DataFrame) :
  drop_pass (fst (drop_pass df)) = (fst (drop_pass df), [no_drop_record]).
Proof.
  unfold drop_pass at 1. rewrite nrows_drop_pass.
  replace (filter (sparse (nrows df)) (cols (fst (drop_pass df))))
    with (@nil (string * Series)); [reflexivity|].
  symmetry.
  assert (H : forall c, In c (cols (fst (drop_pass df))) ->
                sparse (nrows df) c = false)
    by (intros c Hc; now apply drop_pass_kept in Hc).
  induction (cols (fst (drop_pass df))) as [|c l IH]; simpl; [reflexivity|].
  rewrite (H c (or_introl eq_refl)). apply IH. intros x Hx. apply H. now right.
Qed.

(* ================================================================== *)
(** ** Removing duplicates twice *)

Lemma distinct_not_duplicated (rs : list (list cell)) : forall seen,
  (forall r y, In r rs -> In y seen -> row_eqb r y = false) ->
  ForallOrdPairs (fun a b => row_eqb a b = false) rs ->
  duplicated_from seen rs = repeat false (List.length rs).
Proof.
  induction rs as [|r rs IH]; intros seen Hs Hd; simpl; [reflexivity|].
  inversion Hd as [|? ? Hr Hrs]; subst.
  assert (E : existsb (row_eqb r) seen = false).
  { destruct (existsb (row_eqb r) seen) eqn:E; [|reflexivity].
    apply existsb_exists in E. destruct E as [y [Hy Ey]].
    rewrite (Hs r y (or_introl eq_refl) Hy) in Ey. discriminate. }
  rewrite E. f_equal. apply IH; [|exact Hrs].
  intros x y Hx [<-|Hy].
  - rewrite row_eqb_sym. rewrite Forall_forall in Hr. now apply Hr.
  - apply Hs; [now right|exact Hy].
Qed.

Lemma mask_filter_all {A : Type} (l : list A) :
  mask_filter (repeat true (List.length l)) l = l.
Proof. induction l as [|x l IH]; simpl; congruence. Qed.

Lemma filter_repeat_true (n : nat) :
  List.length (filter (fun b : bool => b) (repeat true n)) = n.
Proof. induction n; simpl; congruence. Qed.

Lemma map_negb_repeat (n : nat) :
  map negb (repeat false n) = repeat true n.
Proof. induction n; simpl; congruence. Qed.

Lemma take_all (s : Series) :
  take (repeat true (len_series s)) s = s.
Proof.
  unfold len_series. destruct s as [k xs|xs|xs]; simpl;
    rewrite ?length_map; now rewrite mask_filter_all.
Qed.

(** X7. Removing duplicate rows twice gives what removing them once gives,
    on every frame whose columns have one cell per row. *)
Theorem drop_duplicates_idempotent (df : DataFrame) :
  wf df -> drop_duplicates (drop_duplicates df) = drop_duplicates df.
Proof.
  intros Hwf.
  destruct (empty df) eqn:He.
  - unfold drop_duplicates at 2. rewrite He.
    unfold drop_duplicates. now rewrite He.
  - pose proof (wf_drop_duplicates df Hwf) as Hwf'.
    pose proof (rows_drop_duplicates df Hwf He) as R.
    set (out := drop_duplicates df) in *.
    unfold drop_duplicates at 1. destruct (empty out) eqn:He'; [reflexivity|].
    assert (D : duplicated out = repeat false (nrows out)).
    { unfold duplicated. rewrite <- (rows_length out Hwf').
      apply distinct_not_duplicated; [intros r y _ []|].
      rewrite R. apply (nub_from_distinct row_eqb row_eqb_sym). }
    rewrite D.
    rewrite map_negb_repeat.
    rewrite filter_repeat_true.
    destruct out as [n l] eqn:Eo. cbn [nrows cols] in *. f_equal.
    unfold wf in Hwf'. cbn [nrows cols] in Hwf'.
    clear -Hwf'. induction Hwf' as [|c l Hc Hl IH]; simpl; [reflexivity|].
    rewrite IH. rewrite <- Hc at 1. rewrite take_all. now destruct c.
Qed.

Lemma drop_duplicates_idempotent_witness :
  wf x_raw
  /\ drop_duplicates (drop_duplicates x_raw) = drop_duplicates x_raw.
Proof.
  assert (H : wf x_raw) by (repeat constructor).
  split; [exact H|]. exact (drop_duplicates_idempotent x_raw H).
Defined.

(* ================================================================== *)
(** ** Imputation writes missing cells only *)

Lemma fill_keeps_values {A : Type} (v : A) (xs : list (option A)) :
  Forall2 (fun old new => old = None \/ new = old) xs (fill v xs).
Proof.
  unfold fill. induction xs as [|[x|] xs IH]; simpl; constructor; auto.
Qed.

Lemma Forall2_same {A : Type} (R : A -> A -> Prop) (l : list A) :
  (forall x, R x x) -> Forall2 R l l.
Proof. intros H. induction l; constructor; auto. Qed.

(** X8. The imputation of a column keeps its length and every cell that
    held a value; only missing cells are written. *)
Theorem fill_column_keeps_values (s : Series) :
  len_series (fill_column s) = len_series s
  /\ Forall2 (fun old new => old = None \/ new = old)
       (cells s) (cells (fill_column s)).
Proof.
  split; [apply len_series_fill_column|].
  unfold fill_column. destruct (0 <? null_count s) eqn:E;
    [|apply Forall2_same; auto].
  apply Nat.ltb_lt in E. unfold fill_value.
  destruct (dtype_in_int64_float64 (dtype_of s)) eqn:D.
  - destruct (dtype_in_numeric s D) as [k [xs [-> _]]].
    simpl. destruct (median_of (present xs)) as [m|];
      [|apply Forall2_same; auto].
    simpl. rewrite fill_map. apply fill_keeps_values.
  - rewrite fillna_cells by exact E. apply fill_keeps_values.
Qed.

(* ================================================================== *)
(** ** The median *)

Lemma sort_values_In (xs : list Q) (i : nat) :
  i < List.length xs -> In (nth i (sort_values xs) 0%Q) xs.
Proof.
  intros H. apply (isort_In Qle_bool). apply nth_In.
  unfold sort_values. now rewrite isort_length.
Qed.

(** X9. The median of the values present lies between two of them, and is
    one of them when their number is odd: a cell filled with the median
    never leaves the range of the values the column holds. *)
Theorem median_within_values (xs : list Q) (m : Q) :
  median_of xs = Some m ->
  (exists a b, In a xs /\ In b xs /\ (a <= m <= b)%Q)
  /\ (Nat.odd (List.length xs) = true -> In m xs).
Proof.
  unfold median_of. set (s := sort_values xs).
  assert (L : List.length s = List.length xs)
    by (unfold s, sort_values; apply isort_length).
  rewrite L. destruct (List.length xs =? 0) eqn:E0; [discriminate|].
  apply Nat.eqb_neq in E0.
  assert (Hdiv : List.length xs / 2 < List.length xs)
    by (apply Nat.div_lt; lia).
  destruct (Nat.odd (List.length xs)) eqn:Eo; intros H.
  - assert (Hm : nth (List.length xs / 2) s 0%Q = m) by congruence.
    rewrite <- Hm. clear H Hm.
    pose proof (sort_values_In xs _ Hdiv) as Hin. fold s in Hin.
    split; [|auto]. exists (nth (List.length xs / 2) s 0%Q),
      (nth (List.length xs / 2) s 0%Q).
    split; [exact Hin|]. split; [exact Hin|]. split; apply Qle_refl.
  - assert (Hm : Qred ((nth (List.length xs / 2 - 1) s 0
                          + nth (List.length xs / 2) s 0) / 2)%Q = m)
      by congruence.
    rewrite <- Hm. clear H Hm.
    split; [|discriminate].
    assert (Hlo : List.length xs / 2 - 1 < List.length xs) by lia.
    exists (nth (List.length xs / 2 - 1) s 0%Q), (nth (List.length xs / 2) s 0%Q).
    split; [apply sort_values_In; exact Hlo|].
    split; [apply sort_values_In; exact Hdiv|].
    assert (Hab : (nth (List.length xs / 2 - 1) s 0 <= nth (List.length xs / 2) s 0)%Q)
      by (apply sort_values_nth; lia).
    revert Hab.
    generalize (nth (List.length xs / 2 - 1) s 0%Q) (nth (List.length xs / 2) s 0%Q).
    intros a b Hab.
    assert (E : (Qred ((a + b) / 2) == (a + b) / 2)%Q) by apply Qred_correct.
    split; rewrite E.
    + apply Qle_shift_div_l; lra.
    + apply Qle_shift_div_r; lra.
Qed.

Lemma median_within_values_witness :
  median_of [3%Q; 1%Q; 9%Q; 5%Q] = Some 4%Q
  /\ exists a b, In a [3%Q; 1%Q; 9%Q; 5%Q] /\ In b [3%Q; 1%Q; 9%Q; 5%Q]
                 /\ (a <= 4 <= b)%Q.
Proof.
  assert (H : median_of [3%Q; 1%Q; 9%Q; 5%Q] = Some 4%Q) by reflexivity.
  split; [exact H|].
  exact (proj1 (median_within_values [3%Q; 1%Q; 9%Q; 5%Q] 4%Q H)).
Defined.

(* ================================================================== *)
(** ** More on the outlier capper *)

Lemma cap_column_cells (k : numkind) (xs : list (option Q)) (lower upper : Q) :
  fences (NumSeries k xs) = (Some lower, Some upper) ->
  exists k',
    cap_column (NumSeries k xs)
    = NumSeries k' (map (option_map (clip_value (Some lower) (Some upper))) xs).
Proof.
  intros F. unfold cap_column, cap_column_clip. cbn [dtype_of is_number andb].
  destruct (0 <? outliers (NumSeries k xs)) eqn:Hout.
  - rewrite F. cbn [fst snd clip]. eexists. reflexivity.
  - apply Nat.ltb_ge in Hout. exists k.
    rewrite clip_cells_inside; [reflexivity|].
    unfold outliers in Hout. rewrite F in Hout.
    cbn [fst snd count_outside] in Hout. lia.
Qed.

(** X10. A numeric column whose first and third quartile coincide is capped
    onto that single value: afterwards every value present equals it. *)
Theorem cap_column_zero_iqr (k : numkind) (xs : list (option Q)) (q1 q3 : Q) :
  quantile (1 # 4) (NumSeries k xs) = Some q1 ->
  quantile (3 # 4) (NumSeries k xs) = Some q3 ->
  (q1 == q3)%Q ->
  exists k' ys,
    cap_column (NumSeries k xs) = NumSeries k' ys
    /\ List.length ys = List.length xs
    /\ Forall (fun y => (y == q1)%Q) (present ys).
Proof.
  intros H1 H3 E.
  destruct (fences_defined k xs q1 q3 H1 H3) as [lower [upper [F [E1 [E3 Hlu]]]]].
  destruct (cap_column_cells k xs lower upper F) as [k' Hcap].
  destruct (clip_cells_spec lower upper xs Hlu) as [_ B].
  exists k', (map (option_map (clip_value (Some lower) (Some upper))) xs).
  split; [exact Hcap|]. split; [apply length_map|].
  eapply Forall_impl; [|exact B]. cbv beta. intros y [Hy1 Hy2].
  rewrite E1 in Hy1. rewrite E3 in Hy2. rewrite <- E in Hy2.
  apply Qle_antisym; lra.
Qed.

Lemma cap_column_zero_iqr_witness :
  quantile (1 # 4) (NumSeries float64 x_flat) = Some 5%Q
  /\ quantile (3 # 4) (NumSeries float64 x_flat) = Some 5%Q
  /\ exists k' ys,
       cap_column (NumSeries float64 x_flat) = NumSeries k' ys
       /\ Forall (fun y => (y == 5)%Q) (present ys).
Proof.
  assert (H1 : quantile (1 # 4) (NumSeries float64 x_flat) = Some 5%Q)
    by reflexivity.
  assert (H3 : quantile (3 # 4) (NumSeries float64 x_flat) = Some 5%Q)
    by reflexivity.
  split; [exact H1|]. split; [exact H3|].
  destruct (cap_column_zero_iqr float64 x_flat 5%Q 5%Q H1 H3 (Qeq_refl 5%Q))
    as [k' [ys [C [_ B]]]].
  exists k', ys. auto.
Defined.

Lemma clip_value_monotone (lower upper x y : Q) :
  (lower <= upper)%Q -> (x <= y)%Q ->
  (clip_value (Some lower) (Some upper) x
   <= clip_value (Some lower) (Some upper) y)%Q.
Proof.
  intros Hlu Hxy. unfold clip_value, below, above, fgt.
  destruct (Qlt_bool x lower) eqn:X1; destruct (Qlt_bool y lower) eqn:Y1;
    destruct (Qlt_bool upper x) eqn:X2; destruct (Qlt_bool upper y) eqn:Y2;
    rewrite ?Qlt_bool_iff, ?Qlt_bool_false_iff in *; lra.
Qed.

Lemma clip_value_inside (lower upper z : Q) :
  (lower <= z <= upper)%Q -> clip_value (Some lower) (Some upper) z = z.
Proof.
  intros [H1 H2]. unfold clip_value, below, above, fgt.
  assert (E1 : Qlt_bool z lower = false) by (now apply Qlt_bool_false_iff).
  assert (E2 : Qlt_bool upper z = false) by (now apply Qlt_bool_false_iff).
  now rewrite E1, E2.
Qed.

Lemma clip_value_fixed (lower upper x : Q) :
  (lower <= upper)%Q ->
  clip_value (Some lower) (Some upper)
    (clip_value (Some lower) (Some upper) x)
  = clip_value (Some lower) (Some upper) x.
Proof.
  intros Hlu. apply clip_value_inside.
  exact (proj2 (clip_value_spec lower upper x Hlu)).
Qed.

Lemma fences_nan (s : Series) :
  quantile (1 # 4) s = None \/ quantile (3 # 4) s = None ->
  fences s = (None, None).
Proof.
  unfold fences. intros [H|H]; rewrite H.
  - now destruct (quantile (3 # 4) s).
  - now destruct (quantile (1 # 4) s).
Qed.

Lemma cap_column_nan (s : Series) :
  fences s = (None, None) -> cap_column s = s.
Proof.
  intros F. unfold cap_column.
  assert (O : outliers s = 0).
  { unfold outliers. rewrite F. cbn [fst snd].
    destruct s as [k xs|xs|xs]; try reflexivity.
    cbn [count_outside]. unfold below, above, fgt.
    induction (present xs) as [|x l IH]; simpl; auto. }
  rewrite O. cbn [Nat.ltb Nat.leb]. now rewrite andb_false_r.
Qed.

Lemma map_option_id {A : Type} (xs : list (option A)) :
  map (option_map (fun x => x)) xs = xs.
Proof. induction xs as [|[x|] xs IH]; simpl; congruence. Qed.

(** X11. The outlier capper applies one and the same map to every value of
    a numeric column; the map preserves order, so the ranking of the rows
    by that column is kept up to ties, and it leaves its own results as they
    are.  The column stays numeric, and boolean and object columns are not
    touched. *)
Theorem cap_column_order_preserving (k : numkind) (xs : list (option Q)) :
  (exists k' f,
      cap_column (NumSeries k xs) = NumSeries k' (map (option_map f) xs)
      /\ (forall x y, (x <= y)%Q -> (f x <= f y)%Q)
      /\ (forall x, f (f x) = f x))
  /\ (forall bs, cap_column (BoolSeries bs) = BoolSeries bs)
  /\ (forall cs, cap_column (ObjSeries cs) = ObjSeries cs).
Proof.
  split; [|split; reflexivity].
  destruct (quantile (1 # 4) (NumSeries k xs)) as [q1|] eqn:H1.
  - destruct (quantile (3 # 4) (NumSeries k xs)) as [q3|] eqn:H3.
    + destruct (fences_defined k xs q1 q3 H1 H3)
        as [lower [upper [F [_ [_ Hlu]]]]].
      destruct (cap_column_cells k xs lower upper F) as [k' Hcap].
      exists k', (clip_value (Some lower) (Some upper)).
      split; [exact Hcap|]. split.
      * intros x y. now apply clip_value_monotone.
      * intros x. now apply clip_value_fixed.
    + exists k, (fun x => x). rewrite map_option_id.
      split; [|split; auto].
      apply cap_column_nan, fences_nan. now right.
  - exists k, (fun x => x). rewrite map_option_id.
    split; [|split; auto].
    apply cap_column_nan, fences_nan. now left.
Qed.

(* ================================================================== *)
(** ** Cleaning keeps the kind of a column *)













(* ================================================================== *)
(** ** The figures of the dashboard *)

Lemma pipeline_with_rows_le (norm : string -> string) (raw : DataFrame) :
  wf raw ->
  nrows (fst (pipeline_with norm raw)) <= nrows raw
  /\ List.length (cols (fst (pipeline_with norm raw))) <= List.length (cols raw).
Proof.
  intros Hwf.
  pose proof (wf_drop_pass _ (wf_rename_columns norm raw Hwf)) as W2.
  pose proof (nrows_drop_pass (rename_columns norm raw)) as N2.
  split.
  - unfold pipeline_with.
    destruct (drop_pass (rename_columns norm raw)) as [d2 log2].
    cbn [fst] in *. unfold duplicates_pass.
    pose proof (nrows_drop_duplicates d2 W2) as N3.
    assert (N4 : nrows (fst (fill_pass (drop_duplicates d2)))
                 = nrows (drop_duplicates d2)) by reflexivity.
    destruct (fill_pass (drop_duplicates d2)) as [d4 log4]. cbn [fst] in *.
    assert (N5 : nrows (fst (cap_pass d4)) = nrows d4) by reflexivity.
    destruct (cap_pass d4) as [d5 log5]. cbn [fst] in *.
    assert (nrows (rename_columns norm raw) = nrows raw) by reflexivity. lia.
  - pose proof (Subseq_length _ _
                  (Subseq_map fst _ _
                     (cols_drop_pass_subseq (rename_columns norm raw)))) as S.
    fold (columns (fst (drop_pass (rename_columns norm raw)))) in S.
    fold (columns (rename_columns norm raw)) in S.
    rewrite <- columns_pipeline_with, columns_rename in S.
    unfold columns in S. now rewrite !length_map in S.
Qed.

(** X16. Whatever the normalisation [norm] of labels: after [clean_data]
    on a loaded frame whose columns have one cell per row and whose
    normalised labels are pairwise distinct, the figures of the dashboard
    are computed without error; rows and columns never increase, so their
    changes are shown as a degradation exactly when a row or a column was
    removed; and the missing values removed are at most the missing cells
    of the raw frame, all of them when the cleaned frame has none left. *)
Theorem dashboard_figures_after_cleaning (norm : string -> string)
  (raw : DataFrame) :
  wf raw ->
  NoDup (map norm (columns raw)) ->
  exists st figs,
    clean_data_with norm (loaded raw) = Ok (tt, st)
    /\ dashboard_figures st = Ok (figs, st)
    /\ fig_raw_analysis figs = summary raw
    /\ fig_cleaned_analysis figs = summary (cleaned_data st)
    /\ (fig_rows_change figs <= 0)%Z
    /\ (fig_cols_change figs <= 0)%Z
    /\ (fig_missing_improvement figs <= Z.of_nat (total_missing raw))%Z
    /\ (total_missing (cleaned_data st) = 0 ->
        fig_missing_improvement figs = Z.of_nat (total_missing raw))
    /\ (change_class (fig_rows_change figs) = "degradation"
        <-> nrows (cleaned_data st) < nrows raw)
    /\ (change_class (fig_cols_change figs) = "degradation"
        <-> List.length (cols (cleaned_data st)) < List.length (cols raw)).
Proof.
  intros Hwf ND.
  pose proof (NoDup_map_inv _ _ ND) as ND0.
  pose proof (NoDup_columns_pipeline_with norm raw ND) as ND1.
  destruct (pipeline_with_rows_le norm raw Hwf) as [Hr Hc].
  eexists. eexists. split; [apply (clean_data_with_run norm raw ND)|].
  split.
  { unfold dashboard_figures. run_step.
    eapply bind_runs; [apply (analyze_data_run raw _ ND0)|].
    run_step.
    eapply bind_runs; [apply (analyze_data_run _ _ ND1)|].
    reflexivity. }
  cbn [fig_raw_analysis fig_cleaned_analysis fig_rows_change fig_cols_change
       fig_missing_improvement cleaned_data].
  split; [reflexivity|]. split; [reflexivity|].
  unfold rows_change, cols_change, missing_improvement, change_class, summary.
  cbn [basic_info info_rows info_columns info_total_missing].
  unfold columns. rewrite !length_map.
  split; [lia|]. split; [lia|]. split; [lia|]. split; [intros ->; lia|]. split.
  - destruct (Z.leb_spec 0 (Z.of_nat (nrows (fst (pipeline_with norm raw))) - Z.of_nat (nrows raw)))
      as [L|L]; split; intros H; try discriminate; try reflexivity; lia.
  - destruct (Z.leb_spec 0
                (Z.of_nat (List.length (cols (fst (pipeline_with norm raw))))
                 - Z.of_nat (List.length (cols raw)))) as [L|L];
      split; intros H; try discriminate; try reflexivity; lia.
Qed.

Lemma dashboard_figures_witness :
  wf x_raw
  /\ NoDup (map normalize_name (columns x_raw))
  /\ exists st figs,
       clean_data (loaded x_raw) = Ok (tt, st)
       /\ dashboard_figures st = Ok (figs, st)
       /\ (fig_rows_change figs <= 0)%Z.
Proof.
  assert (H1 : wf x_raw) by (repeat constructor).
  assert (H2 : NoDup (map normalize_name (columns x_raw))).
  { repeat constructor; simpl; intuition discriminate. }
  split; [exact H1|]. split; [exact H2|].
  destruct (dashboard_figures_after_cleaning normalize_name x_raw H1 H2)
    as [st [figs [E [F [_ [_ [R _]]]]]]].
  exists st, figs. auto.
Defined.

(* ================================================================== *)
(** ** Facets of the analysis *)

Lemma analyze_data_duplicate (data : DataFrame) (st : State) :
  ~ NoDup (columns data) -> analyze_data data st = Raise AttributeError.
Proof.
  intros ND. unfold analyze_data.
  destruct (for_each_raises AttributeError data
              (fun d col =>
                 bind (series_at AttributeError data col)
                   (fun s => ret (dict_set col (missing_entry (nrows data) s) d)))
              (fun _ => True)) with (l := columns data)
    (acc := @nil (string * MissingEntry)) (st := st) as [E|C].
  - intros acc x st0 ss _ G. unfold bind, series_at. now rewrite G.
  - intros acc x st0 s _ G. unfold bind, series_at. rewrite G.
    unfold ret. eauto.
  - exact I.
  - auto.
  - apply bind_raise. exact E.
  - elim ND. now apply all_columns_unique.
Qed.

Lemma analyze_data_inv (data : DataFrame) (st st' : State) (a : Analysis) :
  analyze_data data st = Ok (a, st') ->
  NoDup (columns data) /\ a = summary data /\ st' = st.
Proof.
  intros E.
  destruct (ListDec.NoDup_dec string_dec (columns data)) as [ND|ND].
  - rewrite (analyze_data_run data st ND) in E. injection E as <- <-. auto.
  - rewrite (analyze_data_duplicate data st ND) in E. discriminate.
Qed.

Lemma sum_missing_entries (n : nat) (l : list (string * Series)) :
  fold_right (fun e acc => missing_count (snd e) + acc) 0
    (entries (missing_entry n) l)
  = fold_right (fun c acc => null_count (snd c) + acc) 0 l.
Proof. induction l as [|c l IH]; simpl; congruence. Qed.

(** X13. The facets of an analysis agree with each other: the entries of
    [missing_data] and of [data_types] are the columns of the frame in their
    order, [total_missing] is the sum of the counts of [missing_data], no
    count exceeds the number of rows when every column has one cell per row,
    and [outlier_analysis] has an entry for exactly the columns of
    [numeric_summary]. *)
Theorem analysis_facets_agree (data : DataFrame) (st st' : State) (a : Analysis) :
  analyze_data data st = Ok (a, st') ->
  keys (missing_data a) = columns data
  /\ keys (data_types a) = columns data
  /\ info_columns (basic_info a) = List.length (missing_data a)
  /\ info_total_missing (basic_info a)
     = fold_right (fun e acc => missing_count (snd e) + acc) 0 (missing_data a)
  /\ keys (outlier_analysis a) = keys (numeric_summary a)
  /\ (wf data ->
      Forall (fun e => missing_count (snd e) <= info_rows (basic_info a))
        (missing_data a)).
Proof.
  intros E. destruct (analyze_data_inv data st st' a E) as [_ [-> _]].
  unfold summary.
  cbn [missing_data data_types basic_info info_columns info_total_missing
       outlier_analysis numeric_summary info_rows].
  rewrite !keys_entries. split; [reflexivity|]. split; [reflexivity|].
  split; [unfold columns, entries; now rewrite !length_map|].
  split; [unfold total_missing; now rewrite sum_missing_entries|].
  split; [reflexivity|].
  intros Hwf. unfold entries. apply Forall_map. cbn [snd missing_entry missing_count].
  eapply Forall_impl; [|exact Hwf]. cbv beta. intros c Hc.
  unfold null_count. rewrite <- Hc. unfold len_series.
  apply filter_length_le.
Qed.

Lemma analysis_facets_agree_witness :
  exists a,
    analyze_data x_raw (loaded x_raw) = Ok (a, loaded x_raw)
    /\ keys (missing_data a) = columns x_raw
    /\ info_total_missing (basic_info a) = 1.
Proof.
  assert (E : analyze_data x_raw (loaded x_raw)
              = Ok (summary x_raw, loaded x_raw)) by reflexivity.
  exists (summary x_raw). split; [exact E|].
  destruct (analysis_facets_agree x_raw _ _ _ E) as [K [_ [_ [T _]]]].
  split; [exact K|]. rewrite T. reflexivity.
Defined.

(* ================================================================== *)
(** ** The most frequent values of a categorical column *)

Lemma count_desc_total (a b : pyobj * nat) :
  (fun a b : pyobj * nat => snd b <=? snd a) a b = true
  \/ (fun a b : pyobj * nat => snd b <=? snd a) b a = true.
Proof.
  cbv beta. destruct (Nat.le_ge_cases (snd a) (snd b)); [right|left];
    now apply Nat.leb_le.
Qed.

Lemma count_desc_trans (a b c : pyobj * nat) :
  (fun a b : pyobj * nat => snd b <=? snd a) a b = true ->
  (fun a b : pyobj * nat => snd b <=? snd a) b c = true ->
  (fun a b : pyobj * nat => snd b <=? snd a) a c = true.
Proof. cbv beta. rewrite !Nat.leb_le. lia. Qed.

Lemma ascending_firstn {A : Type} (leb : A -> A -> bool) (n : nat) (l : list A) :
  ascending leb l -> ascending leb (firstn n l).
Proof.
  revert l. induction n as [|n IH]; intros [|x l]; simpl; auto.
  intros [H1 H2]. split; [|now apply IH].
  intros y Hy. apply H1. eapply (In_nth_error) in Hy. destruct Hy as [i Hi].
  assert (In y (firstn n l)) by (eapply nth_error_In; eassumption).
  clear -H. revert l H. induction n as [|n IHn]; intros [|z l]; simpl; try tauto.
  intros [->|H]; [now left|right; now apply IHn].
Qed.

Lemma firstn_In {A : Type} (n : nat) (l : list A) (x : A) :
  In x (firstn n l) -> In x l.
Proof.
  revert l. induction n as [|n IH]; intros [|z l]; simpl; try tauto.
  intros [->|H]; [now left|right; now apply IH].
Qed.

Lemma value_counts_In (s : Series) (e : pyobj * nat) :
  In e (value_counts s) ->
  In (fst e) (present (cells s))
  /\ snd e = count py_eqb (fst e) (present (cells s))
  /\ 0 < snd e.
Proof.
  unfold value_counts. intros H. apply (isort_In) in H.
  apply in_map_iff in H. destruct H as [v [<- Hv]]. cbn [fst snd].
  apply (nub_from_In py_eqb) in Hv. split; [exact Hv|]. split; [reflexivity|].
  unfold count.
  assert (Hin : In v (filter (py_eqb v) (present (cells s)))).
  { apply filter_In. split; [exact Hv|apply py_eqb_refl]. }
  destruct (filter (py_eqb v) (present (cells s))); [contradiction|simpl; lia].
Qed.

Lemma value_counts_head (s : Series) :
  present (cells s) <> [] ->
  exists e rest, value_counts s = e :: rest
                 /\ snd e = max_count py_eqb (present (cells s)).
Proof.
  intros Hv. set (vs := present (cells s)) in *.
  assert (Hn : map (fun v => (v, count py_eqb v vs)) (nub py_eqb vs) <> []).
  { destruct vs as [|x l] eqn:E; [now elim Hv|].
    destruct (nub_complete py_eqb py_eqb_refl py_eqb_trans (x :: l) x
                (or_introl eq_refl)) as [z [Hz _]].
    intro N. apply map_eq_nil in N. rewrite N in Hz. contradiction. }
  destruct (isort_head (fun a b : pyobj * nat => snd b <=? snd a)
              count_desc_total count_desc_trans _ Hn)
    as [e [He [Hin Hmin]]].
  unfold value_counts. fold vs.
  destruct (isort (fun a b : pyobj * nat => snd b <=? snd a)
              (map (fun v => (v, count py_eqb v vs)) (nub py_eqb vs)))
    as [|e0 rest]; [discriminate|].
  injection He as ->. exists e, rest. split; [reflexivity|].
  apply in_map_iff in Hin. destruct Hin as [v [<- Hvin]]. cbn [snd].
  apply Nat.le_antisymm.
  - change (max_count py_eqb vs) with (max_over py_eqb vs vs).
    apply (max_over_ge py_eqb py_leb). eapply nub_from_In; exact Hvin.
  - destruct (max_over_attained py_eqb vs vs Hv) as [x [Hx Ex]].
    change (max_count py_eqb vs) with (max_over py_eqb vs vs). rewrite <- Ex.
    destruct (nub_complete py_eqb py_eqb_refl py_eqb_trans vs x Hx)
      as [z [Hz Ez]].
    rewrite (count_eqb py_eqb py_eqb_sym py_eqb_trans x z vs Ez).
    specialize (Hmin (z, count py_eqb z vs)).
    cbn [snd] in Hmin. apply Nat.leb_le.
    apply Hmin. apply in_map_iff. exists z. auto.
Qed.

(** X15. For every column, [top_values] holds at most three entries, each a
    value present in the column with the number of its occurrences, in
    non-increasing order of that number; when the column holds a value, the
    first entry has the largest number of occurrences, which is also that of
    [most_frequent]. *)
Theorem top_values_most_frequent (s : Series) :
  let e := categorical_entry s in
  let vs := present (cells s) in
  List.length (cat_top_values e) <= 3
  /\ Forall (fun t => In (fst t) vs /\ snd t = count py_eqb (fst t) vs
                      /\ 0 < snd t)
       (cat_top_values e)
  /\ ascending (fun a b => snd b <=? snd a) (cat_top_values e)
  /\ (vs = [] ->
      cat_top_values e = [] /\ cat_most_frequent e = PStr "N/A")
  /\ (vs <> [] ->
      exists t rest,
        cat_top_values e = t :: rest
        /\ snd t = max_count py_eqb vs
        /\ count py_eqb (cat_most_frequent e) vs = snd t).
Proof.
  cbv zeta. unfold categorical_entry.
  cbn [cat_top_values cat_most_frequent]. split; [apply firstn_le_length|].
  split; [|split; [|split]].
  - apply Forall_forall. intros t Ht. apply firstn_In in Ht.
    now apply value_counts_In.
  - apply ascending_firstn. unfold value_counts.
    apply (isort_ascending _ count_desc_total count_desc_trans).
  - intros E. unfold value_counts, mode. rewrite E. split; reflexivity.
  - intros Hv. destruct (value_counts_head s Hv) as [t [rest [E M]]].
    rewrite E. exists t, (firstn 2 rest). split; [reflexivity|].
    split; [exact M|]. unfold mode.
    destruct (mode_of (present (cells s))) as [|v r] eqn:Em.
    + elim (mode_of_nonempty _ Hv Em).
    + destruct (mode_of_most_frequent _ v r Em) as [_ [C _]]. congruence.
Qed.

(* ================================================================== *)
(** ** Suffix and stem of a file name *)

Lemma rfind_bound (c : ascii) (s : string) (i : nat) :
  rfind c s = Some i -> i < String.length s.
Proof.
  revert i. induction s as [|a s IH]; simpl; intros i H; [discriminate|].
  destruct (rfind c s) as [j|].
  - injection H as <-. specialize (IH j eq_refl). lia.
  - destruct (Ascii.eqb a c); [injection H as <-; lia|discriminate].
Qed.

Lemma substring_split (s : string) : forall i,
  i <= String.length s ->
  substring 0 i s +++ substring i (String.length s - i) s = s.
Proof.
  induction s as [|a s IH]; intros [|i] H; simpl in *; try reflexivity; try lia.
  - f_equal. clear. induction s as [|b s IH]; simpl; congruence.
  - f_equal. apply IH. lia.
Qed.

Lemma rfind_append (c : ascii) (b t : string) (j : nat) :
  rfind c t = Some j -> rfind c (b +++ t) = Some (String.length b + j).
Proof.
  intros E. induction b as [|a b IH].
  - exact E.
  - change (String a b +++ t) with (String a (b +++ t)).
    cbn [rfind String.length]. now rewrite IH.
Qed.

Lemma length_append_str (b t : string) :
  String.length (b +++ t) = String.length b + String.length t.
Proof.
  induction b as [|a b IH]; [reflexivity|].
  change (String a b +++ t) with (String a (b +++ t)).
  cbn [String.length]. now rewrite IH.
Qed.

Lemma substring_all (s : string) : substring 0 (String.length s) s = s.
Proof. induction s as [|a s IH]; simpl; congruence. Qed.

Lemma substring_append_right (b t : string) :
  substring (String.length b) (String.length t) (b +++ t) = t.
Proof.
  induction b as [|a b IH].
  - apply substring_all.
  - exact IH.
Qed.

Lemma substring_append_left (b t : string) :
  substring 0 (String.length b) (b +++ t) = b.
Proof.
  induction b as [|a b IH].
  - destruct t; reflexivity.
  - change (String a b +++ t) with (String a (b +++ t)).
    cbn [String.length substring]. now rewrite IH.
Qed.

(** A name is its stem followed by its suffix; a name made of a non-empty
    base, a dot and an extension without dot has that base as stem. *)
Lemma stem_suffix (name : string) :
  stem name +++ suffix name = name
  /\ (rfind "." name = None -> suffix name = "" /\ stem name = name)
  /\ (forall ext, rfind "." ext = None ->
        suffix ("." +++ ext) = "" /\ stem ("." +++ ext) = "." +++ ext)
  /\ (forall base ext,
        base <> "" -> ext <> "" -> rfind "." ext = None ->
        suffix (base +++ "." +++ ext) = "." +++ ext
        /\ stem (base +++ "." +++ ext) = base).
Proof.
  assert (Nil : forall s : string, s +++ "" = s).
  { induction s as [|a s IH]; [reflexivity|].
    change (String a s +++ "") with (String a (s +++ "")). now rewrite IH. }
  split; [|split; [|split]].
  - unfold stem, suffix. destruct (rfind "." name) as [i|] eqn:E.
    + destruct ((0 <? i) && (i <? String.length name - 1)).
      * apply substring_split. apply rfind_bound in E. lia.
      * apply Nil.
    + apply Nil.
  - intros E. unfold suffix, stem. now rewrite E.
  - intros ext E. unfold suffix, stem.
    change ("." +++ ext) with (String "." ext). cbn [rfind]. now rewrite E.
  - intros base ext Hb He E.
    set (t := "." +++ ext).
    assert (T : rfind "." t = Some 0).
    { unfold t. change ("." +++ ext) with (String "." ext).
      cbn [rfind]. now rewrite E. }
    assert (Lt : String.length t = S (String.length ext)) by reflexivity.
    pose proof (rfind_append "." base t 0 T) as R.
    rewrite Nat.add_0_r in R.
    pose proof (length_append_str base t) as L.
    assert (C : (0 <? String.length base)
                && (String.length base <? String.length (base +++ t) - 1)
                = true).
    { rewrite L, Lt. destruct base; [now elim Hb|]. destruct ext; [now elim He|].
      cbn [String.length]. apply andb_true_iff. split.
      - reflexivity.
      - apply Nat.ltb_lt. lia. }
    unfold suffix, stem. rewrite R, C, L. split.
    + replace (String.length base + String.length t - String.length base)
        with (String.length t) by lia.
      apply substring_append_right.
    + apply substring_append_left.
Qed.

(* ================================================================== *)
(** ** Loading *)

Section Loading.
Variable read : reader -> string -> option DataFrame.
Variable exists_file : string -> bool.

Lemma reader_for_supported (file_ext : string) (r : reader) :
  reader_for file_ext = Some r ->
  In (file_ext, r)
     [(".csv", read_csv); (".xlsx", read_excel); (".xls", read_excel);
      (".json", read_json); (".parquet", read_parquet);
      (".tsv", read_csv_tab)].
Proof.
  unfold reader_for.
  destruct (String.eqb_spec file_ext ".csv") as [->|_];
    [intros [= <-]; simpl; tauto|].
  destruct (String.eqb_spec file_ext ".xlsx") as [->|_];
    [intros [= <-]; simpl; tauto|].
  destruct (String.eqb_spec file_ext ".xls") as [->|_];
    [intros [= <-]; simpl; tauto|].
  cbn [orb].
  destruct (String.eqb_spec file_ext ".json") as [->|_];
    [intros [= <-]; simpl; tauto|].
  destruct (String.eqb_spec file_ext ".parquet") as [->|_];
    [intros [= <-]; simpl; tauto|].
  destruct (String.eqb_spec file_ext ".tsv") as [->|_];
    [intros [= <-]; simpl; tauto|discriminate].
Qed.

(** X19. [load_data] succeeds only through one of the five readers, chosen
    by the suffix of the name of the file without regard to letter case: a
    file whose name is a non-empty base, a dot and an extension without dot
    is read by the reader of its lower-cased extension, which is given the
    whole path.  A file whose name has no suffix, or a suffix outside the
    six supported ones, makes it return [False] whatever the readers do. *)
Theorem load_data_dispatch (path : string) :
  (forall df, load_data read path = Some df ->
     exists r, read r path = Some df
               /\ In (Py.lower (suffix (file_name path)), r)
                    [(".csv", read_csv); (".xlsx", read_excel);
                     (".xls", read_excel); (".json", read_json);
                     (".parquet", read_parquet); (".tsv", read_csv_tab)])
  /\ (reader_for (Py.lower (suffix (file_name path))) = None ->
      load_data read path = None)
  /\ (rfind "." (file_name path) = None -> load_data read path = None)
  /\ (forall ext, rfind "." ext = None -> file_name path = "." +++ ext ->
      load_data read path = None)
  /\ (forall base ext r,
        file_name path = base +++ "." +++ ext ->
        base <> "" -> ext <> "" -> rfind "." ext = None ->
        reader_for (Py.lower ("." +++ ext)) = Some r ->
        load_data read path = read r path).
Proof.
  split; [|split; [|split; [|split]]].
  - intros df H. unfold load_data in H.
    destruct (reader_for (Py.lower (suffix (file_name path)))) as [r|] eqn:E;
      [|discriminate].
    exists r. split; [exact H|]. now apply reader_for_supported.
  - intros E. unfold load_data. now rewrite E.
  - intros E. unfold load_data.
    destruct (stem_suffix (file_name path)) as [_ [S _]].
    destruct (S E) as [-> _]. reflexivity.
  - intros ext E N. unfold load_data. rewrite N.
    destruct (stem_suffix "") as [_ [_ [S _]]].
    destruct (S ext E) as [-> _]. reflexivity.
  - intros base ext r N Hb He Hd Hr. unfold load_data. rewrite N.
    destruct (stem_suffix "") as [_ [_ [_ S]]].
    destruct (S base ext Hb He Hd) as [-> _]. now rewrite Hr.
Qed.

End Loading.

Section Running.
Variable read : reader -> string -> option DataFrame.
Variable exists_file : string -> bool.
Variable norm : string -> string.

End Running.
Lemma load_data_dispatch_witness :
  file_name "in/Data.CSV" = "Data" +++ "." +++ "CSV"
  /\ "Data" <> "" /\ "CSV" <> "" /\ rfind "." "CSV" = None
  /\ reader_for (Py.lower ("." +++ "CSV")) = Some read_csv
  /\ load_data
       (fun r _ => match r with read_csv => Some x_raw | _ => None end)
       "in/Data.CSV"
     = Some x_raw.
Proof.
  assert (H0 : file_name "in/Data.CSV" = "Data" +++ "." +++ "CSV")
    by reflexivity.
  assert (H1 : "Data" <> "") by discriminate.
  assert (H2 : "CSV" <> "") by discriminate.
  assert (H3 : rfind "." "CSV" = None) by reflexivity.
  assert (H4 : reader_for (Py.lower ("." +++ "CSV")) = Some read_csv)
    by reflexivity.
  split; [exact H0|]. split; [exact H1|]. split; [exact H2|].
  split; [exact H3|]. split; [exact H4|].
  exact (proj2 (proj2 (proj2 (proj2
           (load_data_dispatch
              (fun r _ => match r with read_csv => Some x_raw | _ => None end)
              "in/Data.CSV"))))
           "Data" "CSV" read_csv H0 H1 H2 H3 H4).
Defined.



(* ================================================================== *)
(** ** Percentages of the analysis *)

Lemma ratio_bounds (a n : nat) :
  0 < n -> a <= n ->
  (0 <= inject_Z (Z.of_nat a) / inject_Z (Z.of_nat n) <= 1)%Q.
Proof.
  intros Hn Ha.
  assert (P : (0 < inject_Z (Z.of_nat n))%Q).
  { change 0%Q with (inject_Z 0). rewrite <- Zlt_Qlt. lia. }
  split.
  - apply Qle_shift_div_l; [exact P|]. rewrite Qmult_0_l.
    change 0%Q with (inject_Z 0). rewrite <- Zle_Qle. lia.
  - apply Qle_shift_div_r; [exact P|]. rewrite Qmult_1_l.
    rewrite <- Zle_Qle. lia.
Qed.

Lemma Qred_bounds (lo hi q : Q) :
  (lo <= q <= hi)%Q -> (lo <= Qred q <= hi)%Q.
Proof.
  intros H. pose proof (Qred_correct q) as E.
  generalize dependent (Qred q). intros r E. split; lra.
Qed.

Lemma percent_bounds (a n : nat) (p : Q) :
  a <= n ->
  fmul (true_divide a n) (Some 100%Q) = Some p ->
  0 < n /\ (0 <= p <= 100)%Q.
Proof.
  intros Ha. unfold true_divide.
  destruct (n =? 0) eqn:E; [discriminate|]. apply Nat.eqb_neq in E.
  cbn [fmul]. intros H.
  assert (Ep : p = Qred (Qred (inject_Z (Z.of_nat a) / inject_Z (Z.of_nat n))
                         * 100)%Q) by congruence.
  rewrite Ep. clear H Ep. split; [lia|].
  destruct (ratio_bounds a n ltac:(lia) Ha) as [L U].
  apply Qred_bounds.
  assert (B : (0 <= Qred (inject_Z (Z.of_nat a) / inject_Z (Z.of_nat n)) <= 1)%Q)
    by (apply Qred_bounds; split; assumption).
  destruct B as [B1 B2].
  generalize dependent (Qred (inject_Z (Z.of_nat a) / inject_Z (Z.of_nat n))).
  intros q B1 B2. split; lra.
Qed.

Lemma percent_nan (a n : nat) :
  fmul (true_divide a n) (Some 100%Q) = None <-> n = 0.
Proof.
  unfold true_divide. destruct (n =? 0) eqn:E.
  - apply Nat.eqb_eq in E. cbn [fmul]. tauto.
  - apply Nat.eqb_neq in E. cbn [fmul]. split; [discriminate|tauto].
Qed.

Lemma percent_zero (n : nat) :
  0 < n -> fmul (true_divide 0 n) (Some 100%Q) = Some 0%Q.
Proof.
  intros Hn. unfold true_divide.
  destruct (n =? 0) eqn:E; [apply Nat.eqb_eq in E; lia|].
  reflexivity.
Qed.

Lemma round_to_2_bounds (q : Q) :
  (0 <= q <= 100)%Q -> (0 <= Py.round_to 2 q <= 100)%Q.
Proof.
  intros [L U]. unfold Py.round_to. cbv zeta.
  change (inject_Z (10 ^ Z.of_nat 2)) with 100%Q.
  apply Qred_bounds.
  pose proof (round_half_even_close (q * 100)) as [A B].
  set (r := Py.round_half_even (q * 100)) in *.
  assert (R0 : (0 <= r)%Z).
  { assert (H : (inject_Z (-1) < inject_Z r)%Q).
    { change (inject_Z (-1)) with (-1)%Q. lra. }
    rewrite <- Zlt_Qlt in H. lia. }
  assert (R1 : (r <= 10000)%Z).
  { assert (H : (inject_Z r < inject_Z 10001)%Q).
    { change (inject_Z 10001) with 10001%Q. lra. }
    rewrite <- Zlt_Qlt in H. lia. }
  assert (Q0 : (0 <= inject_Z r)%Q).
  { change 0%Q with (inject_Z 0). now rewrite <- Zle_Qle. }
  assert (Q1 : (inject_Z r <= 10000)%Q).
  { change 10000%Q with (inject_Z 10000). now rewrite <- Zle_Qle. }
  generalize dependent (inject_Z r). intros x _ _ Q0 Q1.
  split.
  - apply Qle_shift_div_l; lra.
  - apply Qle_shift_div_r; lra.
Qed.

Lemma outliers_le (s : Series) : outliers s <= len_series s.
Proof.
  unfold outliers, count_outside, len_series.
  destruct s as [k xs|xs|xs]; [|lia|lia].
  cbn [cells]. rewrite length_map.
  etransitivity; [apply filter_length_le|].
  pose proof (null_present_length xs). lia.
Qed.

(** X17. In the analysis of a frame whose columns have one cell per row, the
    percentage of missing cells of a column and the percentage of outliers
    of a numeric column are NaN exactly when the frame has no rows, and lie
    between 0 and 100 otherwise.  A column without missing cell has the
    percentage 0. *)
Theorem analysis_percentages (data : DataFrame) :
  wf data ->
  Forall (fun e =>
            match missing_percentage (snd e) with
            | None => nrows data = 0
            | Some p => 0 < nrows data /\ (0 <= p <= 100)%Q
            end
            /\ (missing_count (snd e) = 0 -> 0 < nrows data ->
                missing_percentage (snd e) = Some 0%Q))
         (missing_data (summary data))
  /\ Forall (fun e =>
               outlier_count (snd e) <= nrows data
               /\ match outlier_percentage (snd e) with
                  | None => nrows data = 0
                  | Some p => 0 < nrows data /\ (0 <= p <= 100)%Q
                  end)
            (outlier_analysis (summary data)).
Proof.
  intros Hwf. unfold summary. cbn [missing_data outlier_analysis].
  split.
  - unfold entries. apply Forall_map. eapply Forall_impl; [|exact Hwf].
    cbv beta. intros c Hc.
    cbn [snd missing_entry missing_percentage missing_count].
    assert (Le : null_count (snd c) <= nrows data).
    { rewrite <- Hc. unfold null_count, len_series. apply filter_length_le. }
    split.
    + destruct (fmul (true_divide (null_count (snd c)) (nrows data))
                  (Some 100%Q)) as [p|] eqn:E.
      * exact (percent_bounds _ _ _ Le E).
      * now apply percent_nan in E.
    + intros -> Hn. now apply percent_zero.
  - unfold entries, numeric_part. apply Forall_map.
    apply Forall_forall. intros c Hin. apply filter_In in Hin.
    destruct Hin as [Hin _].
    pose proof (proj1 (Forall_forall _ _) Hwf c Hin) as Hc. cbv beta in Hc.
    cbn [snd outlier_entry outlier_percentage outlier_count].
    assert (Le : outliers (snd c) <= nrows data).
    { rewrite <- Hc. apply outliers_le. }
    split; [exact Le|].
    destruct (fmul (true_divide (outliers (snd c)) (nrows data))
                (Some 100%Q)) as [p|] eqn:E; cbn [option_map].
    + destruct (percent_bounds _ _ _ Le E) as [Hn B]. split; [exact Hn|].
      now apply round_to_2_bounds.
    + now apply percent_nan in E.
Qed.

Lemma analysis_percentages_witness :
  wf x_raw
  /\ Forall (fun e => outlier_count (snd e) <= 3)
       (outlier_analysis (summary x_raw)).
Proof.
  assert (H : wf x_raw) by (repeat constructor).
  split; [exact H|].
  eapply Forall_impl; [|exact (proj2 (analysis_percentages x_raw H))].
  intros e [L _]. exact L.
Defined.

(* ================================================================== *)
(** ** The summary of a numeric column *)

Lemma ascending_last (l : list Q) :
  ascending Qle_bool l -> l <> [] ->
  exists hi, hd_error (rev l) = Some hi /\ In hi l
             /\ forall w, In w l -> (w <= hi)%Q.
Proof.
  induction l as [|x l IH]; intros Asc Hne; [now elim Hne|].
  destruct Asc as [Hx Asc]. destruct l as [|y l].
  - exists x. split; [reflexivity|]. split; [now left|].
    intros w [<-|[]]. lra.
  - destruct (IH Asc ltac:(discriminate)) as [hi [E [Hin Hw]]].
    exists hi. split; [|split].
    + change (rev (x :: y :: l)) with (rev (y :: l) ++ [x]).
      destruct (rev (y :: l)) as [|z r]; [discriminate|exact E].
    + now right.
    + intros w [<-|Hw']; [|now apply Hw].
      apply Qle_bool_iff. now apply Hx.
Qed.

(** X18. The summary of a numeric column without any value reports 0 for
    the mean and the median, NaN for the minimum and the maximum, and no
    unique value and no zero.  When the column has a value, the minimum and
    the maximum are values of the column that bound all the others, the
    number of unique values lies between 1 and the number of values, and the
    number of zeros does not exceed it. *)
Theorem numeric_entry_extremes (k : numkind) (xs : list (option Q)) :
  (present xs = [] ->
   numeric_entry (NumSeries k xs) = mkNumericEntry 0 0 None None 0 0)
  /\ (present xs <> [] ->
      exists lo hi,
        num_min (numeric_entry (NumSeries k xs)) = Some lo
        /\ num_max (numeric_entry (NumSeries k xs)) = Some hi
        /\ In lo (present xs) /\ In hi (present xs)
        /\ (forall x, In x (present xs) -> (lo <= x <= hi)%Q)
        /\ 1 <= num_unique_count (numeric_entry (NumSeries k xs))
             <= List.length (present xs)
        /\ num_zeros (numeric_entry (NumSeries k xs))
           <= List.length (present xs)).
Proof.
  split.
  - intros E. unfold numeric_entry, mean, median, median_of, series_min,
      series_max, nunique, numbers.
    cbn [cells]. rewrite present_map, E. reflexivity.
  - intros Hne. unfold numeric_entry.
    cbn [num_min num_max num_unique_count num_zeros].
    unfold series_min, series_max, nunique. cbn [numbers cells].
    rewrite present_map.
    destruct (isort_head Qle_bool Qle_bool_total Qle_bool_trans (present xs) Hne)
      as [lo [El [Hlo Lo]]].
    destruct (ascending_last (sort_values (present xs))) as [hi [Eh [Hhi Hi]]].
    { apply isort_ascending; [exact Qle_bool_total|exact Qle_bool_trans]. }
    { intros C. apply (f_equal (@List.length Q)) in C.
      unfold sort_values in C. rewrite isort_length in C.
      apply Hne. apply length_zero_iff_nil. exact C. }
    exists lo, hi. split; [exact El|]. split; [exact Eh|].
    split; [exact Hlo|]. split; [exact (proj1 (isort_In Qle_bool (present xs) hi) Hhi)|].
    split; [|split].
    + intros x Hx. split.
      * apply Qle_bool_iff. now apply Lo.
      * apply Hi. exact (proj2 (isort_In Qle_bool (present xs) x) Hx).
    + split.
      * destruct (present xs) as [|x l]; [now elim Hne|].
        unfold nub. cbn. lia.
      * pose proof (Subseq_length _ _
                      (nub_from_subseq py_eqb (map PNum (present xs)) [])) as H.
        rewrite length_map in H. exact H.
    + apply filter_length_le.
Qed.

Lemma numeric_entry_extremes_witness :
  present x_flat <> []
  /\ exists lo hi,
       num_min (numeric_entry (NumSeries float64 x_flat)) = Some lo
       /\ num_max (numeric_entry (NumSeries float64 x_flat)) = Some hi
       /\ (lo <= hi)%Q.
Proof.
  assert (H : present x_flat <> []) by discriminate.
  split; [exact H|].
  destruct (proj2 (numeric_entry_extremes float64 x_flat) H)
    as [lo [hi [A [B [I [_ [L _]]]]]]].
  exists lo, hi. split; [exact A|]. split; [exact B|].
  exact (proj2 (L lo I)).
Defined.


(* ================================================================== *)
(** ** Instances *)

Lemma top_values_most_frequent_witness :
  present (cells (ObjSeries [Some (PStr "ann"); Some (PStr "bob");
                             Some (PStr "bob"); None])) <> []
  /\ exists t rest,
       cat_top_values
         (categorical_entry
            (ObjSeries [Some (PStr "ann"); Some (PStr "bob");
                        Some (PStr "bob"); None]))
       = t :: rest
       /\ snd t = 2.
Proof.
  assert (H : present (cells (ObjSeries [Some (PStr "ann"); Some (PStr "bob");
                                         Some (PStr "bob"); None])) <> [])
    by discriminate.
  split; [exact H|].
  destruct (proj2 (proj2 (proj2 (proj2
              (top_values_most_frequent
                 (ObjSeries [Some (PStr "ann"); Some (PStr "bob");
                             Some (PStr "bob"); None]))))) H)
    as [t [rest [E [M _]]]].
  exists t, rest. split; [exact E|]. rewrite M. reflexivity.
Defined.
